(** * Education Indicators Dashboard: a shallow embedding of [app.py]

    The script reads one table, detects whether it is wide (one column per
    year) or long (explicit Year / Value columns), narrows it to one
    (country, indicator) pair and a year range, reshapes the slice into a
    long series sorted by Year, and derives four analytics from it.

    Modelling choices, all visible in the definitions below:
    - text is a Rocq [string] holding the UTF-8 bytes of a Python [str];
      [isdigit], [strip] and [int] read it character by character, with the
      digits and the white space of Unicode 14; the number parser of pandas
      reads bytes;
    - a number is an exact rational ([Q]); the missing value NaN is [None].
      IEEE rounding and the infinities are outside this model (so is the
      text [inf], which pandas reads as a number);
    - a data frame is a list of column names and a list of rows; the row
      label (pandas index) is carried explicitly once rows are filtered;
    - the reshaper is written twice.  [reshape] works on records and is what
      the statements about the long series use.  [lines_57_80] works on
      objects in a store, with the in-place assignments of the script, and
      is what the statement about reruns uses.  [reshape_frame_series]
      shows that both produce the same series. *)

From Stdlib Require Import List String Ascii Bool Arith ZArith QArith Lia Lqa.
From Stdlib Require Import Permutation Sorted DecimalString DecimalPos.
From Stdlib Require OrderedTypeEx.
Import ListNotations.

Local Open Scope string_scope.
Local Open Scope Z_scope.

(** ** Text: [str.strip], [str.isdigit], [str] and [int]

    A Python [str] is held as the bytes of its UTF-8 encoding. *)

Module Text.

(** *** Bytes *)

Definition is_digit_char (c : ascii) : bool :=
  let n := N_of_ascii c in ((48 <=? n) && (n <=? 57))%N.

Fixpoint all_chars (p : ascii -> bool) (s : string) : bool :=
  match s with
  | EmptyString => true
  | String c s' => p c && all_chars p s'
  end.

Definition digit_val (c : ascii) : Z := Z.of_N (N_of_ascii c) - 48.

(** Value of a run of digits read from the left, [acc] being the value of
    the digits already consumed; [None] on the first non-digit. *)
Fixpoint digits_val (s : string) (acc : Z) : option Z :=
  match s with
  | EmptyString => Some acc
  | String c s' =>
      if is_digit_char c then digits_val s' (10 * acc + digit_val c) else None
  end.

(** Python's white space below code 128: TAB, LF, VT, FF, CR, FS, GS, RS, US
    and the space. *)
Definition ascii_space (c : ascii) : bool :=
  let n := N_of_ascii c in
  ((9 <=? n) && (n <=? 13) || (28 <=? n) && (n <=? 32))%N.

(** White space for C ([isspace] in the C locale), the one [int] and the
    number parser of pandas skip: TAB, LF, VT, FF, CR and the space. *)
Definition c_space (c : ascii) : bool :=
  let n := N_of_ascii c in ((9 <=? n) && (n <=? 13) || (n =? 32))%N.

(** Trimming a text of bytes of the white space [p]. *)
Fixpoint lstrip_by (p : ascii -> bool) (s : string) : string :=
  match s with
  | EmptyString => EmptyString
  | String c s' => if p c then lstrip_by p s' else s
  end.

Fixpoint rstrip_by (p : ascii -> bool) (s : string) : string :=
  match s with
  | EmptyString => EmptyString
  | String c s' =>
      match rstrip_by p s' with
      | EmptyString => if p c then EmptyString else String c EmptyString
      | r => String c r
      end
  end.

Definition strip_by (p : ascii -> bool) (s : string) : string :=
  rstrip_by p (lstrip_by p s).

(** At least one byte and every byte a digit 0-9. *)
Definition ascii_isdigit (s : string) : bool :=
  match s with
  | EmptyString => false
  | _ => all_chars is_digit_char s
  end.

(** *** Characters *)

Local Open Scope N_scope.

Definition code (c : ascii) : N := N_of_ascii c.

(** The payload of a continuation byte [10xxxxxx]. *)
Definition cont (c : ascii) : option N :=
  if (128 <=? code c) && (code c <? 192) then Some (code c - 128) else None.

(** The characters of a text: the code point of each and the bytes that hold
    it.  A byte that begins no well-formed sequence (no [str] has one) is
    taken alone, under a number above every code point. *)
Fixpoint chars (s : string) : list (N * string) :=
  match s with
  | EmptyString => []
  | String a r =>
      let n := code a in
      let alone := (1114112 + n, String a EmptyString) :: chars r in
      if n <? 128 then (n, String a EmptyString) :: chars r
      else if (194 <=? n) && (n <? 224) then
        match r with
        | String b r1 =>
            match cont b with
            | Some x =>
                ((n - 192) * 64 + x, String a (String b EmptyString)) :: chars r1
            | None => alone
            end
        | EmptyString => alone
        end
      else if (224 <=? n) && (n <? 240) then
        match r with
        | String b (String c r2) =>
            match cont b, cont c with
            | Some x, Some y =>
                let cp := ((n - 224) * 64 + x) * 64 + y in
                if (2048 <=? cp) && negb ((55296 <=? cp) && (cp <? 57344))
                then (cp, String a (String b (String c EmptyString))) :: chars r2
                else alone
            | _, _ => alone
            end
        | _ => alone
        end
      else if (240 <=? n) && (n <? 245) then
        match r with
        | String b (String c (String d r3)) =>
            match cont b, cont c, cont d with
            | Some x, Some y, Some z =>
                let cp := (((n - 240) * 64 + x) * 64 + y) * 64 + z in
                if (65536 <=? cp) && (cp <? 1114112)
                then (cp, String a (String b (String c (String d EmptyString))))
                       :: chars r3
                else alone
            | _, _, _ => alone
            end
        | _ => alone
        end
      else alone
  end.

Definition in_ranges (t : list (N * N)) (n : N) : bool :=
  existsb (fun r => (fst r <=? n) && (n <=? snd r)) t.

(** The white space of [str.strip] and [str.isspace]. *)
Definition space_ranges : list (N * N) :=
  [(9, 13); (28, 32); (133, 133); (160, 160); (5760, 5760); (8192, 8202);
   (8232, 8233); (8239, 8239); (8287, 8287); (12288, 12288)].

Definition space (n : N) : bool := in_ranges space_ranges n.

(** The white space [int] skips: that of C below 127, that of [str.isspace]
    from there on. *)
Definition int_space (n : N) : bool :=
  if n <? 127 then (9 <=? n) && (n <=? 13) || (n =? 32) else space n.

(** The characters [str.isdigit] accepts (Unicode 14): the decimal digits
    of every script, and digits that are not decimal, such as superscripts
    and circled digits. *)
Definition digit_ranges : list (N * N) :=
  [(48, 57); (178, 179); (185, 185); (1632, 1641); (1776, 1785);
   (1984, 1993); (2406, 2415); (2534, 2543); (2662, 2671); (2790, 2799);
   (2918, 2927); (3046, 3055); (3174, 3183); (3302, 3311); (3430, 3439);
   (3558, 3567); (3664, 3673); (3792, 3801); (3872, 3881); (4160, 4169);
   (4240, 4249); (4969, 4977); (6112, 6121); (6160, 6169); (6470, 6479);
   (6608, 6618); (6784, 6793); (6800, 6809); (6992, 7001); (7088, 7097);
   (7232, 7241); (7248, 7257); (8304, 8304); (8308, 8313); (8320, 8329);
   (9312, 9320); (9332, 9340); (9352, 9360); (9450, 9450); (9461, 9469);
   (9471, 9471); (10102, 10110); (10112, 10120); (10122, 10130);
   (42528, 42537); (43216, 43225); (43264, 43273); (43472, 43481);
   (43504, 43513); (43600, 43609); (44016, 44025); (65296, 65305);
   (66720, 66729); (68160, 68163); (68912, 68921); (69216, 69224);
   (69714, 69722); (69734, 69743); (69872, 69881); (69942, 69951);
   (70096, 70105); (70384, 70393); (70736, 70745); (70864, 70873);
   (71248, 71257); (71360, 71369); (71472, 71481); (71904, 71913);
   (72016, 72025); (72784, 72793); (73040, 73049); (73120, 73129);
   (92768, 92777); (92864, 92873); (93008, 93017); (120782, 120831);
   (123200, 123209); (123632, 123641); (125264, 125273); (127232, 127242);
   (130032, 130041)].

Definition digit (n : N) : bool := in_ranges digit_ranges n.

(** The code points of the digits zero; each is followed by its digits one
    to nine.  These are the characters [str.isdecimal] accepts, and the ones
    [int] reads. *)
Definition zeros : list N :=
  [48; 1632; 1776; 1984; 2406; 2534; 2662; 2790; 2918; 3046; 3174; 3302;
   3430; 3558; 3664; 3792; 3872; 4160; 4240; 6112; 6160; 6470; 6608; 6784;
   6800; 6992; 7088; 7232; 7248; 42528; 43216; 43264; 43472; 43504; 43600;
   44016; 65296; 66720; 68912; 69734; 69872; 69942; 70096; 70384; 70736;
   70864; 71248; 71360; 71472; 71904; 72016; 72784; 73040; 73120; 92768;
   92864; 93008; 120782; 120792; 120802; 120812; 120822; 123200; 123632;
   125264; 130032].

Definition decimal (n : N) : option Z :=
  match find (fun z => (z <=? n) && (n <=? z + 9)) zeros with
  | Some z => Some (Z.of_N (n - z))
  | None => None
  end.

Local Close Scope N_scope.

Fixpoint ltrim {A : Type} (p : A -> bool) (l : list A) : list A :=
  match l with
  | [] => []
  | x :: r => if p x then ltrim p r else l
  end.

Fixpoint rtrim {A : Type} (p : A -> bool) (l : list A) : list A :=
  match l with
  | [] => []
  | x :: r =>
      match rtrim p r with
      | [] => if p x then [] else [x]
      | t => x :: t
      end
  end.

Definition trim {A : Type} (p : A -> bool) (l : list A) : list A :=
  rtrim p (ltrim p l).

(** The text of a list of characters. *)
Definition join (l : list (N * string)) : string :=
  fold_right (fun ch s => snd ch ++ s) EmptyString l.

(** [s.strip()] *)
Definition strip (s : string) : string :=
  join (trim (fun ch => space (fst ch)) (chars s)).

(** [s.isdigit()]: at least one character and every character a digit. *)
Definition isdigit (s : string) : bool :=
  match chars s with
  | [] => false
  | l => forallb (fun ch => digit (fst ch)) l
  end.

(** [str(y)] for a Python [int]. *)
Definition str (y : Z) : string := NilZero.string_of_int (Z.to_int y).

(** Value of a run of decimal digits, as [digits_val]. *)
Fixpoint decimals_val (l : list (N * string)) (acc : Z) : option Z :=
  match l with
  | [] => Some acc
  | ch :: r =>
      match decimal (fst ch) with
      | Some d => decimals_val r (10 * acc + d)
      | None => None
      end
  end.

(** [int(s)] for a text without sign and underscores (a year column has
    none): white space around a run of decimal digits; [None] is
    ValueError. *)
Definition int_of_str (s : string) : option Z :=
  match trim (fun ch => int_space (fst ch)) (chars s) with
  | [] => None
  | l => decimals_val l 0
  end.

End Text.

(** ** Data model *)

(** A cell as [read_csv] delivers it: a number (int64 / float64 column), a
    text (object column) or the missing value. *)
Inductive cell : Type :=
| CNum (q : Q)
| CStr (s : string)
| CNaN.

Record DataFrame : Type := mkDataFrame {
  columns : list string;
  data : list (list cell)
}.

Inductive SchemaShape : Type := Wide | Long.

(** ** Schema detector (lines 17-18) *)

Definition is_year_col (c : string) : bool := Text.isdigit (Text.strip c).

Definition year_cols (df_raw : DataFrame) : list string :=
  filter is_year_col (columns df_raw).

Definition is_wide (df_raw : DataFrame) : bool :=
  (0 <? List.length (year_cols df_raw))%nat.

Definition detectShape (df_raw : DataFrame) : SchemaShape :=
  if is_wide df_raw then Wide else Long.

(** ** Numeric coercion: [pd.to_numeric(..., errors="coerce")] *)

Module Numeric.

(** Longest prefix of digits and what follows it. *)
Fixpoint span_digits (s : string) : string * string :=
  match s with
  | EmptyString => (EmptyString, EmptyString)
  | String c s' =>
      if Text.is_digit_char c
      then let '(d, r) := span_digits s' in (String c d, r)
      else (EmptyString, s)
  end.

Definition is_empty (s : string) : bool :=
  match s with EmptyString => true | _ => false end.

Definition pow10 (k : nat) : Z := 10 ^ Z.of_nat k.

(** Optional sign followed by at least one digit. *)
Definition parse_exponent (s : string) : option Z :=
  let '(neg, body) :=
    match s with
    | String "-" r => (true, r)
    | String "+" r => (false, r)
    | _ => (false, s)
    end in
  if Text.ascii_isdigit body
  then option_map (fun e => if neg then - e else e) (Text.digits_val body 0)
  else None.

(** Unsigned decimal literal: digits, optional fraction, optional exponent;
    at least one digit in the mantissa. *)
Definition parse_unsigned (s : string) : option Q :=
  let '(ip, r1) := span_digits s in
  let '(fp, r2) :=
    match r1 with
    | String "." r => span_digits r
    | _ => (EmptyString, r1)
    end in
  if is_empty ip && is_empty fp then None
  else
    match Text.digits_val ip 0, Text.digits_val fp 0 with
    | Some i, Some f =>
        let scale := pow10 (String.length fp) in
        let mant := Qmake (i * scale + f) (Z.to_pos scale) in
        match r2 with
        | EmptyString => Some mant
        | String c r3 =>
            if (Ascii.eqb c "e" || Ascii.eqb c "E")%bool
            then option_map (fun e => (mant * Qpower (10 # 1) e)%Q)
                            (parse_exponent r3)
            else None
        end
    | _, _ => None
    end.

(** Text to number; [None] is NaN.  The parser of pandas works on the bytes
    of the text and skips the white space of C around the literal.  (It also
    reads [inf] and [infinity] as the infinite number; the model has none and
    does not read these texts.) *)
Definition parse (s : string) : option Q :=
  match Text.strip_by Text.c_space s with
  | String "-" r => option_map Qopp (parse_unsigned r)
  | String "+" r => parse_unsigned r
  | t => parse_unsigned t
  end.

(** One cell of [pd.to_numeric(col, errors="coerce")]. *)
Definition to_numeric (c : cell) : option Q :=
  match c with
  | CNum q => Some q
  | CStr s => parse s
  | CNaN => None
  end.

(** Python's [int(x)] on a float: truncation toward zero. *)
Definition py_int (q : Q) : Z := Z.quot (Qnum q) (Z.pos (Qden q)).

End Numeric.

(** ** Frames, selection and messages *)

(** Elementwise [==] of a column with a scalar; NaN equals nothing. *)
Definition cell_eqb (a b : cell) : bool :=
  match a, b with
  | CStr s, CStr t => String.eqb s t
  | CNum p, CNum q => Qeq_bool p q
  | _, _ => false
  end.

Fixpoint col_pos (c : string) (cols : list string) : option nat :=
  match cols with
  | [] => None
  | c' :: r => if String.eqb c c' then Some 0%nat else option_map S (col_pos c r)
  end.

(** [row[c]] for a row laid out along [cols]. *)
Definition cell_at (cols : list string) (row : list cell) (c : string) : cell :=
  match col_pos c cols with
  | Some i => nth i row CNaN
  | None => CNaN
  end.

Definition has_col (cols : list string) (c : string) : bool :=
  existsb (String.eqb c) cols.

Record Selection : Type := mkSelection {
  country : cell;
  indicator : cell;
  yr : Z * Z
}.

Inductive Stop : Type :=
| IOError
| SchemaError (miss : list string) (preview : list string)
| TypeError
| ValueError
| EmptyRangeWarning
| LinAlgError.

Inductive Outcome (A : Type) : Type :=
| Done (a : A)
| Stopped (why : Stop).
Arguments Done {A} a.
Arguments Stopped {A} why.

Definition bind {A B : Type} (o : Outcome A) (k : A -> Outcome B) : Outcome B :=
  match o with
  | Done a => k a
  | Stopped why => Stopped why
  end.

Notation "x <- c1 ;; c2" := (bind c1 (fun x => c2))
  (at level 61, c1 at next level, right associativity).

(** ** Sanity checks (lines 21-32) *)

Definition needed (wide : bool) : list string :=
  if wide then ["Country Name"; "Indicator Name"]
  else ["Country Name"; "Indicator Name"; "Year"; "Value"].

Definition validate (df_raw : DataFrame) : Outcome unit :=
  let miss :=
    filter (fun c => negb (has_col (columns df_raw) c)) (needed (is_wide df_raw)) in
  match miss with
  | [] => Done tt
  | _ => Stopped (SchemaError miss (firstn 30 (columns df_raw)))
  end.

(** ** Selectors (lines 37-42) *)

(** [series.dropna()] *)
Definition dropna_cells (l : list cell) : list cell :=
  filter (fun c => match c with CNaN => false | _ => true end) l.

(** [series.unique()]: every value once, in the order of first appearance
    (the first value, then the distinct values of the rest that differ from
    it). *)
Fixpoint unique (l : list cell) : list cell :=
  match l with
  | [] => []
  | x :: r => x :: filter (fun y => negb (cell_eqb x y)) (unique r)
  end.

(** [a < b] as Python evaluates it on two values of a column: texts compare
    by code point, numbers by value, NaN is below and above no number, and a
    text with a number raises TypeError ([None]). *)
Definition cell_lt (a b : cell) : option bool :=
  match a, b with
  | CStr s, CStr t => Some (String.ltb s t)
  | CNum p, CNum q => Some (negb (Qle_bool q p))
  | CStr _, _ | _, CStr _ => None
  | _, _ => Some false
  end.

(** [sorted(values)]: Python's sort is stable, compares with [<] only and
    ends with the first comparison that raises.  The model sorts by
    insertion, each value going before the first value it is below: a stable
    sort has one result, and no sort can order texts and numbers without
    comparing a text with a number. *)
Fixpoint insert_sorted (x : cell) (done : list cell) : option (list cell) :=
  match done with
  | [] => Some [x]
  | y :: r =>
      match cell_lt x y with
      | Some true => Some (x :: done)
      | Some false => option_map (cons y) (insert_sorted x r)
      | None => None
      end
  end.

Fixpoint sort_into (done : list cell) (l : list cell) : option (list cell) :=
  match l with
  | [] => Some done
  | x :: r =>
      match insert_sorted x done with
      | Some done' => sort_into done' r
      | None => None
      end
  end.

Definition sorted (l : list cell) : option (list cell) := sort_into [] l.

(** The options of a selector, [sorted(df_raw[c].dropna().unique())]; [None]
    when the sort raises. *)
Definition options (df_raw : DataFrame) (c : string) : option (list cell) :=
  sorted (unique (dropna_cells (map (fun row => cell_at (columns df_raw) row c)
                                    (data df_raw)))).

(** Lines 37-42: the lists of the two select boxes; a column that holds
    texts and numbers ends the run with the TypeError of [sorted]. *)
Definition selectors (df_raw : DataFrame) : Outcome (list cell * list cell) :=
  match options df_raw "Country Name" with
  | Some countries =>
      match options df_raw "Indicator Name" with
      | Some indicators => Done (countries, indicators)
      | None => Stopped TypeError
      end
  | None => Stopped TypeError
  end.

(** ** Year-range slider (lines 44-54) *)

Definition Zmin_list (l : list Z) : option Z :=
  match l with [] => None | x :: r => Some (fold_left Z.min r x) end.

Definition Zmax_list (l : list Z) : option Z :=
  match l with [] => None | x :: r => Some (fold_left Z.max r x) end.

Definition Qminb (a b : Q) : Q := if Qle_bool a b then a else b.
Definition Qmaxb (a b : Q) : Q := if Qle_bool a b then b else a.

(** [Series.min()] and [Series.max()]: NaN is skipped; NaN when nothing is left. *)
Definition series_min (l : list (option Q)) : option Q :=
  match flat_map (fun o => match o with Some q => [q] | None => [] end) l with
  | [] => None
  | x :: r => Some (fold_left Qminb r x)
  end.

Definition series_max (l : list (option Q)) : option Q :=
  match flat_map (fun o => match o with Some q => [q] | None => [] end) l with
  | [] => None
  | x :: r => Some (fold_left Qmaxb r x)
  end.

Fixpoint all_some {A : Type} (l : list (option A)) : option (list A) :=
  match l with
  | [] => Some []
  | Some a :: r => option_map (cons a) (all_some r)
  | None :: _ => None
  end.

(** [(y_min, y_max)]; [int] of NaN raises. *)
Definition year_bounds (df_raw : DataFrame) : Outcome (Z * Z) :=
  if is_wide df_raw then
    match all_some (map Text.int_of_str (year_cols df_raw)) with
    | Some ys =>
        match Zmin_list ys, Zmax_list ys with
        | Some lo, Some hi => Done (lo, hi)
        | _, _ => Stopped ValueError
        end
    | None => Stopped ValueError
    end
  else
    let years :=
      map (fun row => Numeric.to_numeric (cell_at (columns df_raw) row "Year"))
          (data df_raw) in
    match series_min years, series_max years with
    | Some lo, Some hi => Done (Numeric.py_int lo, Numeric.py_int hi)
    | _, _ => Stopped ValueError
    end.

Definition default_range (bounds : Z * Z) : Z * Z :=
  (Z.max 1970 (fst bounds), Z.min 2015 (snd bounds)).

(** What [st.slider] can return for the bounds [(y_min, y_max)]. *)
Definition slider_allows (bounds : Z * Z) (yr : Z * Z) : Prop :=
  fst bounds <= fst yr /\ fst yr <= snd yr /\ snd yr <= snd bounds.

(** ** Selection filter (line 57) *)

(** Rows of the raw table with their labels [0, 1, ...]. *)
Definition labelled (df_raw : DataFrame) : list (nat * list cell) :=
  combine (seq 0 (List.length (data df_raw))) (data df_raw).

Definition matches (cols : list string) (sel : Selection) (row : list cell) : bool :=
  cell_eqb (cell_at cols row "Country Name") (country sel)
  && cell_eqb (cell_at cols row "Indicator Name") (indicator sel).

Definition sub (df_raw : DataFrame) (sel : Selection) : list (nat * list cell) :=
  filter (fun r => matches (columns df_raw) sel (snd r)) (labelled df_raw).

(** The numeric reading of a raw row's Year and Value cells. *)
Definition Year_of (cols : list string) (row : list cell) : option Q :=
  Numeric.to_numeric (cell_at cols row "Year").

Definition Value_of (cols : list string) (row : list cell) : option Q :=
  Numeric.to_numeric (cell_at cols row "Value").

Definition Year_within (yr : Z * Z) (row_year : option Q) : bool :=
  match row_year with
  | Some y => Qle_bool (inject_Z (fst yr)) y && Qle_bool y (inject_Z (snd yr))
  | None => false
  end.

(** ** Reshaper (lines 59-80) *)

(** A record of [sub.melt(...)]: fresh labels, the identifier columns, the
    name of the melted column and its cell. *)
Record Melted : Type := mkMelted {
  m_label : nat;
  m_ids : list (string * cell);
  variable : string;
  value : cell
}.

(** A record once Year and Value have been assigned their numeric coercion;
    [None] is NaN. *)
Record Coerced : Type := mkCoerced {
  c_label : nat;
  c_ids : list (string * cell);
  c_Year : option Q;
  c_Value : option Q
}.

(** A record of the final long series: Year is a number, Value may be NaN. *)
Record LongRecord : Type := mkLongRecord {
  label : nat;
  id_vars : list (string * cell);
  Year : Q;
  Value : option Q
}.

(** [range(a, b)] *)
Definition range (a b : Z) : list Z :=
  map (fun i => a + Z.of_nat i) (seq 0 (Z.to_nat (b - a))).

(** [[str(y) for y in range(yr[0], yr[1] + 1) if str(y) in sub.columns]] *)
Definition selected_year_cols (cols : list string) (yr : Z * Z) : list string :=
  map Text.str
      (filter (fun y => has_col cols (Text.str y)) (range (fst yr) (snd yr + 1))).

Definition keep_ids (cols : list string) (ids : list string) (row : list cell)
  : list (string * cell) :=
  map (fun c => (c, cell_at cols row c)) ids.

(** [sub.melt(id_vars, value_vars, var_name="Year", value_name="Value")]:
    one block of rows per melted column, in the order of [value_vars], the
    rows of [sub] in their order inside each block, relabelled from 0.
    (The identifier columns are taken not to be called Year or Value
    themselves; what melt does with such a clash is not modelled.) *)
Definition melt (cols ycols value_vars : list string)
                (rows : list (nat * list cell)) : list Melted :=
  let ids := filter (fun c => negb (has_col ycols c)) cols in
  let body :=
    flat_map (fun v => map (fun r => (keep_ids cols ids (snd r), v,
                                      cell_at cols (snd r) v)) rows)
             value_vars in
  map (fun ir => let '(i, (k, v, x)) := ir in mkMelted i k v x)
      (combine (seq 0 (List.length body)) body).

(** Lines 72-73. *)
Definition coerce_melted (m : Melted) : Coerced :=
  mkCoerced (m_label m) (m_ids m)
            (Numeric.to_numeric (CStr (variable m)))
            (Numeric.to_numeric (value m)).

(** Lines 75-77: the copy of [sub] with Year and Value overwritten. *)
Definition coerce_long (cols : list string) (r : nat * list cell) : Coerced :=
  let others :=
    filter (fun c => negb (String.eqb c "Year" || String.eqb c "Value")) cols in
  mkCoerced (fst r) (keep_ids cols others (snd r))
            (Numeric.to_numeric (cell_at cols (snd r) "Year"))
            (Numeric.to_numeric (cell_at cols (snd r) "Value")).

(** Line 78: [(Year >= yr[0]) & (Year <= yr[1])]; comparisons with NaN are
    false. *)
Definition in_range (yr : Z * Z) (r : Coerced) : bool :=
  match c_Year r with
  | Some y => Qle_bool (inject_Z (fst yr)) y && Qle_bool y (inject_Z (snd yr))
  | None => false
  end.

(** [dropna(subset=["Year"])] *)
Definition dropna_Year (l : list Coerced) : list LongRecord :=
  flat_map (fun r => match c_Year r with
                     | Some y => [mkLongRecord (c_label r) (c_ids r) y (c_Value r)]
                     | None => []
                     end) l.

(** [sort_values] orders the rows by an argsort of the key column.  The
    script passes no [kind], so pandas runs its default, quicksort, of which
    it documents an ascending result and no more (only mergesort and stable
    are documented as stable); which positions equal keys end up in depends
    on the routine numpy selects for the array.  A [SortKind] is any such
    routine: it rearranges the positions [0 .. n-1] so that the keys read in
    that order are non-decreasing.  [quicksort_kind] and [stable_kind] below
    are two of them. *)
Class SortKind : Type := mkSortKind {
  argsort : list Q -> list nat;
  argsort_perm : forall ks, Permutation (seq 0 (List.length ks)) (argsort ks);
  argsort_sorted :
    forall ks, StronglySorted Qle (map (fun i => nth i ks 0%Q) (argsort ks))
}.

(** [frame.take(indexer)] *)
Definition take {A : Type} (l : list A) (ixs : list nat) : list A :=
  flat_map (fun i => match nth_error l i with Some a => [a] | None => [] end) ixs.

(** [sort_values("Year")] *)
Definition sort_values `{SortKind} (l : list LongRecord) : list LongRecord :=
  take l (argsort (map Year l)).

(** The frame right before line 80, or the warning of line 63. *)
Definition coerced_slice (df_raw : DataFrame) (sel : Selection)
  : Outcome (list Coerced) :=
  let cols := columns df_raw in
  if is_wide df_raw then
    match selected_year_cols cols (yr sel) with
    | [] => Stopped EmptyRangeWarning
    | selected =>
        Done (map coerce_melted
                  (melt cols (year_cols df_raw) selected (sub df_raw sel)))
    end
  else
    Done (filter (in_range (yr sel)) (map (coerce_long cols) (sub df_raw sel))).

(** [sub_long] after line 80. *)
Definition reshape `{SortKind} (df_raw : DataFrame) (sel : Selection)
  : Outcome (list LongRecord) :=
  l <- coerced_slice df_raw sel ;;
  Done (sort_values (dropna_Year l)).

(** ** Analytics (lines 85-122) *)

Record Prediction : Type := mkPrediction {
  p_Year : Z;
  Predicted : Q
}.

Inductive ForecastPanel : Type :=
| Chart (pred_df : list Prediction)
| Info (msg : string).

Record YearCount : Type := mkYearCount {
  g_Year : Q;
  total : Z;
  missing : Z;
  missing_rate : Q
}.

Record Dashboard : Type := mkDashboard {
  trend : list LongRecord;
  forecast : ForecastPanel;
  completeness : list YearCount;
  distribution : list Q
}.

Definition has_Value (r : LongRecord) : bool :=
  match Value r with Some _ => true | None => false end.

(** [sub_long.dropna(subset=["Value"])] *)
Definition clean (sub_long : list LongRecord) : list LongRecord :=
  filter has_Value sub_long.

Definition points (cl : list LongRecord) : list (Q * Q) :=
  flat_map (fun r => match Value r with Some v => [(Year r, v)] | None => [] end) cl.

Definition Qsum (l : list Q) : Q := fold_right Qplus 0%Q l.

(** [np.polyfit(x, y, 1)] in exact arithmetic.  numpy solves the least
    squares problem for the columns [x] and [1], each scaled to unit length.
    With two distinct x the solution is that of the normal equations.  With
    one x only, [x0], the system has rank 1 and numpy (after a RankWarning)
    returns the solution of minimum norm of the scaled system, which is
    [(ybar / (2 x0), ybar / 2)].  For [x0 = 0] the column [x] has length 0,
    the scaling divides by it and numpy has no solution ([fit_fails] below);
    the value given here for that case, the horizontal line through the
    mean, is never shown by [script]. *)
Definition polyfit1 (pts : list (Q * Q)) : Q * Q :=
  let n := inject_Z (Z.of_nat (List.length pts)) in
  let sx := Qsum (map fst pts) in
  let sy := Qsum (map snd pts) in
  let sxx := Qsum (map (fun p => fst p * fst p)%Q pts) in
  let sxy := Qsum (map (fun p => fst p * snd p)%Q pts) in
  let det := (n * sxx - sx * sx)%Q in
  if Qeq_bool det 0 then
    let x0 := (sx / n)%Q in
    let ybar := (sy / n)%Q in
    if Qeq_bool x0 0 then (0%Q, ybar) else ((ybar / (2 * x0))%Q, (ybar / 2)%Q)
  else
    let m := ((n * sxy - sx * sy) / det)%Q in
    (m, ((sy - m * sx) / n)%Q).

(** [clean["Year"].max()] on a non-empty frame. *)
Definition Year_max (cl : list LongRecord) : Q :=
  match map Year cl with
  | [] => 0%Q
  | x :: r => fold_left Qmaxb r x
  end.

Definition not_enough : string :=
  "Not enough data points for regression. Choose another indicator or widen the year range.".

(** [np.polyfit] divides the Year column by its length, the square root of
    the sum of its squares.  When every Year of the cleaned series is 0 this
    is 0/0, the scaled column holds NaN, and the solver raises LinAlgError. *)
Definition fit_fails (sub_long : list LongRecord) : bool :=
  let cl := clean sub_long in
  (2 <=? List.length cl)%nat && forallb (fun r => Qeq_bool (Year r) 0) cl.

(** Lines 91-105, where the fit has a solution. *)
Definition forecast_panel (sub_long : list LongRecord) : ForecastPanel :=
  let cl := clean sub_long in
  if (2 <=? List.length cl)%nat then
    let '(m, b) := polyfit1 (points cl) in
    let last := Numeric.py_int (Year_max cl) in
    let future_years := range (last + 1) (last + 11) in
    Chart (map (fun y => mkPrediction y (m * inject_Z y + b)%Q) future_years)
  else Info not_enough.

(** Keys of [groupby("Year")]: the distinct years, ascending. *)
Fixpoint insert_key (k : Q) (ks : list Q) : list Q :=
  match ks with
  | [] => [k]
  | k' :: r =>
      if Qeq_bool k k' then ks
      else if Qle_bool k k' then k :: ks
      else k' :: insert_key k r
  end.

Definition group_keys (sub_long : list LongRecord) : list Q :=
  fold_left (fun ks r => insert_key (Year r) ks) sub_long [].

Definition group (sub_long : list LongRecord) (k : Q) : list LongRecord :=
  filter (fun r => Qeq_bool (Year r) k) sub_long.

Definition isna (r : LongRecord) : bool := negb (has_Value r).

(** Line 112: [np.where(total > 0, missing / total, 0)]. *)
Definition missing_rate_of (total missing : Z) : Q :=
  if 0 <? total then (inject_Z missing / inject_Z total)%Q else 0%Q.

(** Lines 108-112. *)
Definition counts (sub_long : list LongRecord) : list YearCount :=
  map (fun k =>
         let g := group sub_long k in
         let total := Z.of_nat (List.length g) in
         let missing := Z.of_nat (List.length (filter isna g)) in
         mkYearCount k total missing (missing_rate_of total missing))
      (group_keys sub_long).

(** The four panels. *)
Definition analytics (sub_long : list LongRecord) : Dashboard :=
  mkDashboard sub_long
              (forecast_panel sub_long)
              (counts sub_long)
              (map snd (points (clean sub_long))).

(** ** One run of the script *)

Definition script `{SortKind} (df_raw : DataFrame) (sel : Selection)
  : Outcome Dashboard :=
  _ <- validate df_raw ;;
  _ <- selectors df_raw ;;
  _ <- year_bounds df_raw ;;
  sub_long <- reshape df_raw sel ;;
  if fit_fails sub_long then Stopped LinAlgError else Done (analytics sub_long).

(** * The script on objects

    The frames of lines 57-80 as Python has them: objects in a store, named
    by references.  Indexing, [copy], [melt], [dropna] and [sort_values]
    return new objects; [frame[col] = values] changes the object it is
    applied to. *)

(** A frame object: column names, and rows with their labels; a numeric
    column holds [CNum] and [CNaN] cells. *)
Record Frame : Type := mkFrame {
  fcols : list string;
  frows : list (nat * list cell)
}.

Definition frame_of (df_raw : DataFrame) : Frame :=
  mkFrame (columns df_raw) (labelled df_raw).

(** The table an object of the raw shape holds. *)
Definition table_of (f : Frame) : DataFrame :=
  mkDataFrame (fcols f) (map snd (frows f)).

Definition num_cell (o : option Q) : cell :=
  match o with Some q => CNum q | None => CNaN end.

Definition cell_num (c : cell) : option Q :=
  match c with CNum q => Some q | _ => None end.

Fixpoint set_nth (i : nat) (x : cell) (row : list cell) : list cell :=
  match row, i with
  | [], _ => []
  | _ :: r, O => x :: r
  | y :: r, S i' => y :: set_nth i' x r
  end.

(** [frame[c]] *)
Definition column (f : Frame) (c : string) : list cell :=
  map (fun r => cell_at (fcols f) (snd r) c) (frows f).

(** The frame after [frame[c] = values], for a column the frame has. *)
Definition with_column (f : Frame) (c : string) (values : list cell) : Frame :=
  match col_pos c (fcols f) with
  | Some i =>
      mkFrame (fcols f)
              (map (fun rv => (fst (fst rv), set_nth i (snd rv) (snd (fst rv))))
                   (combine (frows f) values))
  | None => f
  end.

(** [pd.to_numeric(frame[c], errors="coerce")] *)
Definition to_numeric_column (f : Frame) (c : string) : list cell :=
  map (fun x => num_cell (Numeric.to_numeric x)) (column f c).

(** [frame[mask]] for a mask computed row by row. *)
Definition select (f : Frame) (keep : list cell -> bool) : Frame :=
  mkFrame (fcols f) (filter (fun r => keep (snd r)) (frows f)).

Definition Year_number (cols : list string) (row : list cell) : option Q :=
  cell_num (cell_at cols row "Year").

(** [frame.melt(...)] as a frame: the identifier columns, then Year and
    Value. *)
Definition melt_frame (ycols value_vars : list string) (f : Frame) : Frame :=
  mkFrame (filter (fun c => negb (has_col ycols c)) (fcols f) ++ ["Year"; "Value"])%list
          (map (fun m => (m_label m,
                          (map snd (m_ids m) ++ [CStr (variable m); value m])%list))
               (melt (fcols f) ycols value_vars (frows f))).

(** [frame.dropna(subset=["Year"])] *)
Definition dropna_frame (f : Frame) : Frame :=
  select f (fun row => match Year_number (fcols f) row with Some _ => true | None => false end).

(** [frame.sort_values("Year")] *)
Definition sort_frame `{SortKind} (f : Frame) : Frame :=
  mkFrame (fcols f)
          (take (frows f)
                (argsort (map (fun r => match Year_number (fcols f) (snd r) with
                                        | Some y => y
                                        | None => 0%Q
                                        end) (frows f)))).

(** The long series a frame with numeric Year and Value columns holds. *)
Definition coerced_of_row (cols : list string) (r : nat * list cell) : Coerced :=
  let others :=
    filter (fun c => negb (String.eqb c "Year" || String.eqb c "Value")) cols in
  mkCoerced (fst r) (keep_ids cols others (snd r))
            (cell_num (cell_at cols (snd r) "Year"))
            (cell_num (cell_at cols (snd r) "Value")).

Definition series_of (f : Frame) : list LongRecord :=
  dropna_Year (map (coerced_of_row (fcols f)) (frows f)).

(** ** The store *)

Definition Store : Type := list Frame.

Definition empty_frame : Frame := mkFrame [] [].

Definition deref (s : Store) (r : nat) : Frame := nth r s empty_frame.

Fixpoint assign (s : Store) (r : nat) (f : Frame) : Store :=
  match s, r with
  | [], _ => []
  | _ :: t, O => f :: t
  | g :: t, S r' => g :: assign t r' f
  end.

(** A command: it reads and changes the store, and returns a value or the
    reason why the run stops. *)
Definition Cmd (A : Type) : Type := Store -> Outcome A * Store.

Definition ret {A : Type} (a : A) : Cmd A := fun s => (Done a, s).

Definition stop {A : Type} (why : Stop) : Cmd A := fun s => (Stopped why, s).

Definition then_ {A B : Type} (c : Cmd A) (k : A -> Cmd B) : Cmd B :=
  fun s => match c s with
           | (Done a, s') => k a s'
           | (Stopped why, s') => (Stopped why, s')
           end.

Notation "x <~ c1 ;; c2" := (then_ c1 (fun x => c2))
  (at level 61, c1 at next level, right associativity).

(** A new object. *)
Definition new (f : Frame) : Cmd nat := fun s => (Done (List.length s), (s ++ [f])%list).

Definition get (r : nat) : Cmd Frame := fun s => (Done (deref s r), s).

(** [r.copy()] *)
Definition copy (r : nat) : Cmd nat := f <~ get r ;; new f.

(** [r[c] = pd.to_numeric(r[c], errors="coerce")]: the object [r] changes. *)
Definition setitem_to_numeric (r : nat) (c : string) : Cmd unit :=
  fun s => let f := deref s r in
           (Done tt, assign s r (with_column f c (to_numeric_column f c))).

(** Lines 57-80 for the object [df_raw]; the result is the reference of
    [sub_long]. *)
Definition lines_57_80 `{SortKind} (wide : bool) (ycols : list string)
                       (sel : Selection) (df_raw : nat) : Cmd nat :=
  raw <~ get df_raw;;
  masked <~ new (select raw (matches (fcols raw) sel));;
  sub <~ copy masked;;
  sub_long <~ (if wide then
       f <~ get sub;;
       match selected_year_cols (fcols f) (yr sel) with
       | [] => stop EmptyRangeWarning
       | selected =>
           sub_long <~ new (melt_frame ycols selected f);;
           _ <~ setitem_to_numeric sub_long "Year";;
           _ <~ setitem_to_numeric sub_long "Value";;
           ret sub_long
       end
     else
       sub_long <~ copy sub;;
       _ <~ setitem_to_numeric sub_long "Year";;
       _ <~ setitem_to_numeric sub_long "Value";;
       f <~ get sub_long;;
       new (select f (fun row => Year_within (yr sel) (Year_number (fcols f) row))));;
  f <~ get sub_long;;
  dropped <~ new (dropna_frame f);;
  g <~ get dropped;;
  new (sort_frame g).

(** The frame [sub_long] ends up as, computed from the frame of [df_raw]. *)
Definition reshape_frame `{SortKind} (wide : bool) (ycols : list string)
                         (sel : Selection) (raw : Frame) : Outcome Frame :=
  let sub := select raw (matches (fcols raw) sel) in
  coerced <-
    (if wide then
       match selected_year_cols (fcols sub) (yr sel) with
       | [] => Stopped EmptyRangeWarning
       | selected =>
           let m0 := melt_frame ycols selected sub in
           let m1 := with_column m0 "Year" (to_numeric_column m0 "Year") in
           Done (with_column m1 "Value" (to_numeric_column m1 "Value"))
       end
     else
       let f1 := with_column sub "Year" (to_numeric_column sub "Year") in
       let f2 := with_column f1 "Value" (to_numeric_column f1 "Value") in
       Done (select f2 (fun row => Year_within (yr sel) (Year_number (fcols f2) row)))) ;;
  Done (sort_frame (dropna_frame coerced)).

(** ** The session around the script

    What survives from one run to the next: the objects, and the memo of
    [load_raw], which maps a path to the object it returned for it.  (The
    memo hands out that very object; Streamlit's [cache_data] would hand out
    a copy of it, and nothing below relies on one.)  [read_csv] is the file
    system as the loader sees it. *)

Record Session : Type := mkSession {
  store : Store;
  cache : list (string * nat)
}.

Fixpoint lookup (path : string) (m : list (string * nat)) : option nat :=
  match m with
  | [] => None
  | (p, r) :: t => if String.eqb path p then Some r else lookup path t
  end.

(** [@st.cache_data def load_raw(path)] *)
Definition load_raw (read_csv : string -> option DataFrame) (path : string)
                    (s : Session) : Outcome nat * Session :=
  match lookup path (cache s) with
  | Some r => (Done r, s)
  | None =>
      match read_csv path with
      | Some df =>
          (Done (List.length (store s)),
           mkSession (store s ++ [frame_of df])%list
                     ((path, List.length (store s)) :: cache s))
      | None => (Stopped IOError, s)
      end
  end.

(** One rerun of the script up to line 80: the series of [sub_long], or why
    the run stopped, and the session it leaves. *)
Definition rerun `{SortKind} (read_csv : string -> option DataFrame)
                 (sel : Selection) (s : Session)
  : Outcome (list LongRecord) * Session :=
  match load_raw read_csv "EdStatsData.csv" s with
  | (Done df_raw, s1) =>
      let raw := table_of (deref (store s1) df_raw) in
      match validate raw with
      | Done _ =>
          match lines_57_80 (is_wide raw) (year_cols raw) sel df_raw (store s1) with
          | (Done sub_long, st) =>
              (Done (series_of (deref st sub_long)), mkSession st (cache s1))
          | (Stopped why, st) => (Stopped why, mkSession st (cache s1))
          end
      | Stopped why => (Stopped why, s1)
      end
  | (Stopped why, s1) => (Stopped why, s1)
  end.

(** Every memoised reference names an object of the store. *)
Definition cache_valid (s : Session) : Prop :=
  forall path r, lookup path (cache s) = Some r -> (r < List.length (store s))%nat.

Definition fresh : Session := mkSession [] [].

(** * Sorting routines *)

(** Insertion of position [i] into an already ordered list of positions:
    [i] goes in front of the first position whose key it is [before]. *)
Fixpoint insert_ix (before : Q -> Q -> bool) (ks : list Q) (i : nat)
                   (sorted : list nat) : list nat :=
  match sorted with
  | [] => [i]
  | j :: r =>
      if before (nth i ks 0%Q) (nth j ks 0%Q) then i :: sorted
      else j :: insert_ix before ks i r
  end.

Definition insertion_argsort (before : Q -> Q -> bool) (ks : list Q) : list nat :=
  fold_right (insert_ix before ks) [] (seq 0 (List.length ks)).

(** ** numpy's quicksort

    [argsort(kind="quicksort")] on a float64 or int64 array is numpy's
    introsort over an array of positions ([aquicksort] in
    [npysort/quicksort.cpp], the portable version): median-of-three
    partitioning while a range holds more than 17 positions, insertion sort
    below that, and an escape to heap sort once the partitioning depth
    exceeds twice the bit length of the array size. *)

Module NumpySort.

Definition get (a : list nat) (i : nat) : nat := nth i a 0%nat.

Fixpoint set (a : list nat) (i x : nat) : list nat :=
  match a, i with
  | [], _ => []
  | _ :: r, O => x :: r
  | y :: r, S i' => y :: set r i' x
  end.

(** [INTP_SWAP(a[i], a[j])] *)
Definition swap (a : list nat) (i j : nat) : list nat :=
  set (set a i (get a j)) j (get a i).

(** [Tag::less] on numbers. *)
Definition less (x y : Q) : bool := negb (Qle_bool y x).

Section Keys.
Variable v : list Q.

(** [v[a[p]]] *)
Definition key (a : list nat) (p : nat) : Q := nth (get a p) v 0%Q.

(** [do { ++pi; } while (less(v[*pi], vp));] *)
Fixpoint scan_up (fuel : nat) (a : list nat) (vp : Q) (pi : nat) : nat :=
  match fuel with
  | O => pi
  | S f => if less (key a (S pi)) vp then scan_up f a vp (S pi) else S pi
  end.

(** [do { --pj; } while (less(vp, v[*pj]));] *)
Fixpoint scan_down (fuel : nat) (a : list nat) (vp : Q) (pj : nat) : nat :=
  match fuel with
  | O => pj
  | S f => if less vp (key a (pred pj)) then scan_down f a vp (pred pj) else pred pj
  end.

(** The [for (;;)] loop of the partition: both scans, then either the end
    ([pi >= pj]) or an exchange and another round. *)
Fixpoint exchange (fuel : nat) (a : list nat) (vp : Q) (pi pj : nat) : list nat * nat :=
  match fuel with
  | O => (a, pi)
  | S f =>
      let pi' := scan_up (List.length a) a vp pi in
      let pj' := scan_down (List.length a) a vp pj in
      if (pj' <=? pi')%nat then (a, pi')
      else exchange f (swap a pi' pj') vp pi' pj'
  end.

(** One partition of the positions [pl .. pr]: the median of three goes to
    [pr - 1] as the pivot, and the result is the array with the pivot's final
    place. *)
Definition partition (a : list nat) (pl pr : nat) : list nat * nat :=
  let pm := (pl + (pr - pl) / 2)%nat in
  let a := if less (key a pm) (key a pl) then swap a pm pl else a in
  let a := if less (key a pr) (key a pm) then swap a pr pm else a in
  let a := if less (key a pm) (key a pl) then swap a pm pl else a in
  let vp := key a pm in
  let a := swap a pm (pr - 1) in
  let '(a, pi) := exchange (List.length a) a vp pl (pr - 1) in
  (swap a pi (pr - 1), pi).

(** [while (pj > pl && less(vp, v[*pk])) { *pj-- = *pk--; } *pj = vi;] *)
Fixpoint shift (fuel : nat) (a : list nat) (vp : Q) (vi pl pj : nat) : list nat :=
  match fuel with
  | O => set a pj vi
  | S f =>
      if (pl <? pj)%nat && less vp (key a (pj - 1))
      then shift f (set a pj (get a (pj - 1))) vp vi pl (pj - 1)
      else set a pj vi
  end.

(** The insertion sort of the positions [pl .. pr]. *)
Definition insertion (a : list nat) (pl pr : nat) : list nat :=
  fold_left (fun a pi => let vi := get a pi in
                         shift (List.length a) a (nth vi v 0%Q) vi pl pi)
            (seq (pl + 1) (pr - pl)) a.

(** The range [pl .. pr] with [SMALL_QUICKSORT = 16]: partition, go on with
    the smaller side, and take the larger side from the stack afterwards,
    where its depth is tested.  The heap sort behind that test is not
    ported: [None] stands for the ranges numpy would heap-sort. *)
Fixpoint quick (fuel : nat) (cdepth : Z) (a : list nat) (pl pr : nat)
  : option (list nat) :=
  if (16 <? pr - pl)%nat then
    match fuel with
    | O => None
    | S f =>
        let '(a, pi) := partition a pl pr in
        let d := cdepth - 1 in
        if (pi - pl <? pr - pi)%nat then
          match quick f d a pl (pi - 1) with
          | Some a => if d <? 0 then None else quick f d a (pi + 1) pr
          | None => None
          end
        else
          match quick f d a (pi + 1) pr with
          | Some a => if d <? 0 then None else quick f d a pl (pi - 1)
          | None => None
          end
    end
  else Some (insertion a pl pr).

Definition aquicksort : option (list nat) :=
  let num := List.length v in
  quick num (2 * Z.log2 (Z.of_nat num)) (seq 0 num) 0 (num - 1).

End Keys.
End NumpySort.

Fixpoint ascending (l : list Q) : bool :=
  match l with
  | a :: (b :: _) as t => Qle_bool a b && ascending t
  | _ => true
  end.

(** [r] lists every position of [ks] once, in non-decreasing key order. *)
Definition argsort_ok (ks : list Q) (r : list nat) : bool :=
  (List.length r =? List.length ks)%nat
  && forallb (fun i => existsb (Nat.eqb i) r) (seq 0 (List.length ks))
  && ascending (map (fun i => nth i ks 0%Q) r).

(** The default [kind]: the ported introsort, its result checked; the
    stable routine stands in where the port gives no checked result. *)
Definition quicksort_argsort (ks : list Q) : list nat :=
  match NumpySort.aquicksort ks with
  | Some r => if argsort_ok ks r then r else insertion_argsort Qle_bool ks
  | None => insertion_argsort Qle_bool ks
  end.

(** * The spec's words *)

(** A decimal digit, and a text that consists of decimal digits (of at least
    one, that is). *)
Definition decimal_digit (c : ascii) : Prop :=
  In c (list_ascii_of_string "0123456789").

Definition all_decimal_digits (s : string) : Prop :=
  s <> EmptyString /\ forall c, In c (list_ascii_of_string s) -> decimal_digit c.

(** The spec's wording of trimming: [t] is [s] without a leading and a
    trailing run of white space, and [t] neither starts nor ends with one. *)
Definition starts_with_space (t : string) : Prop :=
  exists c r, t = String c r /\ Text.ascii_space c = true.

Definition ends_with_space (t : string) : Prop :=
  exists r c, t = r ++ String c EmptyString /\ Text.ascii_space c = true.

Definition trimmed_of (s t : string) : Prop :=
  (exists l r, s = l ++ t ++ r
     /\ Text.all_chars Text.ascii_space l = true
     /\ Text.all_chars Text.ascii_space r = true)
  /\ ~ starts_with_space t /\ ~ ends_with_space t.

(** The spec's wording of a year column: trimmed, the name is a run of
    decimal digits. *)
Definition year_column_name (c : string) : Prop :=
  exists t, trimmed_of c t /\ all_decimal_digits t.

(** The spec's wording of the columns to pivot: year columns of the table
    whose integer value lies in the range. *)
Definition year_col_in_range (df_raw : DataFrame) (yr : Z * Z) (c : string) : Prop :=
  In c (year_cols df_raw)
  /\ exists y, Text.int_of_str c = Some y /\ fst yr <= y <= snd yr.

(** The spec's wording of the completeness table: the records of a Year,
    and those among them without a Value, counted one by one. *)
Fixpoint count_where (p : LongRecord -> bool) (l : list LongRecord) : Z :=
  match l with
  | [] => 0
  | r :: l' => if p r then 1 + count_where p l' else count_where p l'
  end.

Definition of_Year (y : Q) (r : LongRecord) : bool := Qeq_bool (Year r) y.

Definition without_Value (r : LongRecord) : bool :=
  match Value r with None => true | Some _ => false end.

(** One row for each Year of the series, in ascending order, with the number
    of records of that Year, the number of those without a Value, and the
    quotient of the two. *)
Definition completeness_of (sub_long : list LongRecord) (table : list YearCount)
  : Prop :=
  StronglySorted Qlt (map g_Year table)
  /\ (forall r, In r sub_long -> exists g, In g table /\ (g_Year g == Year r)%Q)
  /\ (forall g, In g table ->
        (exists r, In r sub_long /\ (Year r == g_Year g)%Q)
        /\ total g = count_where (of_Year (g_Year g)) sub_long
        /\ missing g
           = count_where (fun r => of_Year (g_Year g) r && without_Value r) sub_long
        /\ (missing_rate g == inject_Z (missing g) / inject_Z (total g))%Q).


(** The spec's wording: ascending (non-decreasing) in Year. *)
Definition sorted_by_Year (l : list LongRecord) : Prop :=
  StronglySorted Qle (map Year l).

(** The spec's wording: the rows of each Year are in the order they had
    before the sort. *)
Definition keeps_tie_order (before after : list LongRecord) : Prop :=
  forall k, group after k = group before k.

Local Open Scope Q_scope.

(** Sum of squared vertical residuals of the line [y = m x + b]. *)
Definition sse (pts : list (Q * Q)) (m b : Q) : Q :=
  Qsum (map (fun p => (snd p - (m * fst p + b)) * (snd p - (m * fst p + b))) pts).

(** The spec's wording of the fit: no line has a smaller sum of squares. *)
Definition least_squares_fit (pts : list (Q * Q)) (m b : Q) : Prop :=
  forall m' b', sse pts m b <= sse pts m' b'.

(** The sums the normal equations are made of. *)
Definition npts (pts : list (Q * Q)) : Q := inject_Z (Z.of_nat (List.length pts)).
Definition Sx (pts : list (Q * Q)) : Q := Qsum (map fst pts).
Definition Sy (pts : list (Q * Q)) : Q := Qsum (map snd pts).
Definition Sxx (pts : list (Q * Q)) : Q := Qsum (map (fun p => fst p * fst p) pts).
Definition Sxy (pts : list (Q * Q)) : Q := Qsum (map (fun p => fst p * snd p) pts).
Definition Syy (pts : list (Q * Q)) : Q := Qsum (map (fun p => snd p * snd p) pts).

Local Open Scope Z_scope.

(** * Sample tables *)

Definition long_cols : list string :=
  ["Country Name"; "Indicator Name"; "Year"; "Value"].

Definition long_row (c i : string) (y v : cell) : list cell :=
  [CStr c; CStr i; y; v].

Definition pick (c i : string) (lo hi : Z) : Selection :=
  mkSelection (CStr c) (CStr i) (lo, hi).

(** Two runs of the years 2000 to 2009 for one country and indicator, for
    instance the figures of two sources, one after the other. *)
Definition two_series_table : DataFrame :=
  mkDataFrame long_cols
    (map (fun i => long_row "A" "I"
                     (CNum (inject_Z (2000 + Z.of_nat (i mod 10))))
                     (CNum (inject_Z (Z.of_nat i))))
         (seq 0 20)).

(** The scenario table: three rows of one country and indicator whose Year
    cells are the texts 2000, abc and 2002. *)
Definition year_abc_table (c i : string) (v1 v2 v3 : cell) : DataFrame :=
  mkDataFrame long_cols
    [long_row c i (CStr "2000") v1;
     long_row c i (CStr "abc") v2;
     long_row c i (CStr "2002") v3].

(** Years 1999 and 2000.5 for the selected pair, 2005 for another country. *)
Definition half_year_table : DataFrame :=
  mkDataFrame long_cols
    [long_row "A" "I" (CNum (1999 # 1)) (CNum (1 # 1));
     long_row "A" "I" (CNum (20005 # 10)) (CNum (2 # 1));
     long_row "B" "I" (CNum (2005 # 1)) (CNum (3 # 1))].

(** One row with a Value for the selected pair. *)
Definition one_point_table : DataFrame :=
  mkDataFrame long_cols
    [long_row "A" "I" (CNum (2000 # 1)) (CNum (7 # 1));
     long_row "A" "I" (CNum (2001 # 1)) CNaN].

(** The spec scenario: one row, years 2000 to 2002, the middle cell empty. *)
Definition wide_cols : list string :=
  ["Country Name"; "Indicator Name"; "2000"; "2001"; "2002"].

Definition wide_table : DataFrame :=
  mkDataFrame wide_cols
    [[CStr "A"; CStr "I"; CNum (10 # 1); CNaN; CNum (30 # 1)]].

(** A header written with a blank after the comma: [..., 2000, 2001]. *)
Definition padded_table : DataFrame :=
  mkDataFrame ["Country Name"; "Indicator Name"; "2000"; " 2001"]
    [[CStr "A"; CStr "I"; CNum (10 # 1); CNum (20 # 1)]].

(** The superscript two, U+00B2, in its two bytes. *)
Definition superscript_two : string := String "194" (String "178" EmptyString).

(** A table with one column besides the two keys, named by that character. *)
Definition superscript_table : DataFrame :=
  mkDataFrame ["Country Name"; "Indicator Name"; superscript_two]
    [[CStr "A"; CStr "I"; CNum (10 # 1)]].

Definition two_points : list LongRecord :=
  [mkLongRecord 0 [] (2000 # 1) (Some (10 # 1));
   mkLongRecord 1 [] (2001 # 1) None;
   mkLongRecord 2 [] (2002 # 1) (Some (30 # 1))].

(** Eleven points on the line [y = 2 x + 3], for the years 2000 to 2010. *)
Definition on_line : list LongRecord :=
  map (fun i => mkLongRecord i [] (inject_Z (2000 + Z.of_nat i))
                             (Some (inject_Z (2 * (2000 + Z.of_nat i) + 3))))
      (seq 0 11).

(** * Auxiliary definitions of the proofs *)

Fixpoint uint_val (d : Decimal.uint) (acc : Z) : Z :=
  match d with
  | Decimal.Nil => acc
  | Decimal.D0 l => uint_val l (10 * acc)
  | Decimal.D1 l => uint_val l (10 * acc + 1)
  | Decimal.D2 l => uint_val l (10 * acc + 2)
  | Decimal.D3 l => uint_val l (10 * acc + 3)
  | Decimal.D4 l => uint_val l (10 * acc + 4)
  | Decimal.D5 l => uint_val l (10 * acc + 5)
  | Decimal.D6 l => uint_val l (10 * acc + 6)
  | Decimal.D7 l => uint_val l (10 * acc + 7)
  | Decimal.D8 l => uint_val l (10 * acc + 8)
  | Decimal.D9 l => uint_val l (10 * acc + 9)
  end.

(** [before] orders the keys it separates. *)
Definition orders (before : Q -> Q -> bool) : Prop :=
  forall a b, (before a b = true -> (a <= b)%Q) /\ (before a b = false -> (b <= a)%Q).

Definition Year_known (r : Coerced) : bool :=
  match c_Year r with Some _ => true | None => false end.

Definition coerce_in_place (cols : list string) (c : string) (r : nat * list cell)
  : nat * list cell :=
  match col_pos c cols with
  | Some i =>
      (fst r, set_nth i (num_cell (Numeric.to_numeric (cell_at cols (snd r) c))) (snd r))
  | None => r
  end.

Definition force (r : Coerced) : LongRecord :=
  mkLongRecord (c_label r) (c_ids r)
               (match c_Year r with Some y => y | None => 0%Q end) (c_Value r).

(** Sum of a list of counts. *)
Definition Zsum (l : list Z) : Z := fold_right Z.add 0 l.

(** A Wide table has no column called Year or Value ([melt] names its two
    new columns so, and refuses or duplicates a name that is taken). *)
Definition no_clash (df : DataFrame) : bool :=
  negb (is_wide df) || negb (has_col (columns df) "Year" || has_col (columns df) "Value").

(** One value of a selector comes strictly before another. *)
Definition comes_before (a b : cell) : Prop := cell_lt a b = Some true.

(** The two kinds of values a column can hold besides the missing one. *)
Definition is_text (c : cell) : Prop := exists s, c = CStr s.
Definition is_number (c : cell) : Prop := exists q, c = CNum q.

(** A text of characters below 128, each held in one byte. *)
Definition is_ascii (s : string) : bool :=
  Text.all_chars (fun a => (Text.code a <? 128)%N) s.

(** A name of characters below 128 other than the separators FS, GS, RS and
    US, which [str.strip] removes and [int] does not skip. *)
Definition plain_name (c : string) : bool :=
  Text.all_chars
    (fun a => ((Text.code a <? 28) || (31 <? Text.code a) && (Text.code a <? 128))%N) c.

(** The name 2000 after the separator FS. *)
Definition separator_2000 : string := String "028" "2000".

(** The characters of such a text. *)
Definition single (a : ascii) : N * string := (Text.code a, String a EmptyString).

Definition singles (s : string) : list (N * string) :=
  map single (list_ascii_of_string s).

(** * Text *)

Lemma is_digit_char_decimal (c : ascii) :
  Text.is_digit_char c = true <-> decimal_digit c.
Proof.
  unfold decimal_digit. split.
  - destruct c as [[] [] [] [] [] [] [] []]; intros H;
      try discriminate H; simpl; tauto.
  - simpl. intros H.
    repeat (destruct H as [H | H]; [subst c; reflexivity |]).
    destruct H.
Qed.

Lemma all_chars_forall (p : ascii -> bool) (s : string) :
  Text.all_chars p s = true <->
  forall c, In c (list_ascii_of_string s) -> p c = true.
Proof.
  induction s as [| a s IH]; simpl.
  - split; [intros _ c [] | reflexivity].
  - rewrite andb_true_iff, IH. split.
    + intros [Ha Hs] c [<- | Hc]; auto.
    + intros H. split; [apply H; now left | intros c Hc; apply H; now right].
Qed.

Lemma isdigit_all_decimal_digits (s : string) :
  Text.ascii_isdigit s = true <-> all_decimal_digits s.
Proof.
  unfold all_decimal_digits. destruct s as [| a s].
  - simpl. split; [discriminate | intros [H _]; now elim H].
  - unfold Text.ascii_isdigit. rewrite all_chars_forall. split.
    + intros H. split; [discriminate |].
      intros c Hc. apply is_digit_char_decimal. now apply H.
    + intros [_ H] c Hc. apply is_digit_char_decimal. now apply H.
Qed.

Lemma isdigit_all_chars (s : string) :
  Text.ascii_isdigit s = true -> Text.all_chars Text.is_digit_char s = true.
Proof. destruct s; [discriminate | trivial]. Qed.

Lemma year_cols_In (df : DataFrame) (c : string) :
  In c (year_cols df) <-> In c (columns df) /\ is_year_col c = true.
Proof. unfold year_cols. apply filter_In. Qed.

Lemma is_wide_exists (df : DataFrame) :
  is_wide df = true <-> exists c, In c (year_cols df).
Proof.
  unfold is_wide. destruct (year_cols df) as [| c l]; simpl.
  - split; [discriminate | intros [c []]].
  - split; [intros _; exists c; now left | reflexivity].
Qed.

Lemma digit_not_space (c : ascii) :
  Text.is_digit_char c = true -> Text.ascii_space c = false.
Proof.
  destruct c as [[] [] [] [] [] [] [] []]; intros H;
    try discriminate H; reflexivity.
Qed.

Lemma lstrip_no_space {p : ascii -> bool} (c : ascii) (s : string) :
  p c = false -> Text.lstrip_by p (String c s) = String c s.
Proof. intros H. simpl. now rewrite H. Qed.

Lemma rstrip_no_space {p : ascii -> bool} (s : string) :
  Text.all_chars (fun c => negb (p c)) s = true -> Text.rstrip_by p s = s.
Proof.
  induction s as [| c s IH]; simpl; [reflexivity |].
  rewrite andb_true_iff, negb_true_iff. intros [Hc Hs].
  rewrite (IH Hs). destruct s; [now rewrite Hc | reflexivity].
Qed.

Lemma all_chars_impl (p q : ascii -> bool) (s : string) :
  (forall c, p c = true -> q c = true) ->
  Text.all_chars p s = true -> Text.all_chars q s = true.
Proof.
  intros Hpq. induction s as [| c s IH]; simpl; [reflexivity |].
  rewrite !andb_true_iff. intros [Hc Hs]. auto.
Qed.

Lemma strip_no_space {p : ascii -> bool} (s : string) :
  Text.all_chars (fun c => negb (p c)) s = true -> Text.strip_by p s = s.
Proof.
  intros H. unfold Text.strip_by.
  assert (Hl : Text.lstrip_by p s = s).
  { destruct s as [| c s]; [reflexivity |].
    simpl in H. apply andb_true_iff in H as [Hc _].
    apply lstrip_no_space. now apply negb_true_iff. }
  rewrite Hl. now apply rstrip_no_space.
Qed.

Lemma strip_digits (s : string) :
  Text.all_chars Text.is_digit_char s = true -> Text.strip_by Text.ascii_space s = s.
Proof.
  intros H. apply strip_no_space. revert H. apply all_chars_impl.
  intros c Hc. now rewrite (digit_not_space c Hc).
Qed.

Lemma digit_not_c_space (c : ascii) :
  Text.is_digit_char c = true -> Text.c_space c = false.
Proof.
  destruct c as [[] [] [] [] [] [] [] []]; intros H;
    try discriminate H; reflexivity.
Qed.

Lemma c_strip_digits (s : string) :
  Text.all_chars Text.is_digit_char s = true -> Text.strip_by Text.c_space s = s.
Proof.
  intros H. apply strip_no_space. revert H. apply all_chars_impl.
  intros c Hc. now rewrite (digit_not_c_space c Hc).
Qed.

(** ** [strip] against the spec's wording of trimming *)

Lemma lstrip_spaces (l x : string) :
  Text.all_chars Text.ascii_space l = true -> Text.lstrip_by Text.ascii_space (l ++ x) = Text.lstrip_by Text.ascii_space x.
Proof.
  induction l as [| c l IH]; simpl; [reflexivity |].
  rewrite andb_true_iff. intros [Hc Hl]. rewrite Hc. now apply IH.
Qed.

Lemma lstrip_all_spaces (r : string) :
  Text.all_chars Text.ascii_space r = true -> Text.lstrip_by Text.ascii_space r = "".
Proof.
  induction r as [| c r IH]; simpl; [reflexivity |].
  rewrite andb_true_iff. intros [Hc Hr]. rewrite Hc. now apply IH.
Qed.

Lemma rstrip_all_spaces (r : string) :
  Text.all_chars Text.ascii_space r = true -> Text.rstrip_by Text.ascii_space r = "".
Proof.
  induction r as [| c r IH]; simpl; [reflexivity |].
  rewrite andb_true_iff. intros [Hc Hr]. now rewrite (IH Hr), Hc.
Qed.

Lemma lstrip_split (s : string) :
  exists l, s = l ++ Text.lstrip_by Text.ascii_space s
            /\ Text.all_chars Text.ascii_space l = true
            /\ ~ starts_with_space (Text.lstrip_by Text.ascii_space s).
Proof.
  induction s as [| c s [l [Hs [Hl Hn]]]].
  - exists "". repeat split. intros [c [r [H _]]]. discriminate H.
  - simpl. destruct (Text.ascii_space c) eqn:E.
    + exists (String c l). simpl. rewrite E, Hl. repeat split; [now f_equal | exact Hn].
    + exists "". repeat split. intros [c' [r [H Hc]]]. inversion H; subst. congruence.
Qed.

Lemma ends_with_space_cons (c : ascii) (t : string) :
  t <> "" -> ends_with_space (String c t) -> ends_with_space t.
Proof.
  intros Ht [r [d [H Hd]]]. destruct r as [| c' r]; simpl in H.
  - inversion H; subst. now elim Ht.
  - inversion H; subst. exists r, d. auto.
Qed.

Lemma rstrip_split (s : string) :
  exists r, s = Text.rstrip_by Text.ascii_space s ++ r
            /\ Text.all_chars Text.ascii_space r = true
            /\ ~ ends_with_space (Text.rstrip_by Text.ascii_space s).
Proof.
  induction s as [| c s [r [Hs [Hr Hn]]]].
  - exists "". repeat split. intros [r [c [H _]]]. destruct r; discriminate H.
  - simpl. destruct (Text.rstrip_by Text.ascii_space s) as [| c' t'] eqn:E.
    + simpl in Hs. subst r. destruct (Text.ascii_space c) eqn:Ec.
      * exists (String c s). simpl. rewrite Ec, Hr. repeat split.
        intros [r [d [H _]]]. destruct r; discriminate H.
      * exists s. repeat split; [exact Hr |].
        intros [r [d [H Hd]]]. destruct r as [| c2 r]; simpl in H.
        -- inversion H; subst. congruence.
        -- inversion H. destruct r; discriminate.
    + exists r. simpl. repeat split; [now f_equal | exact Hr |].
      intros H. apply Hn. apply (ends_with_space_cons c); [discriminate | exact H].
Qed.

Lemma rstrip_head (t : string) :
  starts_with_space (Text.rstrip_by Text.ascii_space t) -> starts_with_space t.
Proof.
  destruct t as [| c t]; simpl; [trivial |].
  intros [c' [r [H Hc]]]. exists c, t. split; [reflexivity |].
  destruct (Text.rstrip_by Text.ascii_space t).
  - destruct (Text.ascii_space c) eqn:E; [reflexivity | inversion H; subst; congruence].
  - inversion H; now subst.
Qed.

Lemma all_chars_app (p : ascii -> bool) (a b : string) :
  Text.all_chars p (a ++ b) = Text.all_chars p a && Text.all_chars p b.
Proof.
  induction a as [| x a IH]; simpl; [reflexivity |]. now rewrite IH, andb_assoc.
Qed.

(** [strip] trims. *)
Lemma strip_trimmed (s : string) : trimmed_of s (Text.strip_by Text.ascii_space s).
Proof.
  unfold Text.strip_by.
  destruct (lstrip_split s) as [l [Hs [Hl Hn]]].
  destruct (rstrip_split (Text.lstrip_by Text.ascii_space s)) as [r [Ht [Hr Hm]]].
  split; [| split].
  - exists l, r. split; [| auto]. now rewrite <- Ht.
  - intros H. apply Hn. now apply rstrip_head.
  - exact Hm.
Qed.

Lemma rstrip_core (t r : string) :
  Text.all_chars Text.ascii_space r = true -> ~ ends_with_space t ->
  Text.rstrip_by Text.ascii_space (t ++ r) = t.
Proof.
  intros Hr. induction t as [| c t IH]; intros Hn.
  - simpl. now apply rstrip_all_spaces.
  - simpl. destruct t as [| c' t'].
    + simpl. rewrite (rstrip_all_spaces r Hr).
      destruct (Text.ascii_space c) eqn:E; [| reflexivity].
      elim Hn. exists "", c. auto.
    + rewrite IH; [reflexivity |].
      intros [q [d [H Hd]]]. apply Hn. exists (String c q), d. simpl. now rewrite H.
Qed.

(** Trimming has one result, the one [strip] computes. *)
Lemma trimmed_is_strip (s t : string) : trimmed_of s t -> t = Text.strip_by Text.ascii_space s.
Proof.
  intros [[l [r [Hs [Hl Hr]]]] [Hn Hm]]. subst s. unfold Text.strip_by.
  rewrite (lstrip_spaces l _ Hl).
  destruct t as [| c t].
  - simpl. rewrite (lstrip_all_spaces r Hr). reflexivity.
  - assert (Hc : Text.ascii_space c = false).
    { destruct (Text.ascii_space c) eqn:E; [| reflexivity]. elim Hn. exists c, t. auto. }
    change (String c t ++ r) with (String c (t ++ r)).
    rewrite (lstrip_no_space c _ Hc).
    change (String c (t ++ r)) with (String c t ++ r).
    symmetry. now apply rstrip_core.
Qed.

(** ** Texts of characters below 128 *)

Lemma chars_cons_ascii (a : ascii) (r : string) :
  (Text.code a <? 128)%N = true -> Text.chars (String a r) = single a :: Text.chars r.
Proof. intros H. cbn [Text.chars]. cbv zeta. rewrite H. reflexivity. Qed.

Lemma chars_ascii (s : string) : is_ascii s = true -> Text.chars s = singles s.
Proof.
  unfold is_ascii, singles. induction s as [| a s IH]; [reflexivity |].
  cbn [Text.all_chars]. rewrite andb_true_iff. intros [Ha Hs].
  rewrite (chars_cons_ascii a s Ha), (IH Hs). reflexivity.
Qed.

Lemma join_singles (s : string) : Text.join (singles s) = s.
Proof.
  unfold singles. induction s as [| a s IH]; [reflexivity |].
  simpl. now rewrite IH.
Qed.

Lemma lstrip_by_In (p : ascii -> bool) (s : string) (a : ascii) :
  In a (list_ascii_of_string (Text.lstrip_by p s)) -> In a (list_ascii_of_string s).
Proof.
  induction s as [| c s IH]; simpl; [trivial |].
  destruct (p c); [intros H; right; now apply IH | trivial].
Qed.

Lemma rstrip_by_In (p : ascii -> bool) (s : string) (a : ascii) :
  In a (list_ascii_of_string (Text.rstrip_by p s)) -> In a (list_ascii_of_string s).
Proof.
  induction s as [| c s IH]; simpl; [trivial |].
  destruct (Text.rstrip_by p s) as [| c' t].
  - destruct (p c); simpl; [intros [] | intros [H | []]; now left].
  - simpl. intros [H | H]; [now left | right; apply IH; exact H].
Qed.

Lemma strip_by_In (p : ascii -> bool) (s : string) (a : ascii) :
  In a (list_ascii_of_string (Text.strip_by p s)) -> In a (list_ascii_of_string s).
Proof. intros H. apply (lstrip_by_In p), (rstrip_by_In p). exact H. Qed.

Lemma strip_by_all (p q : ascii -> bool) (s : string) :
  Text.all_chars q s = true -> Text.all_chars q (Text.strip_by p s) = true.
Proof.
  rewrite !all_chars_forall. intros H a Ha. apply H. now apply (strip_by_In p).
Qed.

Lemma ltrim_singles (P : N -> bool) (p : ascii -> bool) (s : string) :
  (forall a, In a (list_ascii_of_string s) -> P (Text.code a) = p a) ->
  Text.ltrim (fun ch => P (fst ch)) (singles s) = singles (Text.lstrip_by p s).
Proof.
  unfold singles. induction s as [| a s IH]; intros H; [reflexivity |].
  simpl. rewrite (H a (or_introl eq_refl)).
  destruct (p a); [apply IH; intros b Hb; apply H; now right | reflexivity].
Qed.

Lemma rtrim_singles (P : N -> bool) (p : ascii -> bool) (s : string) :
  (forall a, In a (list_ascii_of_string s) -> P (Text.code a) = p a) ->
  Text.rtrim (fun ch => P (fst ch)) (singles s) = singles (Text.rstrip_by p s).
Proof.
  unfold singles. induction s as [| a s IH]; intros H; [reflexivity |].
  simpl. rewrite (IH (fun b Hb => H b (or_intror Hb))).
  rewrite (H a (or_introl eq_refl)).
  destruct (Text.rstrip_by p s); simpl; [destruct (p a) |]; reflexivity.
Qed.

Lemma trim_singles (P : N -> bool) (p : ascii -> bool) (s : string) :
  (forall a, In a (list_ascii_of_string s) -> P (Text.code a) = p a) ->
  Text.trim (fun ch => P (fst ch)) (singles s) = singles (Text.strip_by p s).
Proof.
  intros H. unfold Text.trim, Text.strip_by.
  rewrite (ltrim_singles P p s H). apply rtrim_singles.
  intros a Ha. apply H. now apply (lstrip_by_In p).
Qed.

Lemma is_ascii_code (s : string) (a : ascii) :
  is_ascii s = true -> In a (list_ascii_of_string s) -> (Text.code a <? 128)%N = true.
Proof. unfold is_ascii. rewrite all_chars_forall. auto. Qed.

Lemma space_ascii (a : ascii) :
  (Text.code a <? 128)%N = true -> Text.space (Text.code a) = Text.ascii_space a.
Proof.
  destruct a as [[] [] [] [] [] [] [] []]; intros H;
    try discriminate H; vm_compute; reflexivity.
Qed.

Lemma int_space_ascii (a : ascii) :
  (Text.code a <? 128)%N = true -> Text.int_space (Text.code a) = Text.c_space a.
Proof.
  destruct a as [[] [] [] [] [] [] [] []]; intros H;
    try discriminate H; vm_compute; reflexivity.
Qed.

Lemma digit_ascii (a : ascii) :
  (Text.code a <? 128)%N = true -> Text.digit (Text.code a) = Text.is_digit_char a.
Proof.
  destruct a as [[] [] [] [] [] [] [] []]; intros H;
    try discriminate H; vm_compute; reflexivity.
Qed.

Lemma decimal_ascii (a : ascii) :
  (Text.code a <? 128)%N = true ->
  Text.decimal (Text.code a)
  = if Text.is_digit_char a then Some (Text.digit_val a) else None.
Proof.
  destruct a as [[] [] [] [] [] [] [] []]; intros H;
    try discriminate H; vm_compute; reflexivity.
Qed.

(** On a text of characters below 128, [strip], [isdigit] and [int] are the
    functions on bytes. *)
Lemma strip_ascii (s : string) :
  is_ascii s = true -> Text.strip s = Text.strip_by Text.ascii_space s.
Proof.
  intros H. unfold Text.strip. rewrite (chars_ascii s H).
  rewrite (trim_singles Text.space Text.ascii_space).
  - apply join_singles.
  - intros a Ha. apply space_ascii. now apply (is_ascii_code s).
Qed.

Lemma forallb_singles (P : N -> bool) (p : ascii -> bool) (s : string) :
  (forall a, In a (list_ascii_of_string s) -> P (Text.code a) = p a) ->
  forallb (fun ch => P (fst ch)) (singles s) = Text.all_chars p s.
Proof.
  unfold singles. induction s as [| a s IH]; intros H; [reflexivity |].
  simpl. rewrite (H a (or_introl eq_refl)). f_equal.
  apply IH. intros b Hb. apply H. now right.
Qed.

Lemma isdigit_ascii (s : string) :
  is_ascii s = true -> Text.isdigit s = Text.ascii_isdigit s.
Proof.
  intros H. unfold Text.isdigit. rewrite (chars_ascii s H).
  destruct s as [| a s]; [reflexivity |].
  change (singles (String a s)) with (single a :: singles s).
  change (single a :: singles s) with (singles (String a s)).
  unfold Text.ascii_isdigit.
  rewrite <- (forallb_singles Text.digit Text.is_digit_char (String a s)).
  - reflexivity.
  - intros b Hb. apply digit_ascii. now apply (is_ascii_code (String a s)).
Qed.

Lemma decimals_val_singles (s : string) (acc : Z) :
  is_ascii s = true -> Text.decimals_val (singles s) acc = Text.digits_val s acc.
Proof.
  unfold is_ascii, singles. revert acc. induction s as [| a s IH]; intros acc; [reflexivity |].
  cbn [Text.all_chars]. rewrite andb_true_iff. intros [Ha Hs].
  cbn [list_ascii_of_string map Text.decimals_val Text.digits_val single fst].
  rewrite (decimal_ascii a Ha). destruct (Text.is_digit_char a); [now apply IH | reflexivity].
Qed.

Lemma int_of_str_ascii (s : string) :
  is_ascii s = true ->
  Text.int_of_str s
  = (let t := Text.strip_by Text.c_space s in
     if Text.ascii_isdigit t then Text.digits_val t 0 else None).
Proof.
  intros H. unfold Text.int_of_str. rewrite (chars_ascii s H).
  rewrite (trim_singles Text.int_space Text.c_space).
  2:{ intros a Ha. apply int_space_ascii. now apply (is_ascii_code s). }
  cbv zeta.
  assert (Ht : is_ascii (Text.strip_by Text.c_space s) = true)
    by (now apply strip_by_all).
  destruct (Text.strip_by Text.c_space s) as [| a t] eqn:E; [reflexivity |].
  change (singles (String a t)) with (single a :: singles t). cbv iota.
  change (single a :: singles t) with (singles (String a t)).
  rewrite (decimals_val_singles _ 0 Ht).
  unfold Text.ascii_isdigit.
  destruct (Text.all_chars Text.is_digit_char (String a t)) eqn:D; [reflexivity |].
  revert D. generalize 0. generalize (String a t). clear.
  induction s as [| c s IH]; intros acc; cbn [Text.all_chars Text.digits_val]; [discriminate |].
  destruct (Text.is_digit_char c); [apply IH | reflexivity].
Qed.

Lemma is_year_col_ascii (c : string) :
  is_ascii c = true ->
  is_year_col c = Text.ascii_isdigit (Text.strip_by Text.ascii_space c).
Proof.
  intros H. unfold is_year_col. rewrite (strip_ascii c H).
  apply isdigit_ascii. now apply strip_by_all.
Qed.

Lemma is_ascii_app (a b : string) : is_ascii (a ++ b) = is_ascii a && is_ascii b.
Proof. apply all_chars_app. Qed.

Lemma spaces_ascii (l : string) :
  Text.all_chars Text.ascii_space l = true -> is_ascii l = true.
Proof.
  apply all_chars_impl.
  intros [[] [] [] [] [] [] [] []] H; try discriminate H; reflexivity.
Qed.

Lemma digits_ascii (t : string) :
  Text.all_chars Text.is_digit_char t = true -> is_ascii t = true.
Proof.
  apply all_chars_impl.
  intros [[] [] [] [] [] [] [] []] H; try discriminate H; reflexivity.
Qed.

(** A name the spec calls a year column has characters below 128 only. *)
Lemma year_column_name_ascii (c : string) : year_column_name c -> is_ascii c = true.
Proof.
  intros [t [[[l [r [Hc [Hl Hr]]]] _] Hd]]. subst c.
  apply isdigit_all_decimal_digits, isdigit_all_chars in Hd.
  rewrite !is_ascii_app, (spaces_ascii l Hl), (spaces_ascii r Hr), (digits_ascii t Hd).
  reflexivity.
Qed.

Lemma is_year_col_spec (c : string) :
  is_ascii c = true -> (is_year_col c = true <-> year_column_name c).
Proof.
  intros Ha. rewrite (is_year_col_ascii c Ha). unfold year_column_name. split.
  - intros H. exists (Text.strip_by Text.ascii_space c). split; [apply strip_trimmed |].
    now apply isdigit_all_decimal_digits.
  - intros [t [Ht Hd]]. apply trimmed_is_strip in Ht. subst t.
    now apply isdigit_all_decimal_digits.
Qed.

Lemma year_column_name_is_year_col (c : string) :
  year_column_name c -> is_year_col c = true.
Proof.
  intros H. apply is_year_col_spec; [now apply year_column_name_ascii | exact H].
Qed.

Example strip_example : Text.strip "  2001 " = "2001".
Proof. reflexivity. Qed.

(** ** [str], [int] and the numeric parser *)

Lemma string_of_uint_digits (d : Decimal.uint) :
  Text.all_chars Text.is_digit_char (NilEmpty.string_of_uint d) = true.
Proof.
  induction d; cbn [NilEmpty.string_of_uint Text.all_chars];
    [reflexivity | ..]; rewrite IHd; reflexivity.
Qed.

Lemma digits_val_string_of_uint (d : Decimal.uint) (acc : Z) :
  Text.digits_val (NilEmpty.string_of_uint d) acc = Some (uint_val d acc).
Proof.
  revert acc. induction d; intros acc;
    cbn [NilEmpty.string_of_uint Text.digits_val uint_val]; try reflexivity;
    match goal with
    | |- context [Text.is_digit_char ?c] =>
        change (Text.is_digit_char c) with true; cbv iota
    end;
    rewrite IHd; do 2 f_equal; unfold Text.digit_val; simpl; lia.
Qed.

Lemma uint_val_pos (d : Decimal.uint) (acc : positive) :
  uint_val d (Z.pos acc) = Z.pos (Pos.of_uint_acc d acc).
Proof.
  revert acc. induction d; intros acc;
    cbn [uint_val Pos.of_uint_acc]; try reflexivity;
    rewrite <- IHd; f_equal; lia.
Qed.

Lemma uint_val_0 (d : Decimal.uint) : uint_val d 0 = Z.of_N (Pos.of_uint d).
Proof.
  induction d; cbn [uint_val Pos.of_uint]; try reflexivity; try assumption;
    apply (uint_val_pos d).
Qed.

Lemma string_of_uint_nonempty (d : Decimal.uint) :
  d <> Decimal.Nil -> NilEmpty.string_of_uint d <> EmptyString.
Proof. destruct d; simpl; intros H; try discriminate; now elim H. Qed.

Lemma str_pos (p : positive) :
  Text.str (Z.pos p) = NilEmpty.string_of_uint (Pos.to_uint p).
Proof.
  unfold Text.str. simpl.
  pose proof (DecimalPos.Unsigned.to_uint_nonnil p) as Hn.
  destruct (Pos.to_uint p); [now elim Hn | reflexivity ..].
Qed.

Lemma str_neg (p : positive) :
  Text.str (Z.neg p) = String "-" (Text.str (Z.pos p)).
Proof. reflexivity. Qed.

Lemma str_nonneg_digits (y : Z) : 0 <= y -> Text.ascii_isdigit (Text.str y) = true.
Proof.
  intros Hy. destruct y as [| p | p]; [reflexivity | | lia].
  rewrite str_pos.
  pose proof (string_of_uint_nonempty _ (DecimalPos.Unsigned.to_uint_nonnil p)) as Hne.
  pose proof (string_of_uint_digits (Pos.to_uint p)) as Hd.
  unfold Text.ascii_isdigit.
  destruct (NilEmpty.string_of_uint (Pos.to_uint p)); [now elim Hne | exact Hd].
Qed.

Lemma digits_val_str (y : Z) : 0 <= y -> Text.digits_val (Text.str y) 0 = Some y.
Proof.
  intros Hy. destruct y as [| p | p]; [reflexivity | | lia].
  rewrite str_pos, digits_val_string_of_uint, uint_val_0.
  now rewrite DecimalPos.Unsigned.of_to.
Qed.

Lemma str_ascii (y : Z) : is_ascii (Text.str y) = true.
Proof.
  assert (H : forall z, 0 <= z -> is_ascii (Text.str z) = true).
  { intros z Hz. apply digits_ascii, isdigit_all_chars. now apply str_nonneg_digits. }
  destruct y as [| p | p]; try (apply H; lia).
  rewrite str_neg. unfold is_ascii. cbn [Text.all_chars].
  apply andb_true_iff. split; [reflexivity | apply H; lia].
Qed.

Lemma str_nonneg_isdigit (y : Z) : 0 <= y -> Text.isdigit (Text.str y) = true.
Proof.
  intros Hy. rewrite (isdigit_ascii _ (str_ascii y)). now apply str_nonneg_digits.
Qed.

Lemma strip_str (y : Z) : Text.strip (Text.str y) = Text.str y.
Proof.
  rewrite (strip_ascii _ (str_ascii y)).
  assert (H : forall z, 0 <= z -> Text.strip_by Text.ascii_space (Text.str z) = Text.str z).
  { intros z Hz. apply strip_digits, isdigit_all_chars. now apply str_nonneg_digits. }
  destruct y as [| p | p]; try (apply H; lia).
  rewrite str_neg. apply strip_no_space. cbn [Text.all_chars].
  apply andb_true_iff. split; [reflexivity |].
  assert (Hd : Text.all_chars Text.is_digit_char (Text.str (Z.pos p)) = true)
    by (apply isdigit_all_chars, str_nonneg_digits; lia).
  revert Hd. apply all_chars_impl.
  intros c Hc. now rewrite (digit_not_space c Hc).
Qed.

Lemma int_of_str_str (y : Z) : 0 <= y -> Text.int_of_str (Text.str y) = Some y.
Proof.
  intros Hy. rewrite (int_of_str_ascii _ (str_ascii y)). cbv zeta.
  pose proof (str_nonneg_digits y Hy) as Hd.
  rewrite (c_strip_digits _ (isdigit_all_chars _ Hd)), Hd.
  now apply digits_val_str.
Qed.

Lemma str_is_year_col (y : Z) : 0 <= y -> is_year_col (Text.str y) = true.
Proof.
  intros Hy. unfold is_year_col. rewrite strip_str. now apply str_nonneg_isdigit.
Qed.

Lemma span_digits_all (s : string) :
  Text.all_chars Text.is_digit_char s = true ->
  Numeric.span_digits s = (s, EmptyString).
Proof.
  induction s as [| c s IH]; simpl; [reflexivity |].
  rewrite andb_true_iff. intros [Hc Hs]. now rewrite Hc, (IH Hs).
Qed.

Lemma parse_unsigned_digits (s : string) (i : Z) :
  Text.ascii_isdigit s = true -> Text.digits_val s 0 = Some i ->
  Numeric.parse_unsigned s = Some (inject_Z i).
Proof.
  intros Hd Hv. unfold Numeric.parse_unsigned.
  rewrite (span_digits_all _ (isdigit_all_chars _ Hd)).
  destruct s as [| c s]; [discriminate Hd |].
  cbn [Numeric.is_empty andb]. rewrite Hv.
  cbn [Text.digits_val String.length Numeric.pow10].
  unfold inject_Z. do 2 f_equal. change (Numeric.pow10 0) with 1. lia.
Qed.

Lemma parse_digit_head (c : ascii) (r : string) :
  Text.is_digit_char c = true ->
  Text.strip_by Text.c_space (String c r) = String c r ->
  Numeric.parse (String c r) = Numeric.parse_unsigned (String c r).
Proof.
  intros Hc Hs. unfold Numeric.parse. rewrite Hs.
  destruct c as [[] [] [] [] [] [] [] []]; try discriminate Hc; reflexivity.
Qed.

Lemma parse_str_nonneg (y : Z) :
  0 <= y -> Numeric.parse (Text.str y) = Some (inject_Z y).
Proof.
  intros Hy.
  pose proof (str_nonneg_digits y Hy) as Hd.
  pose proof (c_strip_digits _ (isdigit_all_chars _ Hd)) as Hs.
  pose proof (digits_val_str y Hy) as Hv.
  destruct (Text.str y) as [| c r] eqn:E; [discriminate Hd |].
  rewrite parse_digit_head; trivial.
  - now apply parse_unsigned_digits.
  - simpl in Hd. now apply andb_true_iff in Hd as [Hc _].
Qed.

(** Every integer the script prints with [str] reads back as that number. *)
Lemma parse_str (y : Z) : Numeric.parse (Text.str y) = Some (inject_Z y).
Proof.
  destruct y as [| p | p]; try (apply parse_str_nonneg; lia).
  rewrite str_neg.
  pose proof (str_nonneg_digits (Z.pos p) ltac:(lia)) as Hd.
  pose proof (digits_val_str (Z.pos p) ltac:(lia)) as Hv.
  assert (Hs : Text.strip_by Text.c_space (String "-" (Text.str (Z.pos p)))
               = String "-" (Text.str (Z.pos p))).
  { apply strip_no_space. cbn [Text.all_chars]. apply andb_true_iff. split; [reflexivity |].
    generalize (isdigit_all_chars _ Hd). apply all_chars_impl.
    intros c Hc. now rewrite (digit_not_c_space c Hc). }
  unfold Numeric.parse. rewrite Hs.
  rewrite (parse_unsigned_digits _ _ Hd Hv). reflexivity.
Qed.

Example parse_2000 : Numeric.parse "2000" = Some (2000 # 1).
Proof. reflexivity. Qed.

Example parse_abc : Numeric.parse "abc" = None.
Proof. reflexivity. Qed.

Example parse_2000_5 : Numeric.parse "2000.5" = Some (20005 # 10).
Proof. reflexivity. Qed.

Example parse_exponent_form : Numeric.parse " 1.5e3 " = Some ((15 # 10) * (1000 # 1))%Q.
Proof. reflexivity. Qed.

Example py_int_truncates :
  Numeric.py_int (20005 # 10) = 2000 /\ Numeric.py_int (-5 # 10) = 0
  /\ Numeric.py_int (-15 # 10) = -1.
Proof. repeat split. Qed.

Lemma py_int_inject_Z (q : Q) (z : Z) : (q == inject_Z z)%Q -> Numeric.py_int q = z.
Proof.
  unfold Qeq, Numeric.py_int. simpl. intros H.
  assert (E : Qnum q = z * Z.pos (Qden q)) by lia.
  rewrite E. apply Z.quot_mul. lia.
Qed.

Lemma digits_val_nonneg (s : string) (acc v : Z) :
  0 <= acc -> Text.digits_val s acc = Some v -> 0 <= v.
Proof.
  revert acc. induction s as [| c s IH]; cbn [Text.digits_val]; intros acc Ha H.
  - inversion H. lia.
  - destruct (Text.is_digit_char c) eqn:E; [| discriminate].
    assert (Hd : 0 <= Text.digit_val c).
    { unfold Text.digit_val, Text.is_digit_char in *.
      apply andb_true_iff in E as [E _]. apply N.leb_le in E. lia. }
    apply (IH (10 * acc + Text.digit_val c)); [lia | exact H].
Qed.

Lemma decimal_nonneg (n : N) (d : Z) : Text.decimal n = Some d -> 0 <= d.
Proof.
  unfold Text.decimal. destruct (find _ Text.zeros); [| discriminate].
  intros H. inversion H. lia.
Qed.

Lemma decimals_val_nonneg (l : list (N * string)) (acc v : Z) :
  0 <= acc -> Text.decimals_val l acc = Some v -> 0 <= v.
Proof.
  revert acc. induction l as [| ch l IH]; cbn [Text.decimals_val]; intros acc Ha H.
  - inversion H. lia.
  - destruct (Text.decimal (fst ch)) as [d |] eqn:E; [| discriminate].
    pose proof (decimal_nonneg _ _ E).
    apply (IH (10 * acc + d)); [lia | exact H].
Qed.

Lemma int_of_str_nonneg (s : string) (v : Z) : Text.int_of_str s = Some v -> 0 <= v.
Proof.
  unfold Text.int_of_str. destruct (Text.trim _ (Text.chars s)); [discriminate |].
  apply decimals_val_nonneg. lia.
Qed.

(** * Sorting *)

Lemma insert_ix_perm before ks i l : Permutation (i :: l) (insert_ix before ks i l).
Proof.
  induction l as [| j l IH]; simpl; [reflexivity |].
  destruct (before _ _); [reflexivity |].
  rewrite perm_swap. now apply perm_skip.
Qed.

Lemma insertion_argsort_perm before ks :
  Permutation (seq 0 (List.length ks)) (insertion_argsort before ks).
Proof.
  unfold insertion_argsort. induction (seq 0 (List.length ks)) as [| i l IH]; simpl.
  - reflexivity.
  - rewrite <- insert_ix_perm. now apply perm_skip.
Qed.

Lemma insert_ix_sorted before ks i l :
  orders before ->
  StronglySorted Qle (map (fun i => nth i ks 0%Q) l) ->
  StronglySorted Qle (map (fun i => nth i ks 0%Q) (insert_ix before ks i l)).
Proof.
  intros Hb. induction l as [| j l IH]; simpl; intros Hs.
  - repeat constructor.
  - inversion Hs as [| ? ? Hs' Hall]; subst.
    destruct (before _ _) eqn:E.
    + simpl. constructor; [exact Hs |].
      apply (Hb _ _) in E. constructor; [exact E |].
      eapply Forall_impl; [| exact Hall]. intros a Ha. eapply Qle_trans; eassumption.
    + simpl. constructor; [now apply IH |].
      apply (Hb _ _) in E.
      apply Forall_forall. intros a Ha.
      apply in_map_iff in Ha as [x [<- Hx]].
      apply (Permutation_in _ (Permutation_sym (insert_ix_perm before ks i l))) in Hx.
      destruct Hx as [<- | Hx]; [exact E |].
      rewrite Forall_forall in Hall. apply Hall.
      now apply (in_map (fun i => nth i ks 0%Q)).
Qed.

Lemma insertion_argsort_sorted before ks :
  orders before ->
  StronglySorted Qle (map (fun i => nth i ks 0%Q) (insertion_argsort before ks)).
Proof.
  intros Hb. unfold insertion_argsort.
  induction (seq 0 (List.length ks)) as [| i l IH]; simpl.
  - constructor.
  - now apply insert_ix_sorted.
Qed.

Lemma Qle_bool_orders : orders Qle_bool.
Proof.
  intros a b. split; intros H.
  - now apply Qle_bool_iff.
  - destruct (Qlt_le_dec b a) as [Hlt | Hle]; [now apply Qlt_le_weak |].
    apply Qle_bool_iff in Hle. congruence.
Qed.

(** [kind="stable"]: a position moves in front of the later positions with
    an equal key. *)
Definition stable_kind : SortKind :=
  mkSortKind (insertion_argsort Qle_bool)
             (insertion_argsort_perm Qle_bool)
             (fun ks => insertion_argsort_sorted Qle_bool ks Qle_bool_orders).

Lemma ascending_sorted (l : list Q) : ascending l = true -> StronglySorted Qle l.
Proof.
  intros H. apply Sorted_StronglySorted; [exact Qle_trans |].
  induction l as [| a l IH]; [constructor |].
  destruct l as [| b l]; [repeat constructor |].
  cbn [ascending] in H. apply andb_true_iff in H as [Hab Hl].
  constructor; [now apply IH |]. constructor. now apply Qle_bool_iff.
Qed.

Lemma argsort_ok_sound (ks : list Q) (r : list nat) :
  argsort_ok ks r = true ->
  Permutation (seq 0 (List.length ks)) r
  /\ StronglySorted Qle (map (fun i => nth i ks 0%Q) r).
Proof.
  unfold argsort_ok. rewrite !andb_true_iff. intros [[Hlen Hall] Hasc]. split.
  - apply NoDup_Permutation_bis.
    + apply seq_NoDup.
    + apply Nat.eqb_eq in Hlen. rewrite length_seq. lia.
    + intros i Hi. rewrite forallb_forall in Hall. specialize (Hall i Hi).
      apply existsb_exists in Hall as [j [Hj He]]. apply Nat.eqb_eq in He. now subst.
  - now apply ascending_sorted.
Qed.

Lemma quicksort_argsort_perm (ks : list Q) :
  Permutation (seq 0 (List.length ks)) (quicksort_argsort ks).
Proof.
  unfold quicksort_argsort.
  destruct (NumpySort.aquicksort ks) as [r |]; [| apply insertion_argsort_perm].
  destruct (argsort_ok ks r) eqn:E; [| apply insertion_argsort_perm].
  now apply argsort_ok_sound.
Qed.

Lemma quicksort_argsort_sorted (ks : list Q) :
  StronglySorted Qle (map (fun i => nth i ks 0%Q) (quicksort_argsort ks)).
Proof.
  unfold quicksort_argsort.
  destruct (NumpySort.aquicksort ks) as [r |];
    [| apply insertion_argsort_sorted, Qle_bool_orders].
  destruct (argsort_ok ks r) eqn:E;
    [| apply insertion_argsort_sorted, Qle_bool_orders].
  now apply argsort_ok_sound.
Qed.

(** [kind="quicksort"], the default. *)
Definition quicksort_kind : SortKind :=
  mkSortKind quicksort_argsort quicksort_argsort_perm quicksort_argsort_sorted.

(** The port at work: twenty equal keys, and the keys of [two_series_table]. *)
Example aquicksort_equal_keys :
  NumpySort.aquicksort (repeat (2000 # 1) 20)
  = Some [0; 17; 16; 15; 14; 13; 12; 11; 10; 9; 8; 7; 6; 5; 4; 3; 2; 1; 18; 19]%nat.
Proof. vm_compute. reflexivity. Qed.

Example aquicksort_short_is_insertion :
  NumpySort.aquicksort (repeat (2000 # 1) 17) = Some (seq 0 17).
Proof. vm_compute. reflexivity. Qed.

Lemma take_cons_shift {A : Type} (a : A) (l : list A) (ixs : list nat) :
  take (a :: l) (map S ixs) = take l ixs.
Proof.
  unfold take. induction ixs as [| i ixs IH]; simpl; [reflexivity |].
  now rewrite IH.
Qed.

Lemma take_seq {A : Type} (l : list A) : take l (seq 0 (List.length l)) = l.
Proof.
  induction l as [| a l IH]; [reflexivity |].
  cbn [List.length seq]. rewrite <- seq_shift.
  change (take (a :: l) (0%nat :: map S (seq 0 (List.length l))))
    with (a :: take (a :: l) (map S (seq 0 (List.length l)))).
  now rewrite take_cons_shift, IH.
Qed.

Lemma take_perm {A : Type} (l : list A) (ixs : list nat) :
  Permutation (seq 0 (List.length l)) ixs -> Permutation l (take l ixs).
Proof.
  intros H. rewrite <- (take_seq l) at 1. unfold take.
  now apply Permutation_flat_map.
Qed.

Lemma map_take {A B : Type} (f : A -> B) (d : B) (l : list A) (ixs : list nat) :
  Forall (fun i => (i < List.length l)%nat) ixs ->
  map f (take l ixs) = map (fun i => nth i (map f l) d) ixs.
Proof.
  unfold take. induction 1 as [| i ixs Hi _ IH]; simpl; [reflexivity |].
  destruct (nth_error l i) as [a |] eqn:E.
  - simpl. f_equal; [| exact IH].
    symmetry. apply nth_error_nth. now apply map_nth_error.
  - apply nth_error_None in E. lia.
Qed.

Lemma perm_seq_bound (n : nat) (ixs : list nat) :
  Permutation (seq 0 n) ixs -> Forall (fun i => (i < n)%nat) ixs.
Proof.
  intros H. apply Forall_forall. intros i Hi.
  apply (Permutation_in _ (Permutation_sym H)) in Hi.
  apply in_seq in Hi. lia.
Qed.

Lemma Forall_seq_lt (n : nat) : Forall (fun i => (i < n)%nat) (seq 0 n).
Proof. apply Forall_forall. intros i Hi. apply in_seq in Hi. lia. Qed.

Lemma argsort_nil (K : SortKind) : argsort [] = [].
Proof. apply Permutation_nil. apply (argsort_perm []). Qed.

Section Sorting.
Context {K : SortKind}.

Lemma sort_values_perm (l : list LongRecord) : Permutation l (sort_values l).
Proof.
  unfold sort_values. apply take_perm.
  rewrite <- (length_map Year l). apply argsort_perm.
Qed.

Lemma sort_values_sorted (l : list LongRecord) : sorted_by_Year (sort_values l).
Proof.
  unfold sorted_by_Year, sort_values.
  rewrite (map_take Year 0%Q).
  - apply argsort_sorted.
  - rewrite <- (length_map Year l). apply perm_seq_bound, argsort_perm.
Qed.

Lemma sort_values_length (l : list LongRecord) :
  List.length (sort_values l) = List.length l.
Proof. symmetry. apply Permutation_length, sort_values_perm. Qed.

End Sorting.

Lemma sorted_pair_order (a b : LongRecord) (l : list LongRecord) :
  Permutation [a; b] l -> sorted_by_Year l -> ~ (Year b <= Year a)%Q -> l = [a; b].
Proof.
  intros Hp Hs Hlt. apply Permutation_length_2_inv in Hp as [-> | ->]; [reflexivity |].
  unfold sorted_by_Year in Hs. simpl in Hs.
  inversion Hs as [| ? ? _ Hall]; subst. inversion Hall; subst. contradiction.
Qed.

Lemma insert_ix_stable (ks : list Q) (k : Q) (i : nat) (l : list nat) :
  filter (fun j => Qeq_bool (nth j ks 0%Q) k) (insert_ix Qle_bool ks i l)
  = filter (fun j => Qeq_bool (nth j ks 0%Q) k) (i :: l).
Proof.
  induction l as [| j l IH]; [reflexivity |].
  cbn [insert_ix]. destruct (Qle_bool (nth i ks 0%Q) (nth j ks 0%Q)) eqn:E; [reflexivity |].
  cbn [filter] in *. rewrite IH.
  destruct (Qeq_bool (nth i ks 0%Q) k) eqn:Ei; [| reflexivity].
  destruct (Qeq_bool (nth j ks 0%Q) k) eqn:Ej; [| reflexivity].
  apply Qeq_bool_iff in Ei, Ej.
  assert (H : Qle_bool (nth i ks 0%Q) (nth j ks 0%Q) = true).
  { apply Qle_bool_iff. rewrite Ei, Ej. apply Qle_refl. }
  congruence.
Qed.

Lemma insertion_argsort_stable (ks : list Q) (k : Q) :
  filter (fun j => Qeq_bool (nth j ks 0%Q) k) (insertion_argsort Qle_bool ks)
  = filter (fun j => Qeq_bool (nth j ks 0%Q) k) (seq 0 (List.length ks)).
Proof.
  unfold insertion_argsort.
  induction (seq 0 (List.length ks)) as [| i l IH]; [reflexivity |].
  cbn [fold_right]. rewrite insert_ix_stable. cbn [filter]. now rewrite IH.
Qed.

Lemma filter_take (l : list LongRecord) (k : Q) (ixs : list nat) :
  Forall (fun i => (i < List.length l)%nat) ixs ->
  filter (fun r => Qeq_bool (Year r) k) (take l ixs)
  = take l (filter (fun j => Qeq_bool (nth j (map Year l) 0%Q) k) ixs).
Proof.
  unfold take. induction 1 as [| i ixs Hi _ IH]; [reflexivity |].
  cbn [flat_map filter].
  destruct (nth_error l i) as [r |] eqn:E.
  - assert (Hy : nth i (map Year l) 0%Q = Year r).
    { apply nth_error_nth. now apply map_nth_error. }
    rewrite Hy. cbn [app filter].
    destruct (Qeq_bool (Year r) k); cbn [flat_map]; rewrite IH; [now rewrite E | reflexivity].
  - apply nth_error_None in E. lia.
Qed.

(** With a stable routine the rows of each Year keep their order. *)
Lemma stable_kind_keeps_tie_order (l : list LongRecord) :
  keeps_tie_order l (@sort_values stable_kind l).
Proof.
  intros k. unfold group, sort_values. cbn [argsort stable_kind].
  rewrite filter_take.
  - rewrite insertion_argsort_stable, length_map.
    rewrite <- filter_take by apply Forall_seq_lt.
    now rewrite take_seq.
  - rewrite <- (length_map Year l). apply perm_seq_bound, insertion_argsort_perm.
Qed.

(** * Frames *)

Lemma in_combine_seq {A : Type} (l : list A) (a i : nat) (x : A) :
  In (i, x) (combine (seq a (List.length l)) l) <->
  (a <= i)%nat /\ nth_error l (i - a) = Some x.
Proof.
  revert a. induction l as [| y l IH]; intros a; simpl.
  - split; [intros [] | intros [_ H]]. now destruct (i - a)%nat.
  - rewrite IH. split.
    + intros [H | [Hle H]].
      * inversion H; subst. split; [lia |]. now rewrite Nat.sub_diag.
      * split; [lia |]. replace (i - a)%nat with (S (i - S a)) by lia. exact H.
    + intros [Hle H]. destruct (i - a)%nat as [| k] eqn:E.
      * left. simpl in H. inversion H. f_equal. lia.
      * right. split; [lia |]. replace (i - S a)%nat with k by lia. exact H.
Qed.

Lemma labelled_In (df : DataFrame) (i : nat) (row : list cell) :
  In (i, row) (labelled df) <-> nth_error (data df) i = Some row.
Proof.
  unfold labelled. rewrite in_combine_seq, Nat.sub_0_r. intuition lia.
Qed.

Lemma sub_In (df : DataFrame) (sel : Selection) (i : nat) (row : list cell) :
  In (i, row) (sub df sel) <->
  nth_error (data df) i = Some row /\ matches (columns df) sel row = true.
Proof. unfold sub. now rewrite filter_In, labelled_In. Qed.

Lemma filter_combine_length {A B : Type} (p : B -> bool) (ks : list A) (l : list B) :
  List.length ks = List.length l ->
  List.length (filter (fun r => p (snd r)) (combine ks l)) = List.length (filter p l).
Proof.
  revert ks. induction l as [| x l IH]; intros [| k ks] H; try discriminate; simpl.
  - reflexivity.
  - destruct (p x); simpl; rewrite IH; auto.
Qed.

Lemma sub_length (df : DataFrame) (sel : Selection) :
  List.length (sub df sel)
  = List.length (filter (matches (columns df) sel) (data df)).
Proof. unfold sub, labelled. apply filter_combine_length, length_seq. Qed.

Lemma filter_map_comm {A B : Type} (f : A -> B) (p : B -> bool) (l : list A) :
  filter p (map f l) = map f (filter (fun a => p (f a)) l).
Proof.
  induction l as [| a l IH]; simpl; [reflexivity |].
  destruct (p (f a)); simpl; now rewrite IH.
Qed.

Lemma filter_all {A : Type} (p : A -> bool) (l : list A) :
  Forall (fun a => p a = true) l -> filter p l = l.
Proof.
  induction 1 as [| a l Ha _ IH]; simpl; [reflexivity |]. now rewrite Ha, IH.
Qed.

Lemma filter_twice {A : Type} (p q : A -> bool) (l : list A) :
  filter p (filter q l) = filter (fun a => q a && p a) l.
Proof.
  induction l as [| a l IH]; simpl; [reflexivity |].
  destruct (q a); simpl; [destruct (p a) |]; now rewrite IH.
Qed.

Lemma filter_length_le {A : Type} (p : A -> bool) (l : list A) :
  (List.length (filter p l) <= List.length l)%nat.
Proof.
  induction l as [| a l IH]; simpl; [lia |]. destruct (p a); simpl; lia.
Qed.

Lemma flat_map_length_const {A B : Type} (f : A -> list B) (n : nat) (l : list A) :
  (forall a, List.length (f a) = n) ->
  List.length (flat_map f l) = (List.length l * n)%nat.
Proof.
  intros H. induction l as [| a l IH]; simpl; [reflexivity |].
  now rewrite length_app, H, IH.
Qed.

Lemma dropna_Year_In (pre : list Coerced) (r : LongRecord) :
  In r (dropna_Year pre) <->
  exists c, In c pre /\ c_Year c = Some (Year r)
            /\ r = mkLongRecord (c_label c) (c_ids c) (Year r) (c_Value c).
Proof.
  unfold dropna_Year. rewrite in_flat_map. split.
  - intros [c [Hc Hr]]. exists c. split; [exact Hc |].
    destruct (c_Year c) as [y |]; [| destruct Hr].
    destruct Hr as [<- | []]. simpl. auto.
  - intros [c [Hc [Hy Hr]]]. exists c. split; [exact Hc |].
    rewrite Hy. left. now symmetry.
Qed.

Lemma dropna_Year_length (pre : list Coerced) :
  List.length (dropna_Year pre) = List.length (filter Year_known pre).
Proof.
  unfold dropna_Year, Year_known. induction pre as [| c pre IH]; simpl; [reflexivity |].
  destruct (c_Year c); simpl; now rewrite IH.
Qed.

Lemma in_range_known (yr : Z * Z) (c : Coerced) :
  in_range yr c = true -> Year_known c = true.
Proof. unfold in_range, Year_known. now destruct (c_Year c). Qed.

Lemma in_range_coerce_long (cols : list string) (yr : Z * Z) (r : nat * list cell) :
  in_range yr (coerce_long cols r) = Year_within yr (Year_of cols (snd r)).
Proof. reflexivity. Qed.

Lemma detectShape_Long (df : DataFrame) : detectShape df = Long -> is_wide df = false.
Proof. unfold detectShape. now destruct (is_wide df). Qed.

Lemma detectShape_Wide (df : DataFrame) : detectShape df = Wide -> is_wide df = true.
Proof. unfold detectShape. now destruct (is_wide df). Qed.

Lemma long_slice (df : DataFrame) (sel : Selection) :
  is_wide df = false ->
  coerced_slice df sel
  = Done (filter (in_range (yr sel)) (map (coerce_long (columns df)) (sub df sel))).
Proof. intros H. unfold coerced_slice. now rewrite H. Qed.

Lemma long_slice_In (df : DataFrame) (sel : Selection) (c : Coerced) :
  In c (filter (in_range (yr sel)) (map (coerce_long (columns df)) (sub df sel))) <->
  exists i row,
    nth_error (data df) i = Some row
    /\ matches (columns df) sel row = true
    /\ Year_within (yr sel) (Year_of (columns df) row) = true
    /\ c = coerce_long (columns df) (i, row).
Proof.
  rewrite filter_In, in_map_iff. split.
  - intros [[[i row] [<- Hin]] Hr]. apply sub_In in Hin as [Hn Hm].
    exists i, row. auto.
  - intros [i [row [Hn [Hm [Hy ->]]]]]. split; [| exact Hy].
    exists (i, row). split; [reflexivity |]. now apply sub_In.
Qed.

Lemma long_slice_length (df : DataFrame) (sel : Selection) :
  List.length (dropna_Year
     (filter (in_range (yr sel)) (map (coerce_long (columns df)) (sub df sel))))
  = List.length
      (filter (fun row => matches (columns df) sel row
                          && Year_within (yr sel) (Year_of (columns df) row))
              (data df)).
Proof.
  rewrite dropna_Year_length, filter_all.
  2:{ apply Forall_forall. intros c Hc. apply filter_In in Hc as [_ Hc].
      now apply in_range_known in Hc. }
  rewrite filter_map_comm, length_map. unfold sub.
  rewrite filter_twice.
  rewrite <- (filter_combine_length
                (fun row => matches (columns df) sel row
                            && Year_within (yr sel) (Year_of (columns df) row))
                (seq 0 (List.length (data df))) (data df) (length_seq _ _)).
  reflexivity.
Qed.

Lemma matches_long_row (c i : string) (y v : cell) (lo hi : Z) :
  matches long_cols (pick c i lo hi) (long_row c i y v) = true.
Proof.
  unfold matches, pick, long_row, long_cols, cell_at. cbn.
  now rewrite !String.eqb_refl.
Qed.

Lemma Qle_bool_inject_Z (a b : Z) : a <= b -> Qle_bool (inject_Z a) (inject_Z b) = true.
Proof. intros H. apply Qle_bool_iff. now rewrite <- Zle_Qle. Qed.

Lemma range_In (a b y : Z) : In y (range a b) <-> a <= y < b.
Proof.
  unfold range. rewrite in_map_iff. split.
  - intros [i [<- Hi]]. apply in_seq in Hi. lia.
  - intros H. exists (Z.to_nat (y - a)). split; [lia |]. apply in_seq. lia.
Qed.

Lemma range_length (a b : Z) : List.length (range a b) = Z.to_nat (b - a).
Proof. unfold range. now rewrite length_map, length_seq. Qed.

Lemma range_nth (a b : Z) (i : nat) :
  (i < Z.to_nat (b - a))%nat -> nth_error (range a b) i = Some (a + Z.of_nat i).
Proof.
  intros H. unfold range. rewrite nth_error_map, nth_error_seq.
  destruct (Nat.ltb_spec i (Z.to_nat (b - a))); [reflexivity | lia].
Qed.

Lemma has_col_In (cols : list string) (c : string) :
  has_col cols c = true <-> In c cols.
Proof.
  unfold has_col. rewrite existsb_exists. split.
  - intros [x [Hx He]]. apply String.eqb_eq in He. now subst.
  - intros H. exists c. split; [exact H | apply String.eqb_refl].
Qed.

Lemma selected_year_cols_In (cols : list string) (yr : Z * Z) (c : string) :
  In c (selected_year_cols cols yr) <->
  exists y, c = Text.str y /\ fst yr <= y <= snd yr /\ In c cols.
Proof.
  unfold selected_year_cols. rewrite in_map_iff. split.
  - intros [y [<- Hy]]. apply filter_In in Hy as [Hr Hc].
    apply range_In in Hr. apply has_col_In in Hc. exists y. split; [reflexivity |].
    split; [lia | exact Hc].
  - intros [y [-> [Hr Hc]]]. exists y. split; [reflexivity |].
    apply filter_In. split; [apply range_In; lia | now apply has_col_In].
Qed.

Lemma all_some_Forall {A : Type} (P : A -> Prop) (l : list (option A)) (r : list A) :
  (forall a, In (Some a) l -> P a) -> all_some l = Some r -> Forall P r.
Proof.
  revert r. induction l as [| [a |] l IH]; simpl; intros r HP H.
  - inversion H. constructor.
  - destruct (all_some l) as [r' |]; [| discriminate]. inversion H; subst.
    constructor; [apply HP; now left |]. apply IH; auto.
  - discriminate.
Qed.

Lemma fold_min_lower (l : list Z) (x b : Z) :
  b <= x -> Forall (fun y => b <= y) l -> b <= fold_left Z.min l x.
Proof.
  revert x. induction l as [| y l IH]; simpl; intros x Hx Hl; [exact Hx |].
  inversion Hl; subst. apply IH; [lia | assumption].
Qed.

Lemma year_bounds_wide_nonneg (df : DataFrame) (bounds : Z * Z) :
  is_wide df = true -> year_bounds df = Done bounds -> 0 <= fst bounds.
Proof.
  intros Hw. unfold year_bounds. rewrite Hw.
  destruct (all_some (map Text.int_of_str (year_cols df))) as [ys |] eqn:E; [| discriminate].
  assert (Hall : Forall (fun y => 0 <= y) ys).
  { apply (all_some_Forall _ _ _) with (2 := E).
    intros a Ha. apply in_map_iff in Ha as [s [Hs _]].
    now apply int_of_str_nonneg in Hs. }
  destruct ys as [| x r]; simpl; [discriminate |].
  intros H. inversion H; subst. simpl. inversion Hall; subst.
  now apply fold_min_lower.
Qed.

(** The slider bounds need a numeric Year somewhere in the table: without
    one the minimum is NaN and [int] raises before the reshaper is reached. *)
Example year_bounds_without_numeric_Year :
  year_bounds (mkDataFrame long_cols [long_row "A" "I" (CStr "abc") (CNum (1 # 1))])
  = Stopped ValueError
  /\ year_bounds (year_abc_table "A" "I" CNaN CNaN CNaN) = Done (2000, 2002)
  /\ default_range (2000, 2002) = (2000, 2002).
Proof. repeat split. Qed.

Lemma melt_length (cols ycols vars : list string) (rows : list (nat * list cell)) :
  List.length (melt cols ycols vars rows)
  = (List.length rows * List.length vars)%nat.
Proof.
  unfold melt. rewrite length_map, length_combine, length_seq, Nat.min_id.
  rewrite (flat_map_length_const _ (List.length rows)).
  - apply Nat.mul_comm.
  - intros v. apply length_map.
Qed.

Lemma melt_variable (cols ycols vars : list string) (rows : list (nat * list cell))
      (m : Melted) :
  In m (melt cols ycols vars rows) -> In (variable m) vars.
Proof.
  unfold melt. rewrite in_map_iff. intros [[i [[k v] x]] [<- Hin]].
  apply in_combine_r in Hin. apply in_flat_map in Hin as [v' [Hv Hin]].
  apply in_map_iff in Hin as [r [Hr _]]. inversion Hr; subst. exact Hv.
Qed.

Lemma melt_no_rows (cols ycols vars : list string) : melt cols ycols vars [] = [].
Proof.
  unfold melt. cbn [map]. induction vars as [| v vars IH]; [reflexivity |].
  cbn [flat_map app]. exact IH.
Qed.

Lemma wide_slice (df : DataFrame) (sel : Selection) :
  is_wide df = true ->
  selected_year_cols (columns df) (yr sel) <> [] ->
  coerced_slice df sel
  = Done (map coerce_melted
              (melt (columns df) (year_cols df)
                    (selected_year_cols (columns df) (yr sel)) (sub df sel))).
Proof.
  intros Hw Hs. unfold coerced_slice. rewrite Hw.
  destruct (selected_year_cols (columns df) (yr sel)); [now elim Hs | reflexivity].
Qed.

Lemma melt_records (cols ycols vars : list string) (rows : list (nat * list cell))
      (m : Melted) :
  In m (melt cols ycols vars rows) ->
  exists row,
    m = mkMelted (m_label m)
                 (keep_ids cols (filter (fun c => negb (has_col ycols c)) cols) row)
                 (variable m) (cell_at cols row (variable m)).
Proof.
  unfold melt. rewrite in_map_iff. intros [[i [[k v] x]] [<- Hin]].
  apply in_combine_r in Hin. apply in_flat_map in Hin as [v' [_ Hin]].
  apply in_map_iff in Hin as [r [Hr _]]. inversion Hr; subst.
  exists (snd r). reflexivity.
Qed.

(** * Least squares *)

Local Open Scope Q_scope.

Lemma npts_cons p pts : npts (p :: pts) == npts pts + 1.
Proof.
  unfold npts. cbn [List.length]. rewrite Nat2Z.inj_succ. unfold Z.succ.
  now rewrite inject_Z_plus.
Qed.

Lemma npts_nonneg pts : 0 <= npts pts.
Proof. unfold npts. change 0 with (inject_Z 0). rewrite <- Zle_Qle. lia. Qed.

Lemma npts_pos pts : pts <> [] -> 0 < npts pts.
Proof.
  intros H. unfold npts. change 0 with (inject_Z 0). rewrite <- Zlt_Qlt.
  destruct pts; [now elim H | simpl; lia].
Qed.

Lemma Qsum_ext {A : Type} (f g : A -> Q) (l : list A) :
  (forall a, f a == g a) -> Qsum (map f l) == Qsum (map g l).
Proof.
  intros H. induction l as [| a l IH]; simpl; [reflexivity |].
  unfold Qsum in IH. now rewrite IH, H.
Qed.

Lemma sse_expand pts m b :
  sse pts m b ==
  Syy pts - 2 * m * Sxy pts - 2 * b * Sy pts
  + m * m * Sxx pts + 2 * m * b * Sx pts + npts pts * b * b.
Proof.
  induction pts as [| [x y] pts IH].
  - unfold sse, Syy, Sxy, Sy, Sxx, Sx, npts. simpl. ring.
  - rewrite npts_cons.
    unfold sse, Syy, Sxy, Sy, Sxx, Sx in *. cbn [map Qsum fold_right fst snd] in *.
    fold (Qsum (map (fun p : Q * Q => (snd p - (m * fst p + b)) * (snd p - (m * fst p + b))) pts)).
    rewrite IH. unfold Qsum. ring.
Qed.

Lemma Qsum_squares_nonneg (f : Q * Q -> Q) pts :
  0 <= Qsum (map (fun p => f p * f p) pts).
Proof.
  induction pts as [| p pts IH]; simpl; [apply Qle_refl |].
  assert (0 <= f p * f p) by nra. lra.
Qed.

Lemma quad_form pts dm db :
  Qsum (map (fun p => (dm * fst p + db) * (dm * fst p + db)) pts) ==
  dm * dm * Sxx pts + 2 * dm * db * Sx pts + npts pts * db * db.
Proof.
  induction pts as [| [x y] pts IH].
  - unfold Sxx, Sx, npts. simpl. ring.
  - rewrite npts_cons. unfold Sxx, Sx in *. cbn [map Qsum fold_right fst snd] in *.
    fold (Qsum (map (fun p : Q * Q => (dm * fst p + db) * (dm * fst p + db)) pts)).
    rewrite IH. unfold Qsum. ring.
Qed.

(** A line that satisfies the two normal equations is a least-squares fit. *)
Lemma normal_equations_minimise pts m b :
  npts pts * b + m * Sx pts == Sy pts ->
  m * Sxx pts + b * Sx pts == Sxy pts ->
  least_squares_fit pts m b.
Proof.
  intros N1 N2 m' b'. rewrite !sse_expand.
  pose proof (Qsum_squares_nonneg (fun p => (m' - m) * fst p + (b' - b)) pts) as Hq.
  rewrite quad_form in Hq.
  nra.
Qed.

Lemma Qsum_squares_zero (f : Q * Q -> Q) pts :
  Qsum (map (fun p => f p * f p) pts) == 0 -> Forall (fun p => f p == 0) pts.
Proof.
  induction pts as [| p pts IH]; intros H; [constructor |].
  cbn [map Qsum fold_right] in H.
  fold (Qsum (map (fun p => f p * f p) pts)) in H.
  pose proof (Qsum_squares_nonneg f pts) as Hr.
  assert (Hp : 0 <= f p * f p) by nra.
  constructor.
  - assert (Hz : f p * f p == 0) by lra.
    apply Qmult_integral in Hz. tauto.
  - apply IH. lra.
Qed.

Lemma const_x_sums pts c :
  Forall (fun p => fst p - c == 0) pts ->
  Sx pts == npts pts * c /\ Sxx pts == c * Sx pts /\ Sxy pts == c * Sy pts.
Proof.
  induction 1 as [| [x y] pts Hx _ IH].
  - unfold Sx, Sxx, Sxy, Sy, npts. simpl. repeat split; ring.
  - rewrite npts_cons. unfold Sx, Sxx, Sxy, Sy in *.
    cbn [map Qsum fold_right fst snd] in *.
    fold (Qsum (map fst pts)) in *. fold (Qsum (map snd pts)) in *.
    fold (Qsum (map (fun p : Q * Q => fst p * fst p) pts)) in *.
    fold (Qsum (map (fun p : Q * Q => fst p * snd p) pts)) in *.
    destruct IH as [I1 [I2 I3]].
    assert (Hxc : x == c) by lra.
    rewrite I1, I2, I3, I1, Hxc. repeat split; ring.
Qed.

Lemma zero_det_const_x pts :
  0 < npts pts ->
  npts pts * Sxx pts - Sx pts * Sx pts == 0 ->
  Forall (fun p => fst p - Sx pts / npts pts == 0) pts.
Proof.
  intros Hn Hd.
  apply (Qsum_squares_zero (fun p => fst p - Sx pts / npts pts)).
  pose proof (quad_form pts 1 (- (Sx pts / npts pts))) as Hq.
  assert (He : Qsum (map (fun p => (fst p - Sx pts / npts pts) * (fst p - Sx pts / npts pts)) pts)
               == Qsum (map (fun p => (1 * fst p + - (Sx pts / npts pts))
                                      * (1 * fst p + - (Sx pts / npts pts))) pts)).
  { apply Qsum_ext. intros p. ring. }
  rewrite He, Hq.
  assert (Hne : ~ npts pts == 0) by lra.
  transitivity ((npts pts * Sxx pts - Sx pts * Sx pts) / npts pts).
  - field. exact Hne.
  - rewrite Hd. field. exact Hne.
Qed.

Lemma polyfit1_normal_equations pts :
  pts <> [] ->
  npts pts * snd (polyfit1 pts) + fst (polyfit1 pts) * Sx pts == Sy pts
  /\ fst (polyfit1 pts) * Sxx pts + snd (polyfit1 pts) * Sx pts == Sxy pts.
Proof.
  intros Hne. pose proof (npts_pos pts Hne) as Hn.
  assert (Hn0 : ~ npts pts == 0) by lra.
  unfold polyfit1.
  fold (npts pts). fold (Sx pts). fold (Sy pts). fold (Sxx pts). fold (Sxy pts).
  destruct (Qeq_bool (npts pts * Sxx pts - Sx pts * Sx pts) 0) eqn:Ed.
  - apply Qeq_bool_iff in Ed.
    pose proof (zero_det_const_x pts Hn Ed) as Hc.
    apply const_x_sums in Hc as [C1 [C2 C3]].
    set (x0 := Sx pts / npts pts) in *. clearbody x0. clear Ed.
    destruct (Qeq_bool x0 0) eqn:E0; cbn [fst snd].
    + apply Qeq_bool_iff in E0.
      assert (S0 : Sx pts == 0) by (rewrite C1, E0; ring).
      assert (S1 : Sxy pts == 0) by (rewrite C3, E0; ring).
      rewrite S0, S1. split; field; exact Hn0.
    + apply Qeq_bool_neq in E0.
      rewrite C3, C2, C1. split; field; auto.
  - apply Qeq_bool_neq in Ed. cbn [fst snd]. split; field; auto.
Qed.

(** [polyfit1] returns a least-squares line. *)
Lemma polyfit1_least_squares pts :
  least_squares_fit pts (fst (polyfit1 pts)) (snd (polyfit1 pts)).
Proof.
  destruct pts as [| p pts].
  - intros m' b'. unfold sse. simpl. apply Qle_refl.
  - destruct (polyfit1_normal_equations (p :: pts)) as [N1 N2]; [discriminate |].
    now apply normal_equations_minimise.
Qed.

Local Open Scope Z_scope.

Lemma Qmaxb_ge_l (a b : Q) : (a <= Qmaxb a b)%Q.
Proof.
  unfold Qmaxb. destruct (Qle_bool a b) eqn:E; [now apply Qle_bool_iff | apply Qle_refl].
Qed.

Lemma Qmaxb_ge_r (a b : Q) : (b <= Qmaxb a b)%Q.
Proof.
  unfold Qmaxb. destruct (Qle_bool a b) eqn:E; [apply Qle_refl |].
  destruct (Qlt_le_dec b a) as [H | H]; [now apply Qlt_le_weak |].
  apply Qle_bool_iff in H. congruence.
Qed.

Lemma Qmaxb_cases (a b : Q) : Qmaxb a b = a \/ Qmaxb a b = b.
Proof. unfold Qmaxb. destruct (Qle_bool a b); auto. Qed.

Lemma fold_Qmaxb_spec (l : list Q) (x : Q) :
  In (fold_left Qmaxb l x) (x :: l)
  /\ Forall (fun y => (y <= fold_left Qmaxb l x)%Q) (x :: l).
Proof.
  revert x. induction l as [| y l IH]; intros x; simpl.
  - split; [now left | repeat constructor; apply Qle_refl].
  - destruct (IH (Qmaxb x y)) as [Hin Hall]. split.
    + destruct Hin as [Hin | Hin]; [| right; right; exact Hin].
      destruct (Qmaxb_cases x y) as [E | E].
      * left. now rewrite <- Hin.
      * right. left. now rewrite <- Hin.
    + inversion Hall as [| ? ? Hm Hl]; subst.
      constructor; [| constructor; [| exact Hl]].
      * eapply Qle_trans; [apply Qmaxb_ge_l | exact Hm].
      * eapply Qle_trans; [apply Qmaxb_ge_r | exact Hm].
Qed.

(** [Year_max] is the largest Year of a non-empty frame. *)
Lemma Year_max_spec (cl : list LongRecord) :
  cl <> [] ->
  (exists r, In r cl /\ Year r = Year_max cl)
  /\ forall r, In r cl -> (Year r <= Year_max cl)%Q.
Proof.
  intros Hne. unfold Year_max.
  destruct cl as [| r0 cl]; [now elim Hne |]. cbn [map].
  destruct (fold_Qmaxb_spec (map Year cl) (Year r0)) as [Hin Hall]. split.
  - change (Year r0 :: map Year cl) with (map Year (r0 :: cl)) in Hin.
    apply in_map_iff in Hin as [r [Hr Hin]]. now exists r.
  - intros r Hr. rewrite Forall_forall in Hall. apply Hall.
    change (Year r0 :: map Year cl) with (map Year (r0 :: cl)). now apply in_map.
Qed.

(** * Completeness keys *)

Lemma insert_key_In (k x : Q) (ks : list Q) :
  In x (insert_key k ks) -> x = k \/ In x ks.
Proof.
  induction ks as [| k' ks IH]; simpl.
  - intros [<- | []]. now left.
  - destruct (Qeq_bool k k'); [now right |].
    destruct (Qle_bool k k').
    + intros [<- | H]; [now left | now right].
    + intros [<- | H]; [right; now left |].
      destruct (IH H) as [-> | H']; [now left | right; now right].
Qed.

Lemma insert_key_keeps (k x : Q) (ks : list Q) :
  In x ks -> In x (insert_key k ks).
Proof.
  induction ks as [| k' ks IH]; simpl; [intros [] |].
  destruct (Qeq_bool k k'); [trivial |].
  destruct (Qle_bool k k'); simpl; intuition.
Qed.

Lemma insert_key_has (k : Q) (ks : list Q) :
  exists x, In x (insert_key k ks) /\ (x == k)%Q.
Proof.
  induction ks as [| k' ks IH]; simpl.
  - exists k. split; [now left | reflexivity].
  - destruct (Qeq_bool k k') eqn:E.
    + exists k'. split; [now left |]. apply Qeq_bool_iff in E. now symmetry.
    + destruct (Qle_bool k k').
      * exists k. split; [now left | reflexivity].
      * destruct IH as [x [Hx Hk]]. exists x. split; [now right | exact Hk].
Qed.

Lemma insert_key_sorted (k : Q) (ks : list Q) :
  StronglySorted Qlt ks -> StronglySorted Qlt (insert_key k ks).
Proof.
  induction ks as [| k' ks IH]; simpl; intros Hs.
  - repeat constructor.
  - inversion Hs as [| ? ? Hs' Hall]; subst.
    destruct (Qeq_bool k k') eqn:E; [exact Hs |].
    apply Qeq_bool_neq in E.
    destruct (Qle_bool k k') eqn:L.
    + apply Qle_bool_iff in L.
      assert (Hlt : (k < k')%Q).
      { apply Qle_lt_or_eq in L as [L | L]; [exact L | contradiction]. }
      constructor; [exact Hs |]. constructor; [exact Hlt |].
      eapply Forall_impl; [| exact Hall]. intros a Ha. eapply Qlt_trans; eassumption.
    + assert (Hlt : (k' < k)%Q).
      { destruct (Qlt_le_dec k' k) as [H | H]; [exact H |].
        apply Qle_bool_iff in H. congruence. }
      constructor; [now apply IH |].
      apply Forall_forall. intros a Ha.
      apply insert_key_In in Ha as [-> | Ha]; [exact Hlt |].
      rewrite Forall_forall in Hall. now apply Hall.
Qed.

Lemma group_keys_fold (l : list LongRecord) (ks0 : list Q) :
  let ks := fold_left (fun ks r => insert_key (Year r) ks) l ks0 in
  (forall x, In x ks -> In x ks0 \/ exists r, In r l /\ Year r = x)
  /\ (forall x, In x ks0 -> In x ks)
  /\ (forall r, In r l -> exists x, In x ks /\ (x == Year r)%Q)
  /\ (StronglySorted Qlt ks0 -> StronglySorted Qlt ks).
Proof.
  revert ks0. induction l as [| r l IH]; intros ks0; simpl.
  - repeat split; auto. intros r [].
  - destruct (IH (insert_key (Year r) ks0)) as [H1 [H2 [H3 H4]]].
    repeat split.
    + intros x Hx. destruct (H1 x Hx) as [Hin | [r' [Hr' Hy]]].
      * apply insert_key_In in Hin as [-> | Hin]; [right; exists r; auto | now left].
      * right. exists r'. auto.
    + intros x Hx. apply H2. now apply insert_key_keeps.
    + intros r' [<- | Hr'].
      * destruct (insert_key_has (Year r) ks0) as [x [Hx Hk]].
        exists x. split; [now apply H2 | exact Hk].
      * now apply H3.
    + intros Hs. apply H4. now apply insert_key_sorted.
Qed.

(** The keys of [groupby] are the Years that occur, each once, ascending. *)
Lemma group_keys_spec (l : list LongRecord) :
  (forall k, In k (group_keys l) -> exists r, In r l /\ Year r = k)
  /\ (forall r, In r l -> exists k, In k (group_keys l) /\ (k == Year r)%Q)
  /\ StronglySorted Qlt (group_keys l).
Proof.
  unfold group_keys. destruct (group_keys_fold l []) as [H1 [_ [H3 H4]]].
  repeat split.
  - intros k Hk. destruct (H1 k Hk) as [[] | H]. exact H.
  - exact H3.
  - apply H4. constructor.
Qed.

Lemma ratio_bounds (a b : Z) :
  0 <= a <= b -> 0 < b -> (0 <= inject_Z a / inject_Z b <= 1)%Q.
Proof.
  intros [Ha Hab] Hb.
  assert (Hb' : (0 < inject_Z b)%Q) by (change 0%Q with (inject_Z 0); now rewrite <- Zlt_Qlt).
  assert (Ha' : (0 <= inject_Z a)%Q) by (change 0%Q with (inject_Z 0); now rewrite <- Zle_Qle).
  assert (Hab' : (inject_Z a <= inject_Z b)%Q) by now rewrite <- Zle_Qle.
  split.
  - apply Qle_shift_div_l; [exact Hb' |]. lra.
  - apply Qle_shift_div_r; [exact Hb' |]. lra.
Qed.

(** * Schema detector *)

(** Names of characters below 128: shape detection answers Wide exactly when
    some column name, once trimmed, consists of decimal digits only, and Long
    otherwise. *)
Lemma detectShape_ascii_names (df_raw : DataFrame) :
  (forall c, In c (columns df_raw) -> is_ascii c = true) ->
  (detectShape df_raw = Wide <->
     exists c, In c (columns df_raw) /\ year_column_name c)
  /\ (detectShape df_raw = Long <->
     ~ exists c, In c (columns df_raw) /\ year_column_name c).
Proof.
  intros Ha.
  assert (Hw : is_wide df_raw = true <->
               exists c, In c (columns df_raw) /\ year_column_name c).
  { rewrite is_wide_exists. split; intros [c Hc]; exists c.
    - apply year_cols_In in Hc as [Hin Hy]. split; [exact Hin |].
      now apply is_year_col_spec; [apply Ha |].
    - apply year_cols_In. destruct Hc as [Hin Hy]. split; [exact Hin |].
      now apply year_column_name_is_year_col. }
  unfold detectShape. destruct (is_wide df_raw) eqn:E; split; split.
  - intros _. now apply Hw.
  - reflexivity.
  - discriminate.
  - intros H. elim H. now apply Hw.
  - discriminate.
  - intros H. apply Hw in H. discriminate.
  - intros _ H. apply Hw in H. discriminate.
  - reflexivity.
Qed.

(** C2. A column name that, once trimmed, consists of decimal digits only
    makes the table Wide, whatever the table.  The converse fails: line 17
    asks [str.isdigit], which accepts the superscript two, so the table whose
    only further column has that name is Wide although no name of it consists
    of decimal digits (the character is no decimal digit of any script, and
    [int] does not read it); the sanity checks pass, and line 46 raises
    ValueError. *)
Theorem detectShape_superscript_column :
  (forall df_raw,
     (exists c, In c (columns df_raw) /\ year_column_name c) ->
     detectShape df_raw = Wide)
  /\ ~ (exists c, In c (columns superscript_table) /\ year_column_name c)
  /\ detectShape superscript_table = Wide
  /\ Text.chars superscript_two = [(178%N, superscript_two)]
  /\ Text.digit 178 = true
  /\ Text.decimal 178 = None
  /\ Text.int_of_str superscript_two = None
  /\ validate superscript_table = Done tt
  /\ year_bounds superscript_table = Stopped ValueError
  /\ (forall (K : SortKind) (sel : Selection),
        script superscript_table sel = Stopped ValueError).
Proof.
  split; [| split; [| repeat split]].
  - intros df_raw [c [Hin Hy]]. unfold detectShape.
    assert (Hw : is_wide df_raw = true).
    { apply is_wide_exists. exists c. apply year_cols_In. split; [exact Hin |].
      now apply year_column_name_is_year_col. }
    now rewrite Hw.
  - intros [c [Hin Hy]].
    pose proof (year_column_name_is_year_col c Hy) as Hc.
    pose proof (year_column_name_ascii c Hy) as Ha.
    simpl in Hin. destruct Hin as [<- | [<- | [<- | []]]];
      [discriminate Hc | discriminate Hc | discriminate Ha].
Qed.

Example detectShape_samples :
  detectShape wide_table = Wide /\ detectShape padded_table = Wide
  /\ detectShape one_point_table = Long.
Proof. repeat split. Qed.

(** * Reshaper *)

(** C3, amended. Whatever routine [sort_values] runs, the long series is the
    rows that survive [dropna], rearranged into non-decreasing Year; when the
    range holds no year column the run stops with its warning instead. *)
Theorem reshape_sorted_permutation (K : SortKind) (df_raw : DataFrame) (sel : Selection) :
  match coerced_slice df_raw sel with
  | Done pre =>
      exists l, reshape df_raw sel = Done l
                /\ sorted_by_Year l
                /\ Permutation (dropna_Year pre) l
  | Stopped why => reshape df_raw sel = Stopped why
  end.
Proof.
  unfold reshape. destruct (coerced_slice df_raw sel) as [pre | why]; simpl.
  - eexists. split; [reflexivity |]. split.
    + apply sort_values_sorted.
    + apply sort_values_perm.
  - reflexivity.
Qed.

(** C3 as stated fails: numpy's quicksort puts the second 2007 row of
    [two_series_table] in front of the first. *)
Lemma quicksort_ties_not_kept :
  year_bounds two_series_table = Done (2000, 2009)
  /\ exists pre l,
       coerced_slice two_series_table (pick "A" "I" 2000 2009) = Done pre
       /\ @reshape quicksort_kind two_series_table (pick "A" "I" 2000 2009) = Done l
       /\ map label (dropna_Year pre) = seq 0 20
       /\ map label l
          = [0; 10; 1; 11; 2; 12; 3; 13; 4; 14; 5; 15; 6; 16; 17; 7; 18; 8; 9; 19]%nat
       /\ map label (group (dropna_Year pre) (2007 # 1)) = [7; 17]%nat
       /\ map label (group l (2007 # 1)) = [17; 7]%nat
       /\ ~ keeps_tie_order (dropna_Year pre) l.
Proof.
  split; [vm_compute; reflexivity |].
  eexists. eexists. split; [vm_compute; reflexivity |].
  split; [vm_compute; reflexivity |].
  split; [reflexivity |]. split; [reflexivity |].
  split; [reflexivity |]. split; [reflexivity |].
  intros H. specialize (H (2007 # 1)). vm_compute in H. discriminate H.
Qed.

(** C6. In the long branch the reshaper returns a series in which no row
    with an unparsable Year survives, every selected row with a Year in range
    and an unparsable Value survives with Value missing, nothing else is lost,
    and the table with Year cells 2000, abc, 2002 (whose slider spans 2000 to
    2002) leaves exactly the rows of 2000 and 2002; the reshaper returns a
    series in every case. *)
Theorem long_bad_Year_dropped_bad_Value_kept (K : SortKind) :
  (forall df_raw sel,
     detectShape df_raw = Long ->
     exists l,
       reshape df_raw sel = Done l
       /\ (forall i row,
             nth_error (data df_raw) i = Some row ->
             Year_of (columns df_raw) row = None ->
             forall r, In r l -> label r <> i)
       /\ (forall i row y,
             nth_error (data df_raw) i = Some row ->
             matches (columns df_raw) sel row = true ->
             Year_of (columns df_raw) row = Some y ->
             Year_within (yr sel) (Some y) = true ->
             Value_of (columns df_raw) row = None ->
             exists r, In r l /\ label r = i /\ Year r = y /\ Value r = None)
       /\ List.length l
          = List.length
              (filter (fun row =>
                         matches (columns df_raw) sel row
                         && Year_within (yr sel) (Year_of (columns df_raw) row))
                      (data df_raw)))
  /\ (forall c i v1 v2 v3 lo hi,
        lo <= 2000 -> 2002 <= hi ->
        year_bounds (year_abc_table c i v1 v2 v3) = Done (2000, 2002)
        /\ exists r1 r2,
          reshape (year_abc_table c i v1 v2 v3) (pick c i lo hi) = Done [r1; r2]
          /\ label r1 = 0%nat /\ Year r1 = 2000 # 1
          /\ label r2 = 2%nat /\ Year r2 = 2002 # 1).
Proof.
  split.
  - intros df sel Hlong. apply detectShape_Long in Hlong.
    unfold reshape. rewrite (long_slice df sel Hlong). cbn [bind].
    eexists. split; [reflexivity |]. split; [| split].
    + intros i row Hn Hy r Hr Hl.
      apply (Permutation_in _ (Permutation_sym (sort_values_perm _))) in Hr.
      apply dropna_Year_In in Hr as [c [Hc [Hcy Hrc]]].
      apply long_slice_In in Hc as [j [row' [Hn' [_ [Hw ->]]]]].
      rewrite Hrc in Hl. simpl in Hl. subst j.
      rewrite Hn in Hn'. inversion Hn'; subst row'.
      rewrite Hy in Hw. discriminate Hw.
    + intros i row y Hn Hm Hy Hw Hv.
      exists (mkLongRecord i (c_ids (coerce_long (columns df) (i, row))) y None).
      split; [| auto].
      apply (Permutation_in _ (sort_values_perm _)).
      apply dropna_Year_In. exists (coerce_long (columns df) (i, row)).
      split; [| split].
      * apply long_slice_In. exists i, row. rewrite Hy. auto.
      * exact Hy.
      * simpl. f_equal. symmetry. exact Hv.
    + rewrite sort_values_length. apply long_slice_length.
  - intros c i v1 v2 v3 lo hi Hlo Hhi. split; [reflexivity |].
    pose (r1 := mkLongRecord 0 (keep_ids long_cols ["Country Name"; "Indicator Name"]
                                         (long_row c i (CStr "2000") v1))
                             (2000 # 1) (Numeric.to_numeric v1)).
    pose (r2 := mkLongRecord 2 (keep_ids long_cols ["Country Name"; "Indicator Name"]
                                         (long_row c i (CStr "2002") v3))
                             (2002 # 1) (Numeric.to_numeric v3)).
    exists r1, r2.
    assert (Hpre : coerced_slice (year_abc_table c i v1 v2 v3) (pick c i lo hi)
                   = Done [mkCoerced (label r1) (id_vars r1) (Some (Year r1)) (Value r1);
                           mkCoerced (label r2) (id_vars r2) (Some (Year r2)) (Value r2)]).
    { rewrite long_slice by reflexivity. f_equal.
      unfold sub, labelled, year_abc_table. cbn [data columns List.length seq combine filter snd].
      rewrite !matches_long_row. cbn [map filter].
      rewrite !in_range_coerce_long. cbn [snd].
      change (Year_of long_cols (long_row c i (CStr "2000") v1)) with (Some (2000 # 1)).
      change (Year_of long_cols (long_row c i (CStr "abc") v2)) with (@None Q).
      change (Year_of long_cols (long_row c i (CStr "2002") v3)) with (Some (2002 # 1)).
      unfold Year_within, pick. cbn [yr fst snd].
      change (2000 # 1) with (inject_Z 2000). change (2002 # 1) with (inject_Z 2002).
      rewrite (Qle_bool_inject_Z lo 2000), (Qle_bool_inject_Z lo 2002) by lia.
      rewrite (Qle_bool_inject_Z 2000 hi), (Qle_bool_inject_Z 2002 hi) by lia.
      reflexivity. }
    unfold reshape. rewrite Hpre. cbn [bind].
    split; [| now repeat split]. f_equal.
    apply sorted_pair_order.
    + apply (sort_values_perm [r1; r2]).
    + apply sort_values_sorted.
    + intros H. apply Qle_bool_iff in H. discriminate H.
Qed.

Lemma long_bad_Year_dropped_bad_Value_kept_witness :
  detectShape (year_abc_table "A" "I" (CNum (1 # 1)) (CNum (2 # 1)) (CStr "n/a")) = Long
  /\ exists l,
       @reshape stable_kind
                (year_abc_table "A" "I" (CNum (1 # 1)) (CNum (2 # 1)) (CStr "n/a"))
                (pick "A" "I" 2000 2002) = Done l
       /\ map label l = [0%nat; 2%nat]
       /\ map Value l = [Some (1 # 1); None].
Proof.
  assert (Hs : detectShape (year_abc_table "A" "I" (CNum (1 # 1)) (CNum (2 # 1)) (CStr "n/a"))
               = Long) by reflexivity.
  split; [exact Hs |].
  destruct (proj1 (long_bad_Year_dropped_bad_Value_kept stable_kind) _
                  (pick "A" "I" 2000 2002) Hs) as [l [Hl _]].
  exists l. split; [exact Hl |].
  vm_compute in Hl. inversion Hl. split; reflexivity.
Defined.

Lemma selected_year_cols_sound (df_raw : DataFrame) (yr : Z * Z) (c : string) :
  0 <= fst yr ->
  In c (selected_year_cols (columns df_raw) yr) ->
  year_col_in_range df_raw yr c.
Proof.
  intros H0 Hc. apply selected_year_cols_In in Hc as [y [-> [Hy Hin]]].
  assert (Hy0 : 0 <= y) by lia. split.
  - apply year_cols_In. split; [exact Hin | now apply str_is_year_col].
  - exists y. split; [now apply int_of_str_str | exact Hy].
Qed.

Lemma selected_year_cols_canonical (df_raw : DataFrame) (yr : Z * Z) (y : Z) :
  year_col_in_range df_raw yr (Text.str y) -> 0 <= y ->
  In (Text.str y) (selected_year_cols (columns df_raw) yr).
Proof.
  intros [Hin [y' [Hy' Hr]]] H0.
  rewrite (int_of_str_str y H0) in Hy'. inversion Hy'; subst y'.
  apply selected_year_cols_In. exists y. split; [reflexivity |]. split; [exact Hr |].
  now apply year_cols_In in Hin as [Hin _].
Qed.

(** C7 at the padded header: the column [" 2001"] is a year column, its
    value 2001 sets the upper end of the slider and lies in the chosen range,
    yet it is not among the pivoted columns, and its cell is in no record. *)
Lemma padded_year_col_not_selected :
  year_cols padded_table = ["2000"; " 2001"]
  /\ year_bounds padded_table = Done (2000, 2001)
  /\ year_col_in_range padded_table (2000, 2001) " 2001"
  /\ selected_year_cols (columns padded_table) (2000, 2001) = ["2000"]
  /\ ~ In " 2001" (selected_year_cols (columns padded_table) (2000, 2001))
  /\ exists l,
       @reshape stable_kind padded_table (pick "A" "I" 2000 2001) = Done l
       /\ map Year l = [2000 # 1] /\ map Value l = [Some (10 # 1)].
Proof.
  split; [reflexivity |]. split; [reflexivity |]. split.
  - split; [right; now left |]. exists 2001. split; [reflexivity | simpl; lia].
  - split; [reflexivity |]. split.
    + intros [H | []]. discriminate H.
    + eexists. split; [vm_compute; reflexivity |]. split; reflexivity.
Qed.

(** C10. In the wide branch, for a table that passes the sanity checks and
    has no column called Year or Value (line 66 gives these names to the two
    columns of [melt], which refuses or duplicates a name that is taken), with a
    range the slider can return: an empty selection of year columns stops the
    run with its warning; otherwise every melted record takes its Year from a
    selected column whose name is a run of digits and reads as that number,
    [dropna] removes nothing, and the series has (matching rows) times
    (selected year columns) records. *)
Theorem wide_no_record_dropped (K : SortKind) (df_raw : DataFrame) (sel : Selection)
        (bounds : Z * Z) :
  detectShape df_raw = Wide ->
  validate df_raw = Done tt ->
  no_clash df_raw = true ->
  year_bounds df_raw = Done bounds ->
  slider_allows bounds (yr sel) ->
  (selected_year_cols (columns df_raw) (yr sel) = [] ->
     reshape df_raw sel = Stopped EmptyRangeWarning)
  /\ (selected_year_cols (columns df_raw) (yr sel) <> [] ->
      exists pre l,
        coerced_slice df_raw sel = Done pre
        /\ reshape df_raw sel = Done l
        /\ (forall c, In c pre ->
              exists v y,
                In v (selected_year_cols (columns df_raw) (yr sel))
                /\ In v (year_cols df_raw)
                /\ Text.isdigit v = true
                /\ c_Year c = Numeric.to_numeric (CStr v)
                /\ c_Year c = Some (inject_Z y))
        /\ List.length (dropna_Year pre) = List.length pre
        /\ List.length l
           = (List.length (filter (matches (columns df_raw) sel) (data df_raw))
              * List.length (selected_year_cols (columns df_raw) (yr sel)))%nat).
Proof.
  intros Hshape _ _ Hb Hsl. apply detectShape_Wide in Hshape.
  pose proof (year_bounds_wide_nonneg _ _ Hshape Hb) as H0.
  destruct Hsl as [Hlo _].
  split.
  - intros He. unfold reshape, coerced_slice. now rewrite Hshape, He.
  - intros Hne. unfold reshape. rewrite (wide_slice _ _ Hshape Hne). cbn [bind].
    eexists. eexists. split; [reflexivity |]. split; [reflexivity |].
    assert (Hyear : forall c,
              In c (map coerce_melted
                        (melt (columns df_raw) (year_cols df_raw)
                              (selected_year_cols (columns df_raw) (yr sel))
                              (sub df_raw sel))) ->
              exists v y,
                In v (selected_year_cols (columns df_raw) (yr sel))
                /\ In v (year_cols df_raw)
                /\ Text.isdigit v = true
                /\ c_Year c = Numeric.to_numeric (CStr v)
                /\ c_Year c = Some (inject_Z y)).
    { intros c Hc. apply in_map_iff in Hc as [m [<- Hm]].
      apply melt_variable in Hm. exists (variable m).
      pose proof Hm as Hsel.
      apply selected_year_cols_In in Hm as [y [Hv [Hy Hin]]]. exists y.
      assert (Hy0 : 0 <= y) by lia.
      split; [exact Hsel |]. split; [| split; [| split]].
      - apply year_cols_In. split; [exact Hin |]. rewrite Hv. now apply str_is_year_col.
      - rewrite Hv. now apply str_nonneg_isdigit.
      - reflexivity.
      - simpl. rewrite Hv. apply parse_str. }
    split; [exact Hyear |]. split.
    + rewrite dropna_Year_length, filter_all; [reflexivity |].
      apply Forall_forall. intros c Hc.
      destruct (Hyear c Hc) as [v [y [_ [_ [_ [_ Hy]]]]]].
      unfold Year_known. now rewrite Hy.
    + rewrite sort_values_length, dropna_Year_length, filter_all.
      * now rewrite length_map, melt_length, sub_length.
      * apply Forall_forall. intros c Hc.
        destruct (Hyear c Hc) as [v [y [_ [_ [_ [_ Hy]]]]]].
        unfold Year_known. now rewrite Hy.
Qed.

Lemma wide_no_record_dropped_witness :
  detectShape wide_table = Wide
  /\ validate wide_table = Done tt
  /\ no_clash wide_table = true
  /\ year_bounds wide_table = Done (2000, 2002)
  /\ slider_allows (2000, 2002) (2000, 2002)
  /\ exists l, @reshape stable_kind wide_table (pick "A" "I" 2000 2002) = Done l
               /\ List.length l = 3%nat.
Proof.
  assert (Hs : detectShape wide_table = Wide) by reflexivity.
  assert (Hv : validate wide_table = Done tt) by reflexivity.
  assert (Hc : no_clash wide_table = true) by reflexivity.
  assert (Hb : year_bounds wide_table = Done (2000, 2002)) by reflexivity.
  assert (Ha : slider_allows (2000, 2002) (yr (pick "A" "I" 2000 2002)))
    by (unfold slider_allows; simpl; lia).
  split; [exact Hs |]. split; [exact Hv |]. split; [exact Hc |].
  split; [exact Hb |]. split; [exact Ha |].
  destruct (wide_no_record_dropped stable_kind wide_table (pick "A" "I" 2000 2002)
              (2000, 2002) Hs Hv Hc Hb Ha) as [_ H].
  destruct H as [pre [l [_ [Hl [_ [_ Hlen]]]]]]; [discriminate |].
  exists l. split; [exact Hl |]. exact Hlen.
Defined.

(** The spec scenario of a pair without rows: the series is empty (or, in
    the wide branch with no year column in range, the run stops with its
    warning). *)
Lemma reshape_no_match (K : SortKind) (df_raw : DataFrame) (sel : Selection) :
  sub df_raw sel = [] ->
  reshape df_raw sel = Done [] \/ reshape df_raw sel = Stopped EmptyRangeWarning.
Proof.
  intros Hs. unfold reshape, coerced_slice. rewrite Hs.
  destruct (is_wide df_raw).
  - destruct (selected_year_cols (columns df_raw) (yr sel)); [now right | left].
    rewrite melt_no_rows. cbn [map bind dropna_Year flat_map].
    unfold sort_values. cbn [map]. now rewrite argsort_nil.
  - left. cbn [map filter bind dropna_Year flat_map].
    unfold sort_values. cbn [map]. now rewrite argsort_nil.
Qed.

(** * The script on objects: what a run does to the store *)

Lemma deref_new (s : Store) (f : Frame) (n : nat) :
  n = List.length s -> deref (s ++ [f])%list n = f.
Proof.
  intros ->. unfold deref. rewrite app_nth2 by lia. now rewrite Nat.sub_diag.
Qed.

Lemma deref_old (s : Store) (f : Frame) (r : nat) :
  (r < List.length s)%nat -> deref (s ++ [f])%list r = deref s r.
Proof. intros H. unfold deref. now apply app_nth1. Qed.

Lemma length_assign (s : Store) (r : nat) (f : Frame) :
  List.length (assign s r f) = List.length s.
Proof.
  revert r. induction s as [| g s IH]; intros [| r]; simpl; auto.
Qed.

Lemma deref_assign_same (s : Store) (r : nat) (f : Frame) :
  (r < List.length s)%nat -> deref (assign s r f) r = f.
Proof.
  revert r. induction s as [| g s IH]; intros [| r] H; simpl in *; try lia; auto.
  apply IH. lia.
Qed.

Lemma deref_assign_other (s : Store) (r r' : nat) (f : Frame) :
  r' <> r -> deref (assign s r f) r' = deref s r'.
Proof.
  revert r r'. induction s as [| g s IH]; intros [| r] [| r'] H; simpl; auto;
    try congruence.
  apply IH. congruence.
Qed.

Ltac store_len :=
  repeat (rewrite length_assign || rewrite length_app); simpl; lia.

Ltac store_step :=
  first [ rewrite deref_new by store_len
        | rewrite deref_assign_same by store_len
        | rewrite deref_assign_other by store_len
        | rewrite deref_old by store_len ].

(** The commands run to the end, leave the objects that existed as they
    were, and [sub_long] is [reshape_frame] of [df_raw]. *)
Lemma lines_57_80_run (K : SortKind) (wide : bool) (ycols : list string)
      (sel : Selection) (df_raw : nat) (s : Store) :
  (df_raw < List.length s)%nat ->
  exists s',
    (forall r, (r < List.length s)%nat -> deref s' r = deref s r)
    /\ (List.length s <= List.length s')%nat
    /\ match reshape_frame wide ycols sel (deref s df_raw) with
       | Done f =>
           exists sub_long,
             lines_57_80 wide ycols sel df_raw s = (Done sub_long, s')
             /\ deref s' sub_long = f
       | Stopped why => lines_57_80 wide ycols sel df_raw s = (Stopped why, s')
       end.
Proof.
  intros Hr. unfold lines_57_80, reshape_frame.
  set (raw := deref s df_raw).
  set (sub := select raw (matches (fcols raw) sel)).
  unfold then_, get, new, copy, then_, get, new. fold raw. fold sub.
  repeat store_step. fold sub.
  destruct wide.
  - unfold then_, get. repeat store_step.
    destruct (selected_year_cols (fcols sub) (yr sel)) as [| c selected] eqn:Es.
    + cbn [bind]. unfold stop. eexists. split; [| split; [| reflexivity]].
      * intros r H. now repeat store_step.
      * store_len.
    + unfold new, setitem_to_numeric, ret. cbn [bind]. repeat store_step.
      eexists. split; [| split; [| eexists; split; [reflexivity |]]].
      * intros r H. now repeat store_step.
      * store_len.
      * repeat store_step. reflexivity.
  - unfold then_, copy, then_, get, new, setitem_to_numeric. repeat store_step.
    cbn [bind].
    eexists. split; [| split; [| eexists; split; [reflexivity |]]].
    + intros r H. now repeat store_step.
    + store_len.
    + repeat store_step. reflexivity.
Qed.

(** ** The frame of [sub_long] holds the series of [reshape] *)

Lemma cell_num_num_cell (o : option Q) : cell_num (num_cell o) = o.
Proof. now destruct o. Qed.

Lemma nth_set_nth_same (i : nat) (x : cell) (row : list cell) :
  (i < List.length row)%nat -> nth i (set_nth i x row) CNaN = x.
Proof.
  revert i. induction row as [| y row IH]; intros [| i] H; simpl in *; try lia; auto.
  apply IH. lia.
Qed.

Lemma nth_set_nth_other (i j : nat) (x : cell) (row : list cell) :
  i <> j -> nth j (set_nth i x row) CNaN = nth j row CNaN.
Proof.
  revert i j. induction row as [| y row IH]; intros [| i] [| j] H; simpl; auto;
    try congruence.
Qed.

Lemma set_nth_beyond (i : nat) (x : cell) (row : list cell) :
  (List.length row <= i)%nat -> set_nth i x row = row.
Proof.
  revert i. induction row as [| y row IH]; intros [| i] H; simpl in *; try lia; auto.
  f_equal. apply IH. lia.
Qed.

Lemma col_pos_name (c : string) (cols : list string) (i : nat) :
  col_pos c cols = Some i -> nth_error cols i = Some c.
Proof.
  revert i. induction cols as [| c' cols IH]; intros i; simpl; [discriminate |].
  destruct (String.eqb c c') eqn:E.
  - intros H. inversion H. apply String.eqb_eq in E. now subst.
  - destruct (col_pos c cols) as [j |]; [| discriminate].
    intros H. inversion H. simpl. now apply IH.
Qed.

Lemma col_pos_differ (c c' : string) (cols : list string) (i j : nat) :
  c <> c' -> col_pos c cols = Some i -> col_pos c' cols = Some j -> i <> j.
Proof.
  intros Hc Hi Hj E. subst j.
  apply col_pos_name in Hi. apply col_pos_name in Hj. congruence.
Qed.

(** What a cell reads as a number once its column has been coerced in
    place. *)
Lemma Year_after_set (cols : list string) (row : list cell) (c : string) (i : nat) :
  col_pos c cols = Some i ->
  cell_num (cell_at cols
              (set_nth i (num_cell (Numeric.to_numeric (cell_at cols row c))) row) c)
  = Numeric.to_numeric (cell_at cols row c).
Proof.
  intros Hi. unfold cell_at. rewrite Hi.
  destruct (Nat.lt_ge_cases i (List.length row)) as [Hlt | Hge].
  - rewrite nth_set_nth_same by exact Hlt. apply cell_num_num_cell.
  - rewrite set_nth_beyond by exact Hge.
    rewrite (nth_overflow row CNaN Hge). reflexivity.
Qed.

Lemma cell_at_set_other (cols : list string) (row : list cell) (c c' : string)
      (i : nat) (x : cell) :
  c <> c' -> col_pos c cols = Some i ->
  cell_at cols (set_nth i x row) c' = cell_at cols row c'.
Proof.
  intros Hc Hi. unfold cell_at. destruct (col_pos c' cols) as [j |] eqn:Hj; [| reflexivity].
  apply nth_set_nth_other. eapply col_pos_differ; eassumption.
Qed.

Lemma combine_map_self {A B : Type} (F : A -> B) (l : list A) :
  combine l (map F l) = map (fun a => (a, F a)) l.
Proof. induction l as [| a l IH]; simpl; [reflexivity | now rewrite IH]. Qed.

Lemma with_column_to_numeric (f : Frame) (c : string) :
  with_column f c (to_numeric_column f c)
  = mkFrame (fcols f) (map (coerce_in_place (fcols f) c) (frows f)).
Proof.
  unfold with_column, to_numeric_column, column, coerce_in_place.
  destruct (col_pos c (fcols f)) as [i |].
  - f_equal. rewrite map_map, combine_map_self, map_map. reflexivity.
  - destruct f. simpl. now rewrite map_id.
Qed.

Lemma keep_ids_ext (cols : list string) (ids : list string) (row row' : list cell) :
  (forall c, In c ids -> cell_at cols row' c = cell_at cols row c) ->
  keep_ids cols ids row' = keep_ids cols ids row.
Proof.
  intros H. unfold keep_ids. apply map_ext_in. intros c Hc. now rewrite H.
Qed.

(** Lines 76-77 on the object give the record of [coerce_long]. *)
Lemma coerced_in_place_long (cols : list string) (r : nat * list cell) :
  coerced_of_row cols (coerce_in_place cols "Value" (coerce_in_place cols "Year" r))
  = coerce_long cols r.
Proof.
  destruct r as [i row]. unfold coerced_of_row, coerce_long, coerce_in_place.
  assert (Hne : "Year" <> "Value") by discriminate.
  assert (Hne' : "Value" <> "Year") by discriminate.
  destruct (col_pos "Year" cols) as [py |] eqn:Ey;
    destruct (col_pos "Value" cols) as [pv |] eqn:Ev; cbn [fst snd].
  - f_equal.
    + apply keep_ids_ext. intros c Hc. apply filter_In in Hc as [_ Hc].
      apply negb_true_iff, orb_false_iff in Hc as [Hy Hv].
      apply String.eqb_neq in Hy, Hv.
      rewrite (cell_at_set_other cols _ "Value" c pv) by auto.
      now rewrite (cell_at_set_other cols _ "Year" c py) by auto.
    + rewrite (cell_at_set_other cols _ "Value" "Year" pv) by auto.
      now apply Year_after_set.
    + rewrite (Year_after_set cols _ "Value" pv Ev).
      now rewrite (cell_at_set_other cols row "Year" "Value" py) by auto.
  - f_equal.
    + apply keep_ids_ext. intros c Hc. apply filter_In in Hc as [_ Hc].
      apply negb_true_iff, orb_false_iff in Hc as [Hy Hv].
      apply String.eqb_neq in Hy.
      now rewrite (cell_at_set_other cols _ "Year" c py) by auto.
    + now apply Year_after_set.
    + unfold cell_at at 1 3. now rewrite Ev.
  - f_equal.
    + apply keep_ids_ext. intros c Hc. apply filter_In in Hc as [_ Hc].
      apply negb_true_iff, orb_false_iff in Hc as [Hy Hv].
      apply String.eqb_neq in Hv.
      now rewrite (cell_at_set_other cols _ "Value" c pv) by auto.
    + unfold cell_at at 1 3. now rewrite Ey.
    + now apply Year_after_set.
  - f_equal; unfold cell_at; now rewrite ?Ey, ?Ev.
Qed.

Lemma col_pos_app_l (c : string) (a b : list string) :
  In c a -> col_pos c (a ++ b)%list = col_pos c a.
Proof.
  induction a as [| x a IH]; simpl; [intros [] |].
  destruct (String.eqb c x) eqn:E; [reflexivity |].
  intros [H | H]; [subst; now rewrite String.eqb_refl in E |].
  now rewrite IH.
Qed.

Lemma col_pos_app_r (c : string) (a b : list string) :
  ~ In c a ->
  col_pos c (a ++ b)%list = option_map (fun i => (List.length a + i)%nat) (col_pos c b).
Proof.
  induction a as [| x a IH]; simpl; intros H.
  - destruct (col_pos c b); reflexivity.
  - destruct (String.eqb c x) eqn:E.
    + apply String.eqb_eq in E. subst. elim H. now left.
    + rewrite IH by tauto. destruct (col_pos c b); reflexivity.
Qed.

Lemma col_pos_In (c : string) (cols : list string) :
  In c cols -> exists i, col_pos c cols = Some i /\ (i < List.length cols)%nat.
Proof.
  induction cols as [| x cols IH]; simpl; [intros [] |].
  destruct (String.eqb c x) eqn:E.
  - intros _. exists 0%nat. split; [reflexivity | lia].
  - intros [H | H]; [subst; now rewrite String.eqb_refl in E |].
    destruct (IH H) as [i [Hi Hl]]. exists (S i). rewrite Hi. split; [reflexivity | lia].
Qed.

Lemma filter_keeps_all {A : Type} (p : A -> bool) (l : list A) :
  (forall a, In a l -> p a = true) -> filter p l = l.
Proof.
  intros H. apply filter_all. now apply Forall_forall.
Qed.

(** Lines 66-73 on the object give the record of [coerce_melted]. *)
Lemma coerced_in_place_wide (cols ids : list string) (row : list cell)
      (i : nat) (v : string) :
  ~ In "Year" ids -> ~ In "Value" ids ->
  coerced_of_row (ids ++ ["Year"; "Value"])%list
    (coerce_in_place (ids ++ ["Year"; "Value"])%list "Value"
       (coerce_in_place (ids ++ ["Year"; "Value"])%list "Year"
          (i, (map snd (keep_ids cols ids row) ++ [CStr v; cell_at cols row v])%list)))
  = coerce_melted (mkMelted i (keep_ids cols ids row) v (cell_at cols row v)).
Proof.
  intros Hy Hv. rewrite coerced_in_place_long.
  unfold coerce_long, coerce_melted. cbn [fst snd m_label m_ids variable value].
  set (cols' := (ids ++ ["Year"; "Value"])%list).
  set (cells := (map snd (keep_ids cols ids row) ++ [CStr v; cell_at cols row v])%list).
  assert (Hlen : List.length (map snd (keep_ids cols ids row)) = List.length ids).
  { unfold keep_ids. now rewrite !length_map. }
  assert (Hothers : filter (fun c => negb (String.eqb c "Year" || String.eqb c "Value")) cols'
                    = ids).
  { unfold cols'. rewrite filter_app.
    replace (filter (fun c => negb (String.eqb c "Year" || String.eqb c "Value"))
                    ["Year"; "Value"])
      with (@nil string) by reflexivity.
    rewrite app_nil_r.
    apply filter_keeps_all. intros c Hc. apply negb_true_iff, orb_false_iff.
    split; apply String.eqb_neq; intros ->; contradiction. }
  rewrite Hothers. f_equal.
  - unfold keep_ids. apply map_ext_in. intros c Hc. f_equal.
    unfold cell_at at 1. unfold cols'. rewrite (col_pos_app_l c ids _ Hc).
    destruct (col_pos_In c ids Hc) as [p [Hp Hlt]]. rewrite Hp.
    unfold cells. rewrite app_nth1 by lia.
    unfold keep_ids. rewrite map_map. cbn [snd].
    rewrite (nth_indep _ CNaN (cell_at cols row c)) by (rewrite length_map; lia).
    rewrite (map_nth (fun c => cell_at cols row c) ids c p).
    apply col_pos_name in Hp. apply nth_error_nth with (d := c) in Hp. now rewrite Hp.
  - unfold cell_at at 1. unfold cols'. rewrite (col_pos_app_r "Year" ids _ Hy).
    replace (col_pos "Year" ["Year"; "Value"]) with (Some 0%nat) by reflexivity.
    cbn [option_map].
    unfold cells. rewrite app_nth2 by lia.
    replace (List.length ids + 0 - List.length (map snd (keep_ids cols ids row)))%nat
      with 0%nat by lia.
    reflexivity.
  - unfold cell_at at 1. unfold cols'. rewrite (col_pos_app_r "Value" ids _ Hv).
    replace (col_pos "Value" ["Year"; "Value"]) with (Some 1%nat) by reflexivity.
    cbn [option_map].
    unfold cells. rewrite app_nth2 by lia.
    replace (List.length ids + 1 - List.length (map snd (keep_ids cols ids row)))%nat
      with 1%nat by lia.
    reflexivity.
Qed.

Lemma dropna_known (l : list Coerced) :
  Forall (fun r => Year_known r = true) l -> dropna_Year l = map force l.
Proof.
  unfold dropna_Year, force, Year_known.
  induction 1 as [| r l Hr _ IH]; simpl; [reflexivity |].
  destruct (c_Year r); [| discriminate]. simpl. now rewrite IH.
Qed.

Lemma dropna_filter_known (l : list Coerced) :
  dropna_Year (filter Year_known l) = dropna_Year l.
Proof.
  unfold dropna_Year, Year_known. induction l as [| r l IH]; simpl; [reflexivity |].
  destruct (c_Year r) eqn:E; simpl; rewrite ?E; simpl; now rewrite IH.
Qed.

Lemma take_map {A B : Type} (h : A -> B) (l : list A) (ixs : list nat) :
  take (map h l) ixs = map h (take l ixs).
Proof.
  unfold take. induction ixs as [| i ixs IH]; simpl; [reflexivity |].
  rewrite map_app, <- IH, nth_error_map. now destruct (nth_error l i).
Qed.

Lemma take_In {A : Type} (l : list A) (ixs : list nat) (x : A) :
  In x (take l ixs) -> In x l.
Proof.
  unfold take. rewrite in_flat_map. intros [i [_ H]].
  destruct (nth_error l i) eqn:E; [| destruct H].
  destruct H as [<- | []]. eapply nth_error_In; eassumption.
Qed.

Lemma filter_known_Forall (l : list Coerced) :
  Forall (fun r => Year_known r = true) (filter Year_known l).
Proof. apply Forall_forall. intros r Hr. now apply filter_In in Hr. Qed.

(** Dropping and sorting the object, then reading the series, is sorting
    the series read before. *)
Lemma series_sort_dropna (K : SortKind) (g : Frame) :
  series_of (sort_frame (dropna_frame g))
  = sort_values (dropna_Year (map (coerced_of_row (fcols g)) (frows g))).
Proof.
  unfold series_of, sort_frame, dropna_frame, select. cbn [fcols frows].
  set (cols := fcols g).
  set (known := fun r : nat * list cell =>
                  match Year_number cols (snd r) with Some _ => true | None => false end).
  set (rows := filter known (frows g)).
  assert (Hrows : map (coerced_of_row cols) rows
                  = filter Year_known (map (coerced_of_row cols) (frows g))).
  { unfold rows. now rewrite filter_map_comm. }
  assert (Hkeys : map (fun r => match Year_number cols (snd r) with
                                | Some y => y
                                | None => 0%Q
                                end) rows
                  = map Year (dropna_Year (map (coerced_of_row cols) (frows g)))).
  { rewrite <- dropna_filter_known, <- Hrows.
    rewrite dropna_known by (rewrite Hrows; apply filter_known_Forall).
    now rewrite !map_map. }
  rewrite Hkeys. unfold sort_values.
  set (ixs := argsort (map Year (dropna_Year (map (coerced_of_row cols) (frows g))))).
  rewrite <- take_map.
  rewrite dropna_known.
  - rewrite <- take_map. f_equal.
    rewrite <- dropna_known by (rewrite Hrows; apply filter_known_Forall).
    now rewrite Hrows, dropna_filter_known.
  - apply Forall_forall. intros r Hr. apply take_In in Hr.
    rewrite Hrows in Hr. now apply filter_In in Hr.
Qed.

(** The object model and the record model of the reshaper agree. *)
Lemma reshape_frame_series (K : SortKind) (df_raw : DataFrame) (sel : Selection) :
  (is_wide df_raw = true ->
     ~ In "Year" (columns df_raw) /\ ~ In "Value" (columns df_raw)) ->
  match reshape_frame (is_wide df_raw) (year_cols df_raw) sel (frame_of df_raw) with
  | Done f => reshape df_raw sel = Done (series_of f)
  | Stopped why => reshape df_raw sel = Stopped why
  end.
Proof.
  intros Hnames. unfold reshape_frame, reshape, coerced_slice, frame_of.
  cbv zeta. unfold select. cbn [fcols frows].
  change (filter (fun r => matches (columns df_raw) sel (snd r)) (labelled df_raw))
    with (sub df_raw sel).
  destruct (is_wide df_raw) eqn:Ew.
  - destruct (selected_year_cols (columns df_raw) (yr sel)) as [| c selected] eqn:Es;
      [reflexivity |].
    cbn [bind]. rewrite series_sort_dropna. do 3 f_equal.
    rewrite !with_column_to_numeric. unfold melt_frame. cbn [fcols frows].
    rewrite !map_map.
    apply map_ext_in. intros m Hm.
    destruct (melt_records _ _ _ _ _ Hm) as [row Hrow].
    destruct (Hnames eq_refl) as [Hy Hv].
    destruct m as [i k v x]. cbn [m_label m_ids variable value] in *.
    inversion Hrow; subst k x. clear Hrow Hm.
    symmetry. apply coerced_in_place_wide.
    + intros H. apply filter_In in H as [H _]. contradiction.
    + intros H. apply filter_In in H as [H _]. contradiction.
  - cbn [bind]. rewrite series_sort_dropna. do 3 f_equal.
    rewrite !with_column_to_numeric. cbn [fcols frows].
    set (cols := columns df_raw).
    rewrite (map_map (coerce_in_place cols "Year")).
    rewrite (filter_map_comm
               (fun r => coerce_in_place cols "Value" (coerce_in_place cols "Year" r))).
    rewrite map_map.
    rewrite (filter_map_comm (coerce_long cols)).
    rewrite (map_ext _ _ (coerced_in_place_long cols)).
    f_equal. apply filter_ext. intros r.
    rewrite in_range_coerce_long. unfold Year_number, Year_of.
    pose proof (coerced_in_place_long cols r) as H.
    apply (f_equal c_Year) in H. cbn [c_Year coerced_of_row coerce_long] in H.
    now rewrite H.
Qed.

(** ** Reruns *)

Lemma map_snd_combine {A B : Type} (ks : list A) (l : list B) :
  List.length ks = List.length l -> map snd (combine ks l) = l.
Proof.
  revert ks. induction l as [| x l IH]; intros [| k ks] H; simpl in *;
    try discriminate; try reflexivity.
  f_equal. apply IH. lia.
Qed.

Lemma table_of_frame_of (df : DataFrame) : table_of (frame_of df) = df.
Proof.
  destruct df as [cols rows]. unfold table_of, frame_of, labelled.
  cbn [fcols frows columns data]. f_equal.
  apply map_snd_combine, length_seq.
Qed.

Lemma frame_of_table_of (f : Frame) (df : DataFrame) : f = frame_of df -> table_of f = df.
Proof. intros ->. apply table_of_frame_of. Qed.

(** A rerun from a session whose memo already holds the path: the memo is
    kept, no object that existed changes, and the outcome is that of the
    checks and of [reshape_frame] on the memoised object. *)
Lemma rerun_hit (K : SortKind) (read_csv : string -> option DataFrame)
      (sel : Selection) (s0 : Session) (r : nat) :
  lookup "EdStatsData.csv" (cache s0) = Some r ->
  (r < List.length (store s0))%nat ->
  cache s0 = cache (snd (rerun read_csv sel s0))
  /\ (List.length (store s0) <= List.length (store (snd (rerun read_csv sel s0))))%nat
  /\ (forall r', (r' < List.length (store s0))%nat ->
         deref (store (snd (rerun read_csv sel s0))) r' = deref (store s0) r')
  /\ fst (rerun read_csv sel s0)
     = (_ <- validate (table_of (deref (store s0) r)) ;;
        f <- reshape_frame (is_wide (table_of (deref (store s0) r)))
                           (year_cols (table_of (deref (store s0) r)))
                           sel (deref (store s0) r) ;;
        Done (series_of f)).
Proof.
  intros Hl Hr. unfold rerun, load_raw. rewrite Hl.
  set (raw := table_of (deref (store s0) r)).
  destruct (validate raw) as [[] | why]; cbn [bind].
  - destruct (lines_57_80_run K (is_wide raw) (year_cols raw) sel r (store s0) Hr)
      as [st [Hsame [Hlen Hrun]]].
    destruct (reshape_frame (is_wide raw) (year_cols raw) sel (deref (store s0) r))
      as [f | why]; cbn [bind].
    + destruct Hrun as [q [Hq Hf]]. rewrite Hq. cbn [fst snd store cache].
      rewrite Hf. auto.
    + rewrite Hrun. cbn [fst snd store cache]. auto.
  - cbn [fst snd]. auto.
Qed.

(** The first rerun loads the table; from there on it is a rerun from the
    session that holds it. *)
Lemma rerun_miss (K : SortKind) (read_csv : string -> option DataFrame)
      (sel : Selection) (s : Session) (df : DataFrame) :
  lookup "EdStatsData.csv" (cache s) = None ->
  read_csv "EdStatsData.csv" = Some df ->
  rerun read_csv sel s
  = rerun read_csv sel
          (mkSession (store s ++ [frame_of df])%list
                     (("EdStatsData.csv", List.length (store s)) :: cache s)).
Proof.
  intros El Er. unfold rerun at 1 2, load_raw. rewrite El, Er.
  cbn [cache lookup]. rewrite String.eqb_refl. reflexivity.
Qed.

(** On the table it loads, a rerun returns what the checks and [reshape]
    return. *)
Lemma rerun_fresh (K : SortKind) (read_csv : string -> option DataFrame)
      (sel : Selection) (df : DataFrame) :
  read_csv "EdStatsData.csv" = Some df ->
  (is_wide df = true -> ~ In "Year" (columns df) /\ ~ In "Value" (columns df)) ->
  fst (rerun read_csv sel fresh) = (_ <- validate df ;; reshape df sel).
Proof.
  intros Er Hnames. rewrite (rerun_miss K read_csv sel fresh df eq_refl Er).
  cbn [store cache fresh app List.length].
  destruct (rerun_hit K read_csv sel
              (mkSession [frame_of df] [("EdStatsData.csv", 0%nat)]) 0%nat)
    as [_ [_ [_ Hout]]]; [reflexivity | simpl; lia |].
  rewrite Hout. cbn [store deref nth]. rewrite table_of_frame_of.
  destruct (validate df) as [[] | why]; cbn [bind]; [| reflexivity].
  pose proof (reshape_frame_series K df sel Hnames) as H.
  destruct (reshape_frame (is_wide df) (year_cols df) sel (frame_of df)); cbn [bind];
    now rewrite H.
Qed.

(** C8. Two consecutive reruns with the same selection, the second starting
    from the session the first one left, give the same long series (or stop
    for the same reason); the memo still names objects of the store, and the
    second rerun leaves every object the first one left, the loaded table
    among them, as it was. *)
Theorem rerun_same_series (K : SortKind) (read_csv : string -> option DataFrame)
        (sel : Selection) (s : Session) :
  cache_valid s ->
  fst (rerun read_csv sel (snd (rerun read_csv sel s))) = fst (rerun read_csv sel s)
  /\ cache_valid (snd (rerun read_csv sel s))
  /\ forall r,
       (r < List.length (store (snd (rerun read_csv sel s))))%nat ->
       deref (store (snd (rerun read_csv sel (snd (rerun read_csv sel s))))) r
       = deref (store (snd (rerun read_csv sel s))) r.
Proof.
  intros Hvalid.
  assert (Twice : forall s0 r,
            lookup "EdStatsData.csv" (cache s0) = Some r ->
            (r < List.length (store s0))%nat ->
            cache_valid s0 ->
            fst (rerun read_csv sel (snd (rerun read_csv sel s0)))
            = fst (rerun read_csv sel s0)
            /\ cache_valid (snd (rerun read_csv sel s0))
            /\ forall r',
                 (r' < List.length (store (snd (rerun read_csv sel s0))))%nat ->
                 deref (store (snd (rerun read_csv sel (snd (rerun read_csv sel s0))))) r'
                 = deref (store (snd (rerun read_csv sel s0))) r').
  { intros s0 r Hl Hr Hv.
    destruct (rerun_hit K read_csv sel s0 r Hl Hr) as [Hc [Hlen [Hsame Hout]]].
    set (s1 := snd (rerun read_csv sel s0)) in *.
    assert (Hl1 : lookup "EdStatsData.csv" (cache s1) = Some r) by now rewrite <- Hc.
    assert (Hr1 : (r < List.length (store s1))%nat) by lia.
    destruct (rerun_hit K read_csv sel s1 r Hl1 Hr1) as [_ [_ [Hsame1 Hout1]]].
    split; [| split].
    - rewrite Hout1, Hout, (Hsame r Hr). reflexivity.
    - intros p q Hp. rewrite <- Hc in Hp. apply Hv in Hp. lia.
    - exact Hsame1. }
  destruct (lookup "EdStatsData.csv" (cache s)) as [r |] eqn:El.
  - apply (Twice s r El); [now apply (Hvalid _ _ El) | exact Hvalid].
  - destruct (read_csv "EdStatsData.csv") as [df |] eqn:Er.
    + rewrite (rerun_miss K read_csv sel s df El Er).
      apply (Twice _ (List.length (store s))).
      * cbn [cache lookup]. now rewrite String.eqb_refl.
      * cbn [store]. rewrite length_app. simpl. lia.
      * intros p q. cbn [cache lookup store].
        rewrite length_app. simpl.
        destruct (String.eqb p "EdStatsData.csv").
        -- intros H. inversion H. lia.
        -- intros H. apply Hvalid in H. lia.
    + assert (E : rerun read_csv sel s = (Stopped IOError, s)).
      { unfold rerun, load_raw. now rewrite El, Er. }
      rewrite E. cbn [fst snd]. rewrite E. cbn [fst snd]. auto.
Qed.

Lemma rerun_same_series_witness :
  cache_valid fresh
  /\ fst (@rerun quicksort_kind (fun _ => Some two_series_table) (pick "A" "I" 2000 2009)
                 (snd (@rerun quicksort_kind (fun _ => Some two_series_table)
                              (pick "A" "I" 2000 2009) fresh)))
     = fst (@rerun quicksort_kind (fun _ => Some two_series_table)
                   (pick "A" "I" 2000 2009) fresh).
Proof.
  assert (H : cache_valid fresh) by (intros p r Hp; discriminate Hp).
  split; [exact H |].
  exact (proj1 (rerun_same_series quicksort_kind (fun _ => Some two_series_table)
                                  (pick "A" "I" 2000 2009) fresh H)).
Defined.

Example rerun_two_series :
  option_map (map label)
    (match fst (@rerun quicksort_kind (fun _ => Some two_series_table)
                       (pick "A" "I" 2000 2009) fresh) with
     | Done l => Some l
     | Stopped _ => None
     end)
  = Some [0; 10; 1; 11; 2; 12; 3; 13; 4; 14; 5; 15; 6; 16; 17; 7; 18; 8; 9; 19]%nat.
Proof. vm_compute. reflexivity. Qed.

(** * Analytics *)

(** C1, amended. With at least two rows that have a Value, not all of them of
    Year 0 (the case in which [np.polyfit] has no solution), the forecast is
    a chart of exactly ten records; their years are the consecutive integers
    that follow the integer part of the largest Year of the cleaned series
    (that Year itself when it is an integer), and each prediction is
    [m * Year + b] for the least-squares line [(m, b)] through the cleaned
    (Year, Value) points. *)
Theorem forecast_ten_years (sub_long : list LongRecord) :
  (2 <= List.length (clean sub_long))%nat ->
  (exists r, In r (clean sub_long) /\ ~ (Year r == 0)%Q) ->
  let cl := clean sub_long in
  let m := fst (polyfit1 (points cl)) in
  let b := snd (polyfit1 (points cl)) in
  let last := Numeric.py_int (Year_max cl) in
  fit_fails sub_long = false
  /\ exists recs,
    forecast_panel sub_long = Chart recs
    /\ List.length recs = 10%nat
    /\ (forall i, (i < 10)%nat ->
          nth_error recs i
          = Some (mkPrediction (last + 1 + Z.of_nat i)
                               (m * inject_Z (last + 1 + Z.of_nat i) + b)%Q))
    /\ least_squares_fit (points cl) m b
    /\ (exists r, In r cl /\ Year r = Year_max cl)
    /\ (forall r, In r cl -> (Year r <= Year_max cl)%Q)
    /\ (forall z, (Year_max cl == inject_Z z)%Q -> last = z).
Proof.
  intros Hlen [r0 [Hr0 Hy0]] cl m b last. split.
  { unfold fit_fails. apply andb_false_iff. right.
    destruct (forallb _ (clean sub_long)) eqn:E; [| reflexivity].
    rewrite forallb_forall in E. specialize (E r0 Hr0).
    apply Qeq_bool_iff in E. now elim Hy0. }
  unfold forecast_panel. fold cl.
  destruct (Nat.leb_spec 2 (List.length cl)) as [_ | Hlt]; [| unfold cl in Hlt; lia].
  destruct (polyfit1 (points cl)) as [m0 b0] eqn:Ep.
  fold last. subst m b. cbn [fst snd].
  eexists. split; [reflexivity |].
  assert (Hcl : cl <> []) by (intros E; unfold cl in *; rewrite E in Hlen; simpl in Hlen; lia).
  split; [| split; [| split; [| split; [| split]]]].
  - rewrite length_map, range_length. lia.
  - intros i Hi. rewrite nth_error_map, range_nth by lia. reflexivity.
  - pose proof (polyfit1_least_squares (points cl)) as H. now rewrite Ep in H.
  - apply (Year_max_spec cl Hcl).
  - apply (Year_max_spec cl Hcl).
  - intros z Hz. now apply py_int_inject_Z.
Qed.

Lemma forecast_ten_years_witness :
  (2 <= List.length (clean two_points))%nat
  /\ (exists r, In r (clean two_points) /\ ~ (Year r == 0)%Q)
  /\ exists recs, forecast_panel two_points = Chart recs
                  /\ List.length recs = 10%nat
                  /\ map p_Year recs
                     = [2003; 2004; 2005; 2006; 2007; 2008; 2009; 2010; 2011; 2012].
Proof.
  assert (H : (2 <= List.length (clean two_points))%nat) by (vm_compute; lia).
  assert (H0 : exists r, In r (clean two_points) /\ ~ (Year r == 0)%Q).
  { exists (mkLongRecord 0 [] (2000 # 1) (Some (10 # 1))).
    split; [now left | vm_compute; discriminate]. }
  split; [exact H |]. split; [exact H0 |].
  destruct (forecast_ten_years two_points H H0) as [_ [recs [Hp [Hl _]]]].
  exists recs. split; [exact Hp |]. split; [exact Hl |].
  vm_compute in Hp. inversion Hp. reflexivity.
Defined.

(** C1 as stated fails: with Years 1999 and 2000.5 in the cleaned series the
    forecast starts at 2001, which is not the largest Year plus one. *)
Lemma forecast_start_after_fractional_year :
  year_bounds half_year_table = Done (1999, 2005)
  /\ exists l recs,
       @reshape stable_kind half_year_table (pick "A" "I" 1999 2005) = Done l
       /\ map Year (clean l) = [1999 # 1; 20005 # 10]
       /\ Year_max (clean l) = 20005 # 10
       /\ forecast_panel l = Chart recs
       /\ map p_Year recs
          = [2001; 2002; 2003; 2004; 2005; 2006; 2007; 2008; 2009; 2010]
       /\ ~ (inject_Z 2001 == Year_max (clean l) + 1)%Q.
Proof.
  split; [reflexivity |].
  eexists. eexists. split; [vm_compute; reflexivity |].
  split; [reflexivity |]. split; [reflexivity |].
  split; [vm_compute; reflexivity |]. split; [reflexivity |].
  vm_compute. discriminate.
Qed.

(** In exact arithmetic the fit through points of [y = 2 x + 3] is that line,
    and the ten predictions lie on it.  (What numpy's floating-point solver
    returns for the same points is not a statement of this model.) *)
Example exact_line_fit :
  (fst (polyfit1 (points (clean on_line))) == 2)%Q
  /\ (snd (polyfit1 (points (clean on_line))) == 3)%Q
  /\ exists recs,
       forecast_panel on_line = Chart recs
       /\ map p_Year recs = [2011; 2012; 2013; 2014; 2015; 2016; 2017; 2018; 2019; 2020]
       /\ forallb (fun p => Qeq_bool (Predicted p) (2 * inject_Z (p_Year p) + 3)) recs
          = true.
Proof.
  split; [vm_compute; reflexivity |]. split; [vm_compute; reflexivity |].
  eexists. split; [vm_compute; reflexivity |]. split; vm_compute; reflexivity.
Qed.

(** The run with every Year of the cleaned series 0: the fit of line 95 has
    no solution and the run ends there. *)
Example fit_of_year_zero :
  @script stable_kind
          (mkDataFrame long_cols
             [long_row "A" "I" (CNum (0 # 1)) (CNum (1 # 1));
              long_row "A" "I" (CNum (0 # 1)) (CNum (2 # 1))])
          (pick "A" "I" 0 0)
  = Stopped LinAlgError.
Proof. vm_compute. reflexivity. Qed.



Lemma count_where_length (p : LongRecord -> bool) (l : list LongRecord) :
  count_where p l = Z.of_nat (List.length (filter p l)).
Proof.
  induction l as [| r l IH]; cbn [count_where filter]; [reflexivity |].
  destruct (p r); [cbn [List.length]; lia | exact IH].
Qed.

Lemma count_where_both (p q : LongRecord -> bool) (l : list LongRecord) :
  count_where (fun r => p r && q r) l
  = Z.of_nat (List.length (filter q (filter p l))).
Proof.
  induction l as [| r l IH]; cbn [count_where filter]; [reflexivity |].
  destruct (p r); cbn [andb filter]; [| exact IH].
  destruct (q r); [cbn [List.length]; lia | exact IH].
Qed.

Lemma count_where_pos (p : LongRecord -> bool) (l : list LongRecord) (r : LongRecord) :
  In r l -> p r = true -> 0 < count_where p l.
Proof.
  intros Hr Hp. rewrite count_where_length.
  assert (H : In r (filter p l)) by (apply filter_In; now split).
  destruct (filter p l); [destruct H | cbn [List.length]; lia].
Qed.

Lemma isna_without_Value (r : LongRecord) : isna r = without_Value r.
Proof. unfold isna, has_Value, without_Value. now destruct (Value r). Qed.

(** A row of the table of lines 108-112, read against the series. *)
Lemma counts_row (l : list LongRecord) (g : YearCount) :
  In g (counts l) ->
  (exists r, In r l /\ Year r = g_Year g)
  /\ total g = count_where (of_Year (g_Year g)) l
  /\ missing g = count_where (fun r => of_Year (g_Year g) r && without_Value r) l
  /\ 0 < total g
  /\ missing_rate g = (inject_Z (missing g) / inject_Z (total g))%Q.
Proof.
  intros Hg. destruct (group_keys_spec l) as [K1 _].
  unfold counts in Hg. apply in_map_iff in Hg as [k [<- Hk]].
  cbn [total missing missing_rate g_Year].
  destruct (K1 k Hk) as [r [Hr Hy]].
  assert (Ht : Z.of_nat (List.length (group l k)) = count_where (of_Year k) l).
  { rewrite count_where_length. reflexivity. }
  assert (Hpos : 0 < Z.of_nat (List.length (group l k))).
  { rewrite Ht. apply (count_where_pos _ l r Hr).
    unfold of_Year. apply Qeq_bool_iff. rewrite Hy. reflexivity. }
  split; [now exists r |]. split; [exact Ht |]. split; [| split; [exact Hpos |]].
  - rewrite count_where_both. unfold group.
    do 2 f_equal. apply filter_ext. exact isna_without_Value.
  - unfold missing_rate_of.
    destruct (Z.ltb_spec 0 (Z.of_nat (List.length (group l k)))); [reflexivity | lia].
Qed.

Lemma counts_Years (l : list LongRecord) : map g_Year (counts l) = group_keys l.
Proof. unfold counts. rewrite map_map. cbn [g_Year]. apply map_id. Qed.

(** Lines 108-112 give the completeness table of the spec. *)
Lemma counts_completeness (l : list LongRecord) : completeness_of l (counts l).
Proof.
  destruct (group_keys_spec l) as [_ [K2 K3]].
  split; [| split].
  - now rewrite counts_Years.
  - intros r Hr. destruct (K2 r Hr) as [k [Hk Hy]].
    rewrite <- counts_Years in Hk. apply in_map_iff in Hk as [g [<- Hg]].
    now exists g.
  - intros g Hg. destruct (counts_row l g Hg) as [[r [Hr Hy]] [Ht [Hm [_ Hq]]]].
    split; [exists r; split; [exact Hr | now rewrite Hy] |].
    split; [exact Ht |]. split; [exact Hm |]. now rewrite Hq.
Qed.




(** C5. The completeness table has one row for each Year of the series and
    no other, in ascending order of Year.  For every row, [total] is the
    number of records of the series with that Year and is positive,
    [missing] is the number of those without a Value, [missing_rate] is
    [missing / total] and lies between 0 and 1; the rate formula of line 112
    divides only by a positive [total] and answers 0 otherwise. *)
Theorem completeness_by_year (sub_long : list LongRecord) :
  (forall r, In r sub_long ->
     exists g, In g (counts sub_long) /\ (g_Year g == Year r)%Q)
  /\ StronglySorted Qlt (map g_Year (counts sub_long))
  /\ (forall g, In g (counts sub_long) ->
        (exists r, In r sub_long /\ Year r = g_Year g)
        /\ total g = count_where (of_Year (g_Year g)) sub_long
        /\ missing g
           = count_where (fun r => of_Year (g_Year g) r && without_Value r) sub_long
        /\ 0 <= missing g <= total g
        /\ 0 < total g
        /\ missing_rate g = missing_rate_of (total g) (missing g)
        /\ missing_rate g = (inject_Z (missing g) / inject_Z (total g))%Q
        /\ (0 <= missing_rate g <= 1)%Q)
  /\ (forall total missing,
        (0 < total ->
           missing_rate_of total missing = (inject_Z missing / inject_Z total)%Q)
        /\ (total <= 0 -> missing_rate_of total missing = 0%Q)).
Proof.
  destruct (counts_completeness sub_long) as [Hsorted [Hcover _]].
  split; [exact Hcover |]. split; [exact Hsorted |]. split.
  - intros g Hg. destruct (counts_row sub_long g Hg) as [Hr [Ht [Hm [Hpos Hq]]]].
    assert (Hle : 0 <= missing g <= total g).
    { rewrite Hm, Ht, count_where_both, count_where_length.
      pose proof (filter_length_le without_Value (filter (of_Year (g_Year g)) sub_long)).
      lia. }
    split; [exact Hr |]. split; [exact Ht |]. split; [exact Hm |].
    split; [exact Hle |]. split; [exact Hpos |]. split; [| split; [exact Hq |]].
    + rewrite Hq. unfold missing_rate_of.
      destruct (Z.ltb_spec 0 (total g)); [reflexivity | lia].
    + rewrite Hq. apply ratio_bounds; [exact Hle | exact Hpos].
  - intros total missing. unfold missing_rate_of.
    destruct (Z.ltb_spec 0 total); split; intros; (reflexivity || lia).
Qed.

(** The spec scenario: the year without a value has rate 1. *)
Example completeness_scenario :
  counts [mkLongRecord 0 [] (2000 # 1) (Some (10 # 1));
          mkLongRecord 1 [] (2001 # 1) None;
          mkLongRecord 2 [] (2002 # 1) (Some (30 # 1))]
  = [mkYearCount (2000 # 1) 1 0 (0 # 1);
     mkYearCount (2001 # 1) 1 1 (1 # 1);
     mkYearCount (2002 # 1) 1 0 (0 # 1)].
Proof. reflexivity. Qed.

(** The spec scenario of the wide table, end to end. *)
Example wide_scenario :
  exists d,
    @script stable_kind wide_table (pick "A" "I" 2000 2002) = Done d
    /\ map (fun r => (Year r, Value r)) (trend d)
       = [(2000 # 1, Some (10 # 1)); (2001 # 1, None); (2002 # 1, Some (30 # 1))]
    /\ map (fun g => (g_Year g, total g, missing g, missing_rate g)) (completeness d)
       = [(2000 # 1, 1, 0, 0 # 1); (2001 # 1, 1, 1, 1 # 1); (2002 # 1, 1, 0, 0 # 1)].
Proof. eexists. split; [vm_compute; reflexivity |]. split; reflexivity. Qed.

(** * Sanity checks and slider bounds *)

(** X2. The outcome of the sanity checks of lines 21-32: they pass exactly when
    every column the detected shape needs is there; otherwise the run stops
    with the needed columns that are absent (and only those, at least one)
    and the first 30 column names. *)
Theorem validate_reports_missing_columns (df_raw : DataFrame) :
  match validate df_raw with
  | Done _ => forall c, In c (needed (is_wide df_raw)) -> In c (columns df_raw)
  | Stopped why =>
      exists miss,
        why = SchemaError miss (firstn 30 (columns df_raw))
        /\ miss <> []
        /\ (forall c, In c miss <->
                      In c (needed (is_wide df_raw)) /\ ~ In c (columns df_raw))
  end.
Proof.
  unfold validate.
  assert (Hin : forall c,
             In c (filter (fun c => negb (has_col (columns df_raw) c))
                          (needed (is_wide df_raw)))
             <-> In c (needed (is_wide df_raw)) /\ ~ In c (columns df_raw)).
  { intros c. rewrite filter_In, negb_true_iff, <- not_true_iff_false, has_col_In.
    tauto. }
  destruct (filter _ (needed (is_wide df_raw))) as [| m miss] eqn:E.
  - intros c Hc.
    destruct (has_col (columns df_raw) c) eqn:Hh; [now apply has_col_In |].
    exfalso. apply (proj2 (Hin c)).
    split; [exact Hc |]. rewrite <- has_col_In. congruence.
  - exists (m :: miss). split; [reflexivity |]. split; [discriminate |]. exact Hin.
Qed.

Lemma digits_val_total (s : string) (acc : Z) :
  Text.all_chars Text.is_digit_char s = true ->
  exists v, Text.digits_val s acc = Some v.
Proof.
  revert acc. induction s as [| c s IH]; intros acc H; cbn [Text.digits_val].
  - now exists acc.
  - cbn [Text.all_chars] in H. apply andb_true_iff in H. destruct H as [Hc Hs].
    rewrite Hc. now apply IH.
Qed.

Lemma lstrip_by_ext (p q : ascii -> bool) (s : string) :
  (forall a, In a (list_ascii_of_string s) -> p a = q a) ->
  Text.lstrip_by p s = Text.lstrip_by q s.
Proof.
  induction s as [| c s IH]; intros H; [reflexivity |].
  simpl. rewrite <- (H c (or_introl eq_refl)).
  destruct (p c); [apply IH; intros a Ha; apply H; now right | reflexivity].
Qed.

Lemma rstrip_by_ext (p q : ascii -> bool) (s : string) :
  (forall a, In a (list_ascii_of_string s) -> p a = q a) ->
  Text.rstrip_by p s = Text.rstrip_by q s.
Proof.
  induction s as [| c s IH]; intros H; [reflexivity |].
  simpl. rewrite <- (IH (fun a Ha => H a (or_intror Ha))).
  now rewrite <- (H c (or_introl eq_refl)).
Qed.

Lemma strip_by_ext (p q : ascii -> bool) (s : string) :
  (forall a, In a (list_ascii_of_string s) -> p a = q a) ->
  Text.strip_by p s = Text.strip_by q s.
Proof.
  intros H. unfold Text.strip_by. rewrite (lstrip_by_ext p q s H).
  apply rstrip_by_ext. intros a Ha. apply H. now apply (lstrip_by_In q).
Qed.

Lemma plain_name_ascii (c : string) : plain_name c = true -> is_ascii c = true.
Proof.
  apply all_chars_impl.
  intros [[] [] [] [] [] [] [] []] H; try discriminate H; reflexivity.
Qed.

Lemma plain_name_spaces (c : string) (a : ascii) :
  plain_name c = true -> In a (list_ascii_of_string c) ->
  Text.ascii_space a = Text.c_space a.
Proof.
  unfold plain_name. rewrite all_chars_forall. intros H Ha. specialize (H a Ha).
  revert H. clear. destruct a as [[] [] [] [] [] [] [] []]; intros H;
    try discriminate H; reflexivity.
Qed.

(** [int] reads a year column of plain name. *)
Lemma year_col_int (c : string) :
  plain_name c = true -> is_year_col c = true ->
  exists y, Text.int_of_str c = Some y /\ 0 <= y.
Proof.
  intros Hp H. pose proof (plain_name_ascii c Hp) as Ha.
  rewrite (is_year_col_ascii c Ha) in H.
  rewrite (strip_by_ext _ Text.c_space c (fun a => plain_name_spaces c a Hp)) in H.
  assert (E : Text.int_of_str c = Text.digits_val (Text.strip_by Text.c_space c) 0).
  { rewrite (int_of_str_ascii c Ha). cbv zeta. now rewrite H. }
  destruct (digits_val_total (Text.strip_by Text.c_space c) 0 (isdigit_all_chars _ H))
    as [v Hv].
  exists v. split; [congruence |].
  apply (int_of_str_nonneg c). congruence.
Qed.

Lemma all_some_Some {A : Type} (l : list (option A)) (xs : list A) :
  all_some l = Some xs -> forall o, In o l -> exists x, o = Some x.
Proof.
  revert xs. induction l as [| [a |] l IH]; intros xs E o Ho; cbn [all_some] in E.
  - destruct Ho.
  - destruct (all_some l) as [ys |] eqn:El; [| discriminate].
    destruct Ho as [<- | Ho]; [now exists a | now apply (IH ys)].
  - discriminate.
Qed.

Lemma all_some_map {A B : Type} (f : A -> option B) (l : list A) :
  (forall a, In a l -> exists b, f a = Some b) ->
  exists bs, all_some (map f l) = Some bs /\ map f l = map Some bs.
Proof.
  induction l as [| a l IH]; intros H; cbn [map all_some].
  - now exists [].
  - destruct (H a (or_introl eq_refl)) as [b Hb].
    destruct IH as [bs [E1 E2]]; [intros x Hx; apply H; now right |].
    rewrite Hb, E1. exists (b :: bs). cbn [option_map map]. now rewrite E2.
Qed.

Lemma fold_Zmin_spec (l : list Z) (x : Z) :
  In (fold_left Z.min l x) (x :: l)
  /\ Forall (fun y => fold_left Z.min l x <= y) (x :: l).
Proof.
  revert x. induction l as [| a l IH]; intros x; cbn [fold_left].
  - split; [now left | constructor; [lia | constructor]].
  - destruct (IH (Z.min x a)) as [Hin Hall]. split.
    + destruct Hin as [E | Hin].
      * rewrite <- E. destruct (Z.min_spec x a) as [[_ M] | [_ M]]; rewrite M;
          [now left | right; now left].
      * right. now right.
    + inversion Hall as [| ? ? H1 H2]; subst.
      constructor; [lia |]. constructor; [lia | exact H2].
Qed.

Lemma fold_Zmax_spec (l : list Z) (x : Z) :
  In (fold_left Z.max l x) (x :: l)
  /\ Forall (fun y => y <= fold_left Z.max l x) (x :: l).
Proof.
  revert x. induction l as [| a l IH]; intros x; cbn [fold_left].
  - split; [now left | constructor; [lia | constructor]].
  - destruct (IH (Z.max x a)) as [Hin Hall]. split.
    + destruct Hin as [E | Hin].
      * rewrite <- E. destruct (Z.max_spec x a) as [[_ M] | [_ M]]; rewrite M;
          [right; now left | now left].
      * right. now right.
    + inversion Hall as [| ? ? H1 H2]; subst.
      constructor; [lia |]. constructor; [lia | exact H2].
Qed.

(** The wide bounds, when [int] reads every year column: both are the
    integer of a year column, and the integer of every year column lies
    between them. *)
Lemma year_bounds_wide_spec (df : DataFrame) :
  is_wide df = true ->
  (forall c, In c (year_cols df) -> exists y, Text.int_of_str c = Some y) ->
  exists lo hi,
    year_bounds df = Done (lo, hi)
    /\ 0 <= lo
    /\ (exists c, In c (year_cols df) /\ Text.int_of_str c = Some lo)
    /\ (exists c, In c (year_cols df) /\ Text.int_of_str c = Some hi)
    /\ (forall c, In c (year_cols df) ->
          exists y, Text.int_of_str c = Some y /\ lo <= y <= hi).
Proof.
  intros Hw Hread. unfold year_bounds. rewrite Hw.
  destruct (all_some_map Text.int_of_str (year_cols df) Hread) as [ys [E1 E2]].
  rewrite E1.
  assert (Hmem : forall y, In y ys <->
                           exists c, In c (year_cols df) /\ Text.int_of_str c = Some y).
  { intros y. split.
    - intros Hy. apply (in_map Some) in Hy. rewrite <- E2 in Hy.
      apply in_map_iff in Hy. destruct Hy as [c [Hc Hin]]. now exists c.
    - intros [c [Hin Hc]].
      assert (H : In (Some y) (map Some ys)).
      { rewrite <- E2, <- Hc. now apply in_map. }
      apply in_map_iff in H. destruct H as [y' [Ey Hy]]. congruence. }
  destruct ys as [| y0 ys].
  - exfalso. apply is_wide_exists in Hw. destruct Hw as [c Hc].
    assert (H : In c (year_cols df)) by exact Hc.
    apply (in_map Text.int_of_str) in H. rewrite E2 in H. exact H.
  - cbn [Zmin_list Zmax_list].
    destruct (fold_Zmin_spec ys y0) as [Hmin_in Hmin_all].
    destruct (fold_Zmax_spec ys y0) as [Hmax_in Hmax_all].
    exists (fold_left Z.min ys y0), (fold_left Z.max ys y0).
    split; [reflexivity |].
    rewrite Forall_forall in Hmin_all, Hmax_all.
    split.
    { apply Hmem in Hmin_in. destruct Hmin_in as [c [Hc Hi]].
      now apply (int_of_str_nonneg c). }
    split; [now apply Hmem |]. split; [now apply Hmem |].
    intros c Hc. destruct (Hread c Hc) as [y Hy].
    exists y. split; [exact Hy |].
    assert (Hin : In y (y0 :: ys)) by (apply Hmem; now exists c).
    split; [now apply Hmin_all | now apply Hmax_all].
Qed.

(** The wide bounds are computed only when [int] reads every year column. *)
Lemma year_bounds_wide_read (df : DataFrame) (bounds : Z * Z) :
  is_wide df = true -> year_bounds df = Done bounds ->
  forall c, In c (year_cols df) -> exists y, Text.int_of_str c = Some y.
Proof.
  intros Hw E c Hc. unfold year_bounds in E. rewrite Hw in E.
  destruct (all_some (map Text.int_of_str (year_cols df))) as [ys |] eqn:Ea;
    [| discriminate].
  apply (all_some_Some _ ys Ea). now apply in_map.
Qed.

Lemma year_bounds_wide_unread (df : DataFrame) (c : string) :
  is_wide df = true -> In c (year_cols df) -> Text.int_of_str c = None ->
  year_bounds df = Stopped ValueError.
Proof.
  intros Hw Hc Hn. unfold year_bounds. rewrite Hw.
  destruct (all_some (map Text.int_of_str (year_cols df))) as [ys |] eqn:Ea;
    [| reflexivity].
  destruct (all_some_Some _ ys Ea (Text.int_of_str c)) as [y Hy];
    [now apply in_map | congruence].
Qed.

(** X5. The slider bounds of lines 46-47 for a Wide table whose year columns
    have names of at most 4300 bytes (the longest run of digits [int] accepts
    by default).  Line 17 and line 46 do not read a name alike: [str.strip]
    removes the separators FS, GS, RS and US, which [int] does not skip, and
    [str.isdigit] accepts digits that [int] does not read.  When [int] reads
    every year column (as it does when every name has characters below 128
    only and none of these separators) the bounds are computed: both are the
    integer of some year column, they are not negative, and the integer of
    every year column lies between them.  When [int] fails on one, the run
    stops with ValueError; the name 2000 after FS and the superscript two are
    such year columns. *)
Theorem year_bounds_wide (df_raw : DataFrame) :
  detectShape df_raw = Wide ->
  (forall c, In c (year_cols df_raw) -> (String.length c <= 4300)%nat) ->
  ((forall c, In c (year_cols df_raw) -> plain_name c = true) ->
   forall c, In c (year_cols df_raw) -> exists y, Text.int_of_str c = Some y)
  /\ ((forall c, In c (year_cols df_raw) -> exists y, Text.int_of_str c = Some y) ->
      exists lo hi,
        year_bounds df_raw = Done (lo, hi)
        /\ 0 <= lo <= hi
        /\ (exists c, In c (year_cols df_raw) /\ Text.int_of_str c = Some lo)
        /\ (exists c, In c (year_cols df_raw) /\ Text.int_of_str c = Some hi)
        /\ (forall c, In c (year_cols df_raw) ->
              exists y, Text.int_of_str c = Some y /\ lo <= y <= hi))
  /\ ((exists c, In c (year_cols df_raw) /\ Text.int_of_str c = None) ->
      year_bounds df_raw = Stopped ValueError)
  /\ (is_year_col separator_2000 = true /\ Text.int_of_str separator_2000 = None)
  /\ (is_year_col superscript_two = true /\ Text.int_of_str superscript_two = None).
Proof.
  intros Hs _. apply detectShape_Wide in Hs.
  split; [| split; [| split; [| split; split; reflexivity]]].
  - intros Hp c Hc.
    destruct (year_col_int c (Hp c Hc) (proj2 (proj1 (year_cols_In df_raw c) Hc)))
      as [y [Hy _]].
    now exists y.
  - intros Hread.
    destruct (year_bounds_wide_spec df_raw Hs Hread)
      as [lo [hi [E [Hlo [Hl [Hh Hall]]]]]].
    exists lo, hi. split; [exact E |]. split.
    + split; [exact Hlo |]. destruct Hl as [c [Hc Hi]].
      destruct (Hall c Hc) as [y [Hy Hb]]. lia.
    + repeat split; assumption.
  - intros [c [Hc Hn]]. now apply (year_bounds_wide_unread df_raw c).
Qed.

Lemma year_bounds_wide_witness :
  detectShape wide_table = Wide
  /\ (forall c, In c (year_cols wide_table) -> (String.length c <= 4300)%nat)
  /\ exists lo hi, year_bounds wide_table = Done (lo, hi) /\ 0 <= lo <= hi.
Proof.
  assert (Hs : detectShape wide_table = Wide) by reflexivity.
  assert (Hl : forall c, In c (year_cols wide_table) -> (String.length c <= 4300)%nat).
  { intros c Hc. simpl in Hc. destruct Hc as [<- | [<- | [<- | []]]]; simpl; lia. }
  split; [exact Hs |]. split; [exact Hl |].
  destruct (year_bounds_wide wide_table Hs Hl) as [Hp [Hb _]].
  destruct Hb as [lo [hi [E [Hb _]]]].
  - apply Hp. intros c Hc. simpl in Hc.
    destruct Hc as [<- | [<- | [<- | []]]]; reflexivity.
  - exists lo, hi. split; [exact E | exact Hb].
Defined.

Lemma rem_neg_bound (a b : Z) : a < 0 -> 0 < b -> - b < Z.rem a b <= 0.
Proof.
  intros Ha Hb.
  pose proof (Z.rem_bound_pos (- a) b ltac:(lia) Hb) as R.
  rewrite Z.rem_opp_l in R by lia. lia.
Qed.

Lemma py_int_le_Z (q : Q) (z : Z) : (q <= inject_Z z)%Q -> Numeric.py_int q <= z.
Proof.
  destruct q as [a b]. unfold Qle, Numeric.py_int. cbn [Qnum Qden inject_Z].
  intros H. rewrite Z.mul_1_r in H.
  pose proof (Z.quot_rem' a (Z.pos b)) as E.
  destruct (Z_le_gt_dec 0 a) as [Ha | Ha].
  - pose proof (Z.rem_bound_pos a (Z.pos b) Ha ltac:(lia)) as R. nia.
  - pose proof (rem_neg_bound a (Z.pos b) ltac:(lia) ltac:(lia)) as R. nia.
Qed.

Lemma py_int_ge_Z (q : Q) (z : Z) : (inject_Z z <= q)%Q -> z <= Numeric.py_int q.
Proof.
  destruct q as [a b]. unfold Qle, Numeric.py_int. cbn [Qnum Qden inject_Z].
  intros H. rewrite Z.mul_1_r in H.
  pose proof (Z.quot_rem' a (Z.pos b)) as E.
  destruct (Z_le_gt_dec 0 a) as [Ha | Ha].
  - pose proof (Z.rem_bound_pos a (Z.pos b) Ha ltac:(lia)) as R. nia.
  - pose proof (rem_neg_bound a (Z.pos b) ltac:(lia) ltac:(lia)) as R. nia.
Qed.

Lemma py_int_below (p : Q) : (0 <= p)%Q -> (inject_Z (Numeric.py_int p) <= p)%Q.
Proof.
  destruct p as [a b]. unfold Qle, Numeric.py_int. cbn [Qnum Qden inject_Z].
  intros H. rewrite Z.mul_1_r in *.
  pose proof (Z.quot_rem' a (Z.pos b)) as E.
  pose proof (Z.rem_bound_pos a (Z.pos b) ltac:(lia) ltac:(lia)) as R. nia.
Qed.

Lemma py_int_above (p : Q) : (p <= 0)%Q -> (p <= inject_Z (Numeric.py_int p))%Q.
Proof.
  destruct p as [a b]. unfold Qle, Numeric.py_int. cbn [Qnum Qden inject_Z].
  intros H. rewrite Z.mul_1_r in *.
  pose proof (Z.quot_rem' a (Z.pos b)) as E.
  destruct (Z.eq_dec a 0) as [-> | Hn].
  - rewrite Z.quot_0_l by lia. lia.
  - pose proof (rem_neg_bound a (Z.pos b) ltac:(lia) ltac:(lia)) as R. nia.
Qed.

Lemma py_int_mono (p q : Q) : (p <= q)%Q -> Numeric.py_int p <= Numeric.py_int q.
Proof.
  intros H.
  destruct (Qlt_le_dec p 0) as [Hp | Hp].
  - destruct (Qlt_le_dec 0 q) as [Hq | Hq].
    + assert (Numeric.py_int p <= 0) by (apply py_int_le_Z; change (inject_Z 0) with 0%Q; lra).
      assert (0 <= Numeric.py_int q) by (apply py_int_ge_Z; change (inject_Z 0) with 0%Q; lra).
      lia.
    + apply py_int_le_Z. pose proof (py_int_above q Hq). lra.
  - apply py_int_ge_Z. pose proof (py_int_below p Hp). lra.
Qed.

Lemma Qminb_le_l (a b : Q) : (Qminb a b <= a)%Q.
Proof.
  unfold Qminb. destruct (Qle_bool a b) eqn:E; [apply Qle_refl |].
  destruct (Qlt_le_dec a b) as [L | G]; [| exact G].
  apply Qlt_le_weak, Qle_bool_iff in L. congruence.
Qed.

Lemma Qminb_le_r (a b : Q) : (Qminb a b <= b)%Q.
Proof.
  unfold Qminb. destruct (Qle_bool a b) eqn:E; [now apply Qle_bool_iff | apply Qle_refl].
Qed.

Lemma Qminb_cases (a b : Q) : Qminb a b = a \/ Qminb a b = b.
Proof. unfold Qminb. destruct (Qle_bool a b); [now left | now right]. Qed.

Lemma fold_Qminb_spec (l : list Q) (x : Q) :
  In (fold_left Qminb l x) (x :: l)
  /\ Forall (fun y => (fold_left Qminb l x <= y)%Q) (x :: l).
Proof.
  revert x. induction l as [| a l IH]; intros x; cbn [fold_left].
  - split; [now left | constructor; [apply Qle_refl | constructor]].
  - destruct (IH (Qminb x a)) as [Hin Hall]. split.
    + destruct Hin as [E | Hin].
      * rewrite <- E. destruct (Qminb_cases x a) as [M | M]; rewrite M;
          [now left | right; now left].
      * right. now right.
    + inversion Hall as [| ? ? H1 H2]; subst.
      constructor; [eapply Qle_trans; [exact H1 | apply Qminb_le_l] |].
      constructor; [eapply Qle_trans; [exact H1 | apply Qminb_le_r] | exact H2].
Qed.

Lemma in_present (l : list (option Q)) (q : Q) :
  In q (flat_map (fun o => match o with Some q => [q] | None => [] end) l)
  <-> In (Some q) l.
Proof.
  rewrite in_flat_map. split.
  - intros [[x |] [Hin Hx]]; [| destruct Hx].
    destruct Hx as [-> | []]. exact Hin.
  - intros H. exists (Some q). split; [exact H | now left].
Qed.

(** [min()] and [max()] of a column: the least and the greatest of its
    numbers, and NaN exactly when it holds no number. *)
Lemma series_min_spec (l : list (option Q)) :
  match series_min l with
  | Some m => In (Some m) l /\ forall q, In (Some q) l -> (m <= q)%Q
  | None => forall q, ~ In (Some q) l
  end.
Proof.
  unfold series_min.
  pose proof (in_present l) as P.
  destruct (flat_map _ l) as [| x r].
  - intros q H. apply P in H. exact H.
  - destruct (fold_Qminb_spec r x) as [Hin Hall]. split.
    + now apply P.
    + intros q Hq. apply P in Hq. rewrite Forall_forall in Hall. now apply Hall.
Qed.

Lemma series_max_spec (l : list (option Q)) :
  match series_max l with
  | Some m => In (Some m) l /\ forall q, In (Some q) l -> (q <= m)%Q
  | None => forall q, ~ In (Some q) l
  end.
Proof.
  unfold series_max.
  pose proof (in_present l) as P.
  destruct (flat_map _ l) as [| x r].
  - intros q H. apply P in H. exact H.
  - destruct (fold_Qmaxb_spec r x) as [Hin Hall]. split.
    + now apply P.
    + intros q Hq. apply P in Hq. rewrite Forall_forall in Hall. now apply Hall.
Qed.

Lemma year_bounds_long_spec (df : DataFrame) :
  is_wide df = false ->
  ((forall row, In row (data df) -> Year_of (columns df) row = None) ->
     year_bounds df = Stopped ValueError)
  /\ (forall row0 y0,
        In row0 (data df) -> Year_of (columns df) row0 = Some y0 ->
        exists lo hi,
          year_bounds df = Done (lo, hi)
          /\ lo <= hi
          /\ forall row y z,
               In row (data df) -> Year_of (columns df) row = Some y ->
               (y == inject_Z z)%Q -> lo <= z <= hi).
Proof.
  intros Hw. unfold year_bounds. rewrite Hw.
  set (years := map (fun row => Numeric.to_numeric (cell_at (columns df) row "Year"))
                    (data df)).
  assert (Hy : forall q, In (Some q) years <->
                         exists row, In row (data df) /\ Year_of (columns df) row = Some q).
  { intros q. unfold years. rewrite in_map_iff. unfold Year_of.
    split; intros [row [A B]]; exists row; tauto. }
  pose proof (series_min_spec years) as Hmin.
  pose proof (series_max_spec years) as Hmax.
  split.
  - intros Hnone.
    destruct (series_min years) as [m |]; [| reflexivity].
    destruct Hmin as [Hin _]. apply Hy in Hin. destruct Hin as [row [Hr E]].
    rewrite (Hnone row Hr) in E. discriminate.
  - intros row0 y0 Hr0 E0.
    assert (H0 : In (Some y0) years) by (apply Hy; now exists row0).
    destruct (series_min years) as [m |]; [| now apply Hmin in H0].
    destruct (series_max years) as [M |]; [| now apply Hmax in H0].
    destruct Hmin as [_ Hmin]. destruct Hmax as [_ Hmax].
    exists (Numeric.py_int m), (Numeric.py_int M).
    split; [reflexivity |]. split.
    + apply py_int_mono. eapply Qle_trans; [apply (Hmin y0 H0) | apply (Hmax y0 H0)].
    + intros row y z Hr E Hz.
      assert (H : In (Some y) years) by (apply Hy; now exists row).
      split.
      * apply py_int_le_Z. rewrite <- Hz. now apply Hmin.
      * apply py_int_ge_Z. rewrite <- Hz. now apply Hmax.
Qed.

(** X6. The slider bounds of lines 49-50 for a Long table whose Year column
    holds numbers and missing values, no text.  They fail with ValueError
    when no Year cell of the table is a number ([int] of the NaN minimum); as
    soon as one is they are computed, in order, and every row whose Year is a
    whole number has it between the two bounds. *)
Theorem year_bounds_long (df_raw : DataFrame) :
  detectShape df_raw = Long ->
  validate df_raw = Done tt ->
  (forall row s, In row (data df_raw) ->
                 cell_at (columns df_raw) row "Year" <> CStr s) ->
  ((forall row, In row (data df_raw) -> Year_of (columns df_raw) row = None) ->
     year_bounds df_raw = Stopped ValueError)
  /\ (forall row0 y0,
        In row0 (data df_raw) -> Year_of (columns df_raw) row0 = Some y0 ->
        exists lo hi,
          year_bounds df_raw = Done (lo, hi)
          /\ lo <= hi
          /\ forall row y z,
               In row (data df_raw) -> Year_of (columns df_raw) row = Some y ->
               (y == inject_Z z)%Q -> lo <= z <= hi).
Proof.
  intros Hs _ _. apply detectShape_Long in Hs.
  destruct (year_bounds_long_spec df_raw Hs) as [Hnone Hsome].
  split; [exact Hnone | exact Hsome].
Qed.

Lemma year_bounds_long_witness :
  detectShape half_year_table = Long
  /\ validate half_year_table = Done tt
  /\ (forall row s, In row (data half_year_table) ->
                    cell_at (columns half_year_table) row "Year" <> CStr s)
  /\ exists lo hi, year_bounds half_year_table = Done (lo, hi) /\ lo <= hi.
Proof.
  assert (Hs : detectShape half_year_table = Long) by reflexivity.
  assert (Hn : forall row s, In row (data half_year_table) ->
                             cell_at (columns half_year_table) row "Year" <> CStr s).
  { intros row s Hr. simpl in Hr.
    repeat (destruct Hr as [<- | Hr]; [discriminate |]). destruct Hr. }
  split; [exact Hs |]. split; [reflexivity |]. split; [exact Hn |].
  destruct (year_bounds_long half_year_table Hs eq_refl Hn) as [_ H].
  destruct (H (long_row "A" "I" (CNum (1999 # 1)) (CNum (1 # 1))) (1999 # 1))
    as [lo [hi [E [Hb _]]]]; [now left | reflexivity |].
  exists lo, hi. split; [exact E | exact Hb].
Defined.

Lemma year_bounds_ordered (df : DataFrame) (bounds : Z * Z) :
  year_bounds df = Done bounds -> fst bounds <= snd bounds.
Proof.
  intros E. destruct (is_wide df) eqn:Hw.
  - destruct (year_bounds_wide_spec df Hw (year_bounds_wide_read df bounds Hw E))
      as [lo [hi [E' [_ [[c [Hc Hi]] [_ Hall]]]]]].
    destruct (Hall c Hc) as [y [Hy Hb]].
    rewrite E' in E. injection E as <-. cbn [fst snd]. lia.
  - destruct (year_bounds_long_spec df Hw) as [Hnone Hsome].
    destruct (existsb (fun row => match Year_of (columns df) row with
                                  | Some _ => true | None => false end) (data df)) eqn:Ex.
    + apply existsb_exists in Ex. destruct Ex as [row [Hr Hy]].
      destruct (Year_of (columns df) row) as [y |] eqn:Ey; [| discriminate].
      destruct (Hsome row y Hr Ey) as [lo [hi [E' [Hb _]]]].
      rewrite E' in E. injection E as <-. exact Hb.
    + rewrite Hnone in E; [discriminate |].
      intros row Hr.
      destruct (Year_of (columns df) row) as [y |] eqn:Ey; [| reflexivity].
      assert (H : existsb (fun row => match Year_of (columns df) row with
                                      | Some _ => true | None => false end) (data df) = true).
      { apply existsb_exists. exists row. split; [exact Hr | now rewrite Ey]. }
      congruence.
Qed.

(** X7. The default window of lines 52-53, [(max(1970, y_min), min(2015, y_max))],
    is a range of the slider exactly when the years of the table meet
    1970..2015: with a table that ends before 1970 or starts after 2015 the
    default handed to the slider has its start after its end. *)
Theorem default_range_allowed_iff (df_raw : DataFrame) (bounds : Z * Z) :
  year_bounds df_raw = Done bounds ->
  (slider_allows bounds (default_range bounds)
   <-> fst bounds <= 2015 /\ 1970 <= snd bounds)
  /\ (~ slider_allows bounds (default_range bounds)
      -> snd (default_range bounds) < fst (default_range bounds)).
Proof.
  intros E. apply year_bounds_ordered in E.
  unfold slider_allows, default_range. cbn [fst snd]. lia.
Qed.

Lemma default_range_allowed_iff_witness :
  year_bounds wide_table = Done (2000, 2002)
  /\ slider_allows (2000, 2002) (default_range (2000, 2002)).
Proof.
  assert (E : year_bounds wide_table = Done (2000, 2002)) by reflexivity.
  split; [exact E |].
  apply (proj1 (default_range_allowed_iff wide_table (2000, 2002) E)).
  cbn [fst snd]. lia.
Defined.

(** * Selection and reshaping *)

Lemma filter_labels_sorted {A : Type} (p : nat * A -> bool) (l : list A) (a : nat) :
  StronglySorted lt (map fst (filter p (combine (seq a (List.length l)) l)))
  /\ Forall (fun i => (a <= i)%nat) (map fst (filter p (combine (seq a (List.length l)) l))).
Proof.
  revert a. induction l as [| x l IH]; intros a; cbn [List.length seq combine filter map].
  - split; constructor.
  - destruct (IH (S a)) as [Hs Hb].
    assert (Hb' : Forall (fun i => (a < i)%nat)
                    (map fst (filter p (combine (seq (S a) (List.length l)) l)))).
    { eapply Forall_impl; [| exact Hb]. cbn. intros i Hi. lia. }
    destruct (p (a, x)); cbn [map fst].
    + split.
      * constructor; [exact Hs | exact Hb'].
      * constructor; [lia |]. eapply Forall_impl; [| exact Hb']. cbn. intros i Hi. lia.
    + split; [exact Hs |]. eapply Forall_impl; [| exact Hb']. cbn. intros i Hi. lia.
Qed.

(** X8. Line 57 keeps exactly the rows whose Country Name and Indicator Name
    both equal the selected ones, under the labels they have in the raw
    table and in the order of the raw table; a cell that is missing equals
    no selection. *)
Theorem sub_keeps_matching_rows_in_order (df_raw : DataFrame) (sel : Selection) :
  validate df_raw = Done tt ->
  (forall i row,
     In (i, row) (sub df_raw sel) <->
     nth_error (data df_raw) i = Some row
     /\ cell_eqb (cell_at (columns df_raw) row "Country Name") (country sel) = true
     /\ cell_eqb (cell_at (columns df_raw) row "Indicator Name") (indicator sel) = true)
  /\ StronglySorted lt (map fst (sub df_raw sel))
  /\ (forall i row,
        In (i, row) (sub df_raw sel) ->
        cell_at (columns df_raw) row "Country Name" <> CNaN
        /\ cell_at (columns df_raw) row "Indicator Name" <> CNaN).
Proof.
  intros _.
  assert (H1 : forall i row,
     In (i, row) (sub df_raw sel) <->
     nth_error (data df_raw) i = Some row
     /\ cell_eqb (cell_at (columns df_raw) row "Country Name") (country sel) = true
     /\ cell_eqb (cell_at (columns df_raw) row "Indicator Name") (indicator sel) = true).
  { intros i row. rewrite sub_In. unfold matches. rewrite andb_true_iff. tauto. }
  split; [exact H1 |]. split.
  - unfold sub, labelled. apply filter_labels_sorted.
  - intros i row Hin. apply H1 in Hin. destruct Hin as [_ [Hc Hi]].
    split; intros E; rewrite E in *; discriminate.
Qed.

Lemma range_sorted (a b : Z) : StronglySorted Z.lt (range a b).
Proof.
  unfold range. generalize (Z.to_nat (b - a)) as n. intros n.
  assert (H : forall k, StronglySorted Z.lt (map (fun i => a + Z.of_nat i) (seq k n))
                        /\ Forall (fun y => a + Z.of_nat k <= y)
                                  (map (fun i => a + Z.of_nat i) (seq k n))).
  { induction n as [| n IH]; intros k; cbn [seq map].
    - split; constructor.
    - destruct (IH (S k)) as [Hs Hb]. split.
      + constructor; [exact Hs |]. eapply Forall_impl; [| exact Hb]. cbn. intros y Hy. lia.
      + constructor; [lia |]. eapply Forall_impl; [| exact Hb]. cbn. intros y Hy. lia. }
  apply H.
Qed.

Lemma StronglySorted_filter {A : Type} (R : A -> A -> Prop) (p : A -> bool) (l : list A) :
  StronglySorted R l -> StronglySorted R (filter p l).
Proof.
  induction 1 as [| a l Hs IH Hall]; cbn [filter]; [constructor |].
  destruct (p a); [| exact IH].
  constructor; [exact IH |].
  rewrite Forall_forall in *. intros x Hx. apply filter_In in Hx. now apply Hall.
Qed.

Lemma str_injective (x y : Z) : Text.str x = Text.str y -> x = y.
Proof.
  intros E. pose proof (parse_str x) as Hx. rewrite E, parse_str in Hx.
  injection Hx as H. exact (eq_sym H).
Qed.

Lemma StronglySorted_lt_NoDup (l : list Z) : StronglySorted Z.lt l -> NoDup l.
Proof.
  induction 1 as [| a l Hs IH Hall]; constructor; [| exact IH].
  intros Hin. rewrite Forall_forall in Hall. specialize (Hall a Hin). lia.
Qed.

Lemma NoDup_map_injective {A B : Type} (f : A -> B) (l : list A) :
  (forall x y, f x = f y -> x = y) -> NoDup l -> NoDup (map f l).
Proof.
  intros Hf. induction 1 as [| a l Hn Hd IH]; cbn [map]; constructor; [| exact IH].
  intros Hin. apply in_map_iff in Hin. destruct Hin as [x [E Hx]].
  apply Hf in E. now subst.
Qed.

(** X9. Line 61 lists the names [str(y)] of the years [y] of the range, in
    ascending order of [y], for which the table has a column of exactly that
    name; no name is listed twice, and a range whose start is after its end
    lists nothing. *)
Theorem selected_year_cols_ascending (cols : list string) (yr : Z * Z) :
  exists ys,
    selected_year_cols cols yr = map Text.str ys
    /\ StronglySorted Z.lt ys
    /\ (forall y, In y ys <-> fst yr <= y <= snd yr /\ In (Text.str y) cols)
    /\ NoDup (selected_year_cols cols yr)
    /\ (snd yr < fst yr -> selected_year_cols cols yr = []).
Proof.
  exists (filter (fun y => has_col cols (Text.str y)) (range (fst yr) (snd yr + 1))).
  assert (Hs : StronglySorted Z.lt
                 (filter (fun y => has_col cols (Text.str y))
                         (range (fst yr) (snd yr + 1)))).
  { apply StronglySorted_filter, range_sorted. }
  split; [reflexivity |]. split; [exact Hs |]. split; [| split].
  - intros y. rewrite filter_In, range_In, has_col_In. intuition lia.
  - unfold selected_year_cols.
    apply NoDup_map_injective; [exact str_injective |].
    now apply StronglySorted_lt_NoDup.
  - intros Hinv. unfold selected_year_cols, range.
    replace (Z.to_nat (snd yr + 1 - fst yr)) with 0%nat by lia. reflexivity.
Qed.

Lemma selected_year_cols_nil (cols : list string) (yr : Z * Z) :
  selected_year_cols cols yr = [] <->
  forall y, fst yr <= y <= snd yr -> ~ In (Text.str y) cols.
Proof.
  split.
  - intros E y Hy Hin.
    assert (H : In (Text.str y) (selected_year_cols cols yr)).
    { apply selected_year_cols_In. exists y. repeat split; try lia. exact Hin. }
    rewrite E in H. exact H.
  - intros H. destruct (selected_year_cols cols yr) as [| c l] eqn:E; [reflexivity |].
    exfalso.
    assert (Hc : In c (selected_year_cols cols yr)) by (rewrite E; now left).
    apply selected_year_cols_In in Hc. destruct Hc as [y [-> [Hy Hin]]].
    exact (H y Hy Hin).
Qed.

(** X11. The warning of line 63 is given exactly for a Wide table that has no
    column named [str(y)] for a year [y] of the selected range; the rows of
    the selected country and indicator play no part in it (the columns of
    [sub] are those of the table), and a range whose start is after its end
    always gives it. *)
Theorem empty_range_warning_iff (K : SortKind) (df_raw : DataFrame) (sel : Selection) :
  validate df_raw = Done tt ->
  (reshape df_raw sel = Stopped EmptyRangeWarning <->
     detectShape df_raw = Wide
     /\ forall y, fst (yr sel) <= y <= snd (yr sel) -> ~ In (Text.str y) (columns df_raw))
  /\ (detectShape df_raw = Wide -> snd (yr sel) < fst (yr sel) ->
      reshape df_raw sel = Stopped EmptyRangeWarning).
Proof.
  intros _.
  assert (H : reshape df_raw sel = Stopped EmptyRangeWarning <->
              detectShape df_raw = Wide
              /\ forall y, fst (yr sel) <= y <= snd (yr sel) ->
                           ~ In (Text.str y) (columns df_raw)).
  { unfold reshape, coerced_slice, detectShape.
    rewrite <- selected_year_cols_nil.
    destruct (is_wide df_raw).
    - destruct (selected_year_cols (columns df_raw) (yr sel)) as [| c l]; cbn [bind].
      + tauto.
      + split; [discriminate |]. intros [_ E]. discriminate.
    - cbn [bind]. split; [discriminate |]. intros [E _]. discriminate. }
  split; [exact H |].
  intros Hw Hinv. apply H. split; [exact Hw |]. intros y Hy. lia.
Qed.

Lemma empty_range_warning_iff_witness :
  @reshape stable_kind padded_table (pick "A" "I" 2001 2001) = Stopped EmptyRangeWarning.
Proof.
  apply (proj1 (empty_range_warning_iff stable_kind padded_table
                  (pick "A" "I" 2001 2001) eq_refl)).
  split; [reflexivity |].
  intros y Hy. cbn [pick yr fst snd] in Hy. assert (y = 2001) by lia. subst y.
  intros [H | [H | [H | [H | []]]]]; discriminate.
Defined.

(** X15. Every record of the long series has its Year inside the selected
    range, in both branches: the melted columns are those of years of the
    range, and line 78 keeps the rows of the range.  (For a table that has
    passed the sanity checks; a Wide table with no column called Year or
    Value and a range of years that are not negative.) *)
Theorem series_within_range (K : SortKind) (df_raw : DataFrame) (sel : Selection)
        (l : list LongRecord) :
  validate df_raw = Done tt ->
  no_clash df_raw = true ->
  (detectShape df_raw = Wide -> 0 <= fst (yr sel)) ->
  reshape df_raw sel = Done l ->
  forall r, In r l ->
    (inject_Z (fst (yr sel)) <= Year r <= inject_Z (snd (yr sel)))%Q.
Proof.
  unfold reshape. intros _ _ _ E r Hr.
  destruct (coerced_slice df_raw sel) as [pre | why] eqn:Ec; cbn [bind] in E;
    [| discriminate].
  injection E as <-.
  apply (Permutation_in _ (Permutation_sym (sort_values_perm (dropna_Year pre)))) in Hr.
  apply dropna_Year_In in Hr. destruct Hr as [c [Hc [Hy _]]].
  unfold coerced_slice in Ec. destruct (is_wide df_raw).
  - destruct (selected_year_cols (columns df_raw) (yr sel)) as [| v vs] eqn:Es;
      [discriminate |].
    injection Ec as <-. apply in_map_iff in Hc. destruct Hc as [m [<- Hm]].
    apply melt_variable in Hm. rewrite <- Es in Hm.
    apply selected_year_cols_In in Hm. destruct Hm as [y [Ev [Hb _]]].
    cbn [coerce_melted c_Year Numeric.to_numeric] in Hy.
    rewrite Ev, parse_str in Hy. injection Hy as <-.
    rewrite <- !Zle_Qle. exact Hb.
  - injection Ec as <-. apply filter_In in Hc. destruct Hc as [_ Hin].
    unfold in_range in Hin. rewrite Hy in Hin.
    apply andb_true_iff in Hin. destruct Hin as [H1 H2].
    split; now apply Qle_bool_iff.
Qed.

Lemma series_within_range_witness :
  exists l,
    @reshape stable_kind wide_table (pick "A" "I" 2000 2001) = Done l
    /\ forall r, In r l -> (inject_Z 2000 <= Year r <= inject_Z 2001)%Q.
Proof.
  eexists. split; [reflexivity |].
  exact (series_within_range stable_kind wide_table (pick "A" "I" 2000 2001) _
                              eq_refl eq_refl ltac:(intros _; cbn; lia) eq_refl).
Defined.

Lemma nth_error_flat_map_blocks {A B : Type} (f : A -> list B) (n : nat)
      (l : list A) (j i : nat) (a : A) :
  (forall x, List.length (f x) = n) ->
  nth_error l j = Some a -> (i < n)%nat ->
  nth_error (flat_map f l) (j * n + i) = nth_error (f a) i.
Proof.
  intros Hlen. revert j. induction l as [| x l IH]; intros j Hj Hi.
  - destruct j; discriminate.
  - cbn [flat_map]. destruct j as [| j].
    + injection Hj as ->. cbn [Nat.mul Nat.add].
      apply nth_error_app1. now rewrite Hlen.
    + cbn [nth_error] in Hj.
      rewrite nth_error_app2 by (rewrite Hlen; cbn [Nat.mul]; lia).
      rewrite Hlen.
      replace (S j * n + i - n)%nat with (j * n + i)%nat by (cbn [Nat.mul]; lia).
      now apply IH.
Qed.

Lemma nth_error_combine_seq {A : Type} (l : list A) (a k : nat) (x : A) :
  nth_error l k = Some x ->
  nth_error (combine (seq a (List.length l)) l) k = Some ((a + k)%nat, x).
Proof.
  revert a k. induction l as [| y l IH]; intros a k H.
  - destruct k; discriminate.
  - cbn [List.length seq combine]. destruct k as [| k]; cbn [nth_error] in *.
    + injection H as ->. now rewrite Nat.add_0_r.
    + rewrite (IH (S a) k H). f_equal. f_equal. lia.
Qed.

Lemma melt_layout_at (cols ycols value_vars : list string)
      (rows : list (nat * list cell)) (j i : nat) (v : string) (r : nat * list cell) :
  nth_error value_vars j = Some v ->
  nth_error rows i = Some r ->
  nth_error (melt cols ycols value_vars rows) (j * List.length rows + i)
  = Some (mkMelted (j * List.length rows + i)
                   (keep_ids cols (filter (fun c => negb (has_col ycols c)) cols) (snd r))
                   v
                   (cell_at cols (snd r) v)).
Proof.
  intros Hv Hr. unfold melt.
  set (ids := filter (fun c => negb (has_col ycols c)) cols).
  set (block := fun v => map (fun r : nat * list cell =>
                                (keep_ids cols ids (snd r), v, cell_at cols (snd r) v)) rows).
  assert (Hi : (i < List.length rows)%nat) by (apply nth_error_Some; congruence).
  assert (Hb : nth_error (flat_map block value_vars) (j * List.length rows + i)
               = Some (keep_ids cols ids (snd r), v, cell_at cols (snd r) v)).
  { rewrite (nth_error_flat_map_blocks block (List.length rows) value_vars j i v);
      [| intros x; unfold block; apply length_map | exact Hv | exact Hi].
    unfold block. rewrite nth_error_map, Hr. reflexivity. }
  rewrite nth_error_map.
  rewrite (nth_error_combine_seq _ 0 _ _ Hb). reflexivity.
Qed.

(** X12. The layout of the frame line 66 builds from a frame without columns
    called Year or Value, the melted columns being year columns of the
    frame: one block of rows per melted column, in the order of the melted
    columns, each block holding the rows of [sub] in their order.  The record
    of the [i]-th row and the [j]-th melted column sits at position
    [j * len(sub) + i], which is also its new label; it carries the row's
    cells of the columns that are not year columns, the name of the melted
    column and the row's cell of that column.  The frame has
    [len(sub) * len(value_vars)] rows. *)
Theorem melt_layout (cols ycols value_vars : list string)
        (rows : list (nat * list cell)) (j i : nat) (v : string) (r : nat * list cell) :
  has_col cols "Year" = false ->
  has_col cols "Value" = false ->
  (forall c, In c value_vars -> In c cols /\ In c ycols) ->
  nth_error value_vars j = Some v ->
  nth_error rows i = Some r ->
  nth_error (melt cols ycols value_vars rows) (j * List.length rows + i)
  = Some (mkMelted (j * List.length rows + i)
                   (keep_ids cols (filter (fun c => negb (has_col ycols c)) cols) (snd r))
                   v
                   (cell_at cols (snd r) v))
  /\ List.length (melt cols ycols value_vars rows)
     = (List.length rows * List.length value_vars)%nat.
Proof.
  intros _ _ _ Hv Hr. split.
  - now apply melt_layout_at.
  - apply melt_length.
Qed.

Lemma melt_layout_witness :
  nth_error (melt wide_cols ["2000"; "2001"; "2002"] ["2000"; "2002"]
                  (labelled wide_table)) 1
  = Some (mkMelted 1 [("Country Name", CStr "A"); ("Indicator Name", CStr "I")]
                   "2002" (CNum (30 # 1))).
Proof.
  exact (proj1 (melt_layout wide_cols ["2000"; "2001"; "2002"] ["2000"; "2002"]
                            (labelled wide_table) 1 0 "2002" _
                            eq_refl eq_refl
                            ltac:(intros c [<- | [<- | []]]; cbn; tauto)
                            eq_refl eq_refl)).
Defined.

(** X13. The decimal name of a year reads back as that year in all three ways the
    script reads a column name: it passes the year-column test of line 17,
    [int] of line 46 gives the year, [to_numeric] of line 72 gives the year,
    and trimming leaves it as it is; the name of a negative number is not a
    year column. *)
Theorem str_read_back (y : Z) :
  (0 <= y ->
     is_year_col (Text.str y) = true
     /\ Text.int_of_str (Text.str y) = Some y
     /\ Text.strip (Text.str y) = Text.str y)
  /\ Numeric.to_numeric (CStr (Text.str y)) = Some (inject_Z y)
  /\ (y < 0 -> is_year_col (Text.str y) = false).
Proof.
  split; [| split].
  - intros Hy. split; [now apply str_is_year_col |].
    split; [now apply int_of_str_str |].
    apply strip_str.
  - cbn [Numeric.to_numeric]. apply parse_str.
  - intros Hy. destruct y as [| p | p]; try lia.
    unfold is_year_col.
    rewrite strip_str, (isdigit_ascii _ (str_ascii _)), str_neg. reflexivity.
Qed.

(** * Analytics *)

Local Open Scope Q_scope.

Lemma line_sums pts a c :
  (forall p, In p pts -> snd p == a * fst p + c) ->
  Sy pts == a * Sx pts + c * npts pts /\ Sxy pts == a * Sxx pts + c * Sx pts.
Proof.
  induction pts as [| [x y] pts IH]; intros H.
  - unfold Sx, Sxx, Sxy, Sy, npts. simpl. split; ring.
  - destruct IH as [I1 I2]; [intros p Hp; apply H; now right |].
    pose proof (H (x, y) (or_introl eq_refl)) as Hxy. cbn [fst snd] in Hxy.
    rewrite npts_cons. unfold Sx, Sxx, Sxy, Sy in *.
    cbn [map Qsum fold_right fst snd] in *.
    fold (Qsum (map fst pts)) in *. fold (Qsum (map snd pts)) in *.
    fold (Qsum (map (fun p : Q * Q => fst p * fst p) pts)) in *.
    fold (Qsum (map (fun p : Q * Q => fst p * snd p) pts)) in *.
    rewrite I1, I2, Hxy. split; ring.
Qed.

Lemma two_x_det pts :
  (exists p q, In p pts /\ In q pts /\ ~ fst p == fst q) ->
  ~ npts pts * Sxx pts - Sx pts * Sx pts == 0.
Proof.
  intros [p [q [Hp [Hq Hne]]]] Hd.
  assert (Hn : 0 < npts pts) by (apply npts_pos; intros E; now rewrite E in Hp).
  pose proof (zero_det_const_x pts Hn Hd) as Hc. rewrite Forall_forall in Hc.
  pose proof (Hc p Hp) as H1. pose proof (Hc q Hq) as H2. cbn beta in H1, H2.
  apply Hne. lra.
Qed.

Lemma polyfit1_line pts a c :
  (forall p, In p pts -> snd p == a * fst p + c) ->
  (exists p q, In p pts /\ In q pts /\ ~ fst p == fst q) ->
  fst (polyfit1 pts) == a /\ snd (polyfit1 pts) == c.
Proof.
  intros Hl Hx.
  pose proof (two_x_det pts Hx) as Hd.
  destruct Hx as [p [_ [Hp _]]].
  assert (Hne : pts <> []) by (intros E; now rewrite E in Hp).
  pose proof (npts_pos pts Hne) as Hn.
  destruct (polyfit1_normal_equations pts Hne) as [N1 N2].
  destruct (line_sums pts a c Hl) as [L1 L2].
  set (m := fst (polyfit1 pts)) in *. set (b := snd (polyfit1 pts)) in *.
  clearbody m b.
  assert (Hm : (m - a) * (npts pts * Sxx pts - Sx pts * Sx pts) == 0).
  { transitivity (npts pts * (m * Sxx pts + b * Sx pts - (a * Sxx pts + c * Sx pts))
                  - Sx pts * (npts pts * b + m * Sx pts - (a * Sx pts + c * npts pts))).
    - ring.
    - rewrite N1, N2, L1, L2. ring. }
  apply Qmult_integral in Hm. destruct Hm as [Hm | Hm]; [| contradiction].
  assert (Ea : m == a) by lra.
  split; [exact Ea |].
  assert (Hb : npts pts * (b - c) == 0).
  { transitivity (npts pts * b + m * Sx pts - (a * Sx pts + c * npts pts) + (a - m) * Sx pts).
    - ring.
    - rewrite N1, L1, Ea. ring. }
  apply Qmult_integral in Hb. destruct Hb as [Hb | Hb]; lra.
Qed.

(** X17. When the points lie on one line [y = a x + c] and have at least two
    different x, the fit of line 95 is that line, exactly (in the exact
    arithmetic of the model). *)
Theorem polyfit1_recovers_line (pts : list (Q * Q)) (a c : Q) :
  (forall p, In p pts -> snd p == a * fst p + c) ->
  (exists p q, In p pts /\ In q pts /\ ~ fst p == fst q) ->
  fst (polyfit1 pts) == a /\ snd (polyfit1 pts) == c.
Proof.
  intros Hline Hx. destruct (polyfit1_line pts a c Hline Hx) as [Hm Hb].
  split; [exact Hm | exact Hb].
Qed.

Lemma polyfit1_recovers_line_witness :
  fst (polyfit1 [(0, 3); (1, 5); (3, 9)]) == 2
  /\ snd (polyfit1 [(0, 3); (1, 5); (3, 9)]) == 3.
Proof.
  apply (polyfit1_recovers_line [(0, 3); (1, 5); (3, 9)] 2 3).
  - intros p [<- | [<- | [<- | []]]]; reflexivity.
  - exists (0, 3), (1, 5). split; [now left |]. split; [right; now left |].
    cbn [fst]. discriminate.
Defined.

Lemma residual_sum pts m b :
  Qsum (map (fun p => snd p - (m * fst p + b)) pts) == Sy pts - m * Sx pts - npts pts * b.
Proof.
  induction pts as [| [x y] pts IH].
  - unfold Sx, Sy, npts. simpl. ring.
  - rewrite npts_cons. unfold Sx, Sy in *. cbn [map Qsum fold_right fst snd] in *.
    fold (Qsum (map fst pts)) in *. fold (Qsum (map snd pts)) in *.
    fold (Qsum (map (fun p : Q * Q => snd p - (m * fst p + b)) pts)) in *.
    rewrite IH. ring.
Qed.

(** X18. The residuals of the fitted line cancel: over points with at least two
    different x, the differences between the data and the line of line 95
    sum to zero, so the line passes through the mean point of the data. *)
Theorem polyfit1_residuals_cancel (pts : list (Q * Q)) :
  (exists p q, In p pts /\ In q pts /\ ~ fst p == fst q) ->
  Qsum (map (fun p => snd p - (fst (polyfit1 pts) * fst p + snd (polyfit1 pts))) pts) == 0
  /\ fst (polyfit1 pts) * (Sx pts / npts pts) + snd (polyfit1 pts) == Sy pts / npts pts.
Proof.
  intros [p [_ [Hp _]]].
  assert (Hne : pts <> []) by (intros E; now rewrite E in Hp).
  pose proof (npts_pos pts Hne) as Hn.
  destruct (polyfit1_normal_equations pts Hne) as [N1 _].
  split.
  - rewrite residual_sum, <- N1. ring.
  - rewrite <- N1. field. lra.
Qed.

Lemma polyfit1_residuals_cancel_witness :
  Qsum (map (fun p => snd p - (fst (polyfit1 [(2000, 1); (2001, 5); (2002, 3)]) * fst p
                               + snd (polyfit1 [(2000, 1); (2001, 5); (2002, 3)])))
            [(2000, 1); (2001, 5); (2002, 3)]) == 0.
Proof.
  apply (polyfit1_residuals_cancel [(2000, 1); (2001, 5); (2002, 3)]).
  exists (2000, 1), (2001, 5). split; [now left |]. split; [right; now left |].
  cbn [fst]. discriminate.
Defined.

Local Open Scope Z_scope.

Lemma points_In (cl : list LongRecord) (p : Q * Q) :
  In p (points cl) <-> exists r v, In r cl /\ Value r = Some v /\ p = (Year r, v).
Proof.
  unfold points. rewrite in_flat_map. split.
  - intros [r [Hr Hp]]. destruct (Value r) as [v |] eqn:Ev; [| destruct Hp].
    destruct Hp as [<- | []]. now exists r, v.
  - intros [r [v [Hr [Ev ->]]]]. exists r. split; [exact Hr |]. rewrite Ev. now left.
Qed.

Lemma clean_In (l : list LongRecord) (r : LongRecord) :
  In r (clean l) <-> In r l /\ exists v, Value r = Some v.
Proof.
  unfold clean. rewrite filter_In. unfold has_Value.
  destruct (Value r) as [x |].
  - split; intros [H1 _]; (split; [exact H1 |]); [now exists x | reflexivity].
  - split; intros [H1 H2]; [discriminate | destruct H2 as [x Hx]; discriminate].
Qed.

Lemma two_distinct_length {A : Type} (l : list A) (a b : A) :
  In a l -> In b l -> a <> b -> (2 <= List.length l)%nat.
Proof.
  intros Ha Hb Hab. destruct l as [| x [| y l]]; cbn [List.length]; [| | lia].
  - destruct Ha.
  - destruct Ha as [-> | []]. destruct Hb as [-> | []]. now elim Hab.
Qed.

(** X19. When the rows that have a Value lie on one line [Value = a Year + c] and
    have at least two different Years, the forecast of lines 95-99 continues
    that line: ten records, each with [Predicted = a Year + c]. *)
Theorem forecast_continues_line (sub_long : list LongRecord) (a c : Q) :
  (forall r v, In r sub_long -> Value r = Some v -> (v == a * Year r + c)%Q) ->
  (exists r1 r2, In r1 (clean sub_long) /\ In r2 (clean sub_long)
                 /\ ~ (Year r1 == Year r2)%Q) ->
  exists recs,
    forecast_panel sub_long = Chart recs
    /\ List.length recs = 10%nat
    /\ forall p, In p recs -> (Predicted p == a * inject_Z (p_Year p) + c)%Q.
Proof.
  intros Hl [r1 [r2 [H1 [H2 Hne]]]].
  assert (Hlen : (2 <= List.length (clean sub_long))%nat).
  { apply (two_distinct_length _ r1 r2 H1 H2). intros E. apply Hne. now rewrite E. }
  destruct (polyfit1_line (points (clean sub_long)) a c) as [Ea Ec].
  - intros p Hp. apply points_In in Hp. destruct Hp as [r [v [Hr [Ev ->]]]].
    cbn [fst snd]. apply clean_In in Hr. now apply (Hl r v).
  - apply clean_In in H1 as H1'. apply clean_In in H2 as H2'.
    destruct H1' as [_ [v1 E1]]. destruct H2' as [_ [v2 E2]].
    exists (Year r1, v1), (Year r2, v2).
    split; [apply points_In; now exists r1, v1 |].
    split; [apply points_In; now exists r2, v2 |]. exact Hne.
  - unfold forecast_panel.
    apply Nat.leb_le in Hlen. rewrite Hlen.
    destruct (polyfit1 (points (clean sub_long))) as [m b]. cbn [fst snd] in Ea, Ec.
    eexists. split; [reflexivity |]. split.
    + rewrite length_map, range_length. lia.
    + intros p Hp. apply in_map_iff in Hp. destruct Hp as [y [<- _]].
      cbn [Predicted p_Year]. now rewrite Ea, Ec.
Qed.

Lemma forecast_continues_line_witness :
  exists recs,
    forecast_panel on_line = Chart recs
    /\ List.length recs = 10%nat
    /\ forall p, In p recs -> (Predicted p == 2 * inject_Z (p_Year p) + 3)%Q.
Proof.
  apply (forecast_continues_line on_line 2 3).
  - intros r v Hr Ev.
    repeat (destruct Hr as [<- | Hr]; [injection Ev as <-; reflexivity |]).
    destruct Hr.
  - exists (nth 0 on_line (mkLongRecord 0 [] 0 None)),
           (nth 1 on_line (mkLongRecord 0 [] 0 None)).
    split; [now left |]. split; [right; now left |]. discriminate.
Defined.

Lemma py_int_succ_gt (q : Q) : (q < inject_Z (Numeric.py_int q + 1))%Q.
Proof.
  destruct q as [a b]. unfold Qlt, Numeric.py_int. cbn [Qnum Qden inject_Z].
  rewrite Z.mul_1_r.
  pose proof (Z.quot_rem' a (Z.pos b)) as E.
  destruct (Z_le_gt_dec 0 a) as [Ha | Ha].
  - pose proof (Z.rem_bound_pos a (Z.pos b) Ha ltac:(lia)) as R. nia.
  - pose proof (rem_neg_bound a (Z.pos b) ltac:(lia) ltac:(lia)) as R. nia.
Qed.

(** X20. A forecast never overlaps the data it is fitted to: every forecast year
    is strictly after the Year of every row that has a Value, whatever the
    Years are (whole or not). *)
Theorem forecast_after_observed (sub_long : list LongRecord) (recs : list Prediction) :
  forecast_panel sub_long = Chart recs ->
  forall p r, In p recs -> In r (clean sub_long) -> (Year r < inject_Z (p_Year p))%Q.
Proof.
  unfold forecast_panel. intros E p r Hp Hr.
  destruct (2 <=? List.length (clean sub_long))%nat; [| discriminate].
  destruct (polyfit1 (points (clean sub_long))) as [m b].
  injection E as <-. apply in_map_iff in Hp. destruct Hp as [y [<- Hy]].
  cbn [p_Year]. apply range_In in Hy.
  assert (Hne : clean sub_long <> []) by (intros E; now rewrite E in Hr).
  destruct (Year_max_spec (clean sub_long) Hne) as [_ Hmax].
  eapply Qle_lt_trans; [apply (Hmax r Hr) |].
  eapply Qlt_le_trans; [apply py_int_succ_gt |].
  rewrite <- Zle_Qle. lia.
Qed.

Lemma forecast_after_observed_witness :
  exists recs,
    forecast_panel two_points = Chart recs
    /\ forall p r, In p recs -> In r (clean two_points) -> (Year r < inject_Z (p_Year p))%Q.
Proof.
  eexists. split; [reflexivity |].
  exact (forecast_after_observed two_points _ eq_refl).
Defined.

Lemma Zsum_map_add {A : Type} (f g : A -> Z) (l : list A) :
  Zsum (map (fun a => f a + g a) l) = Zsum (map f l) + Zsum (map g l).
Proof.
  induction l as [| a l IH]; cbn [map Zsum fold_right]; [reflexivity |].
  unfold Zsum in IH. rewrite IH. lia.
Qed.

Lemma Zsum_indicator {A : Type} (p : A -> bool) (l : list A) :
  Zsum (map (fun a => if p a then 1 else 0) l) = Z.of_nat (List.length (filter p l)).
Proof.
  induction l as [| a l IH]; cbn [map Zsum fold_right filter]; [reflexivity |].
  unfold Zsum in IH. rewrite IH. destruct (p a); cbn [List.length]; lia.
Qed.

Lemma Qlt_not_eq_bool (a b : Q) : (a < b)%Q -> Qeq_bool a b = false.
Proof.
  intros H. destruct (Qeq_bool a b) eqn:E; [| reflexivity].
  apply Qeq_bool_iff in E. rewrite E in H. now apply Qlt_irrefl in H.
Qed.

(** Among keys in strictly ascending order, a number that equals one of them
    equals exactly one. *)
Lemma one_key (ks : list Q) (y : Q) :
  StronglySorted Qlt ks ->
  (exists k, In k ks /\ (k == y)%Q) ->
  List.length (filter (Qeq_bool y) ks) = 1%nat.
Proof.
  induction 1 as [| a ks Hs IH Hall]; intros [k [Hin Hk]]; [destruct Hin |].
  cbn [filter]. rewrite Forall_forall in Hall.
  destruct (Qeq_bool y a) eqn:E.
  - cbn [List.length]. f_equal.
    apply Qeq_bool_iff in E.
    assert (Hnone : forall x, In x ks -> Qeq_bool y x = false).
    { intros x Hx. apply Qlt_not_eq_bool. rewrite E. now apply Hall. }
    clear - Hnone. induction ks as [| x ks IH]; [reflexivity |].
    cbn [filter]. rewrite (Hnone x (or_introl eq_refl)).
    apply IH. intros z Hz. apply Hnone. now right.
  - destruct Hin as [-> | Hin].
    + apply Qeq_bool_neq in E. elim E. now symmetry.
    + apply IH. now exists k.
Qed.

Lemma group_sizes (ks : list Q) (l : list LongRecord) :
  StronglySorted Qlt ks ->
  (forall r, In r l -> exists k, In k ks /\ (k == Year r)%Q) ->
  Zsum (map (fun k => Z.of_nat (List.length (group l k))) ks) = Z.of_nat (List.length l).
Proof.
  intros Hs. induction l as [| r l IH]; intros Hc.
  - unfold group. cbn [filter List.length]. clear. induction ks; [reflexivity |].
    cbn [map Zsum fold_right] in *. unfold Zsum in IHks. now rewrite IHks.
  - assert (E : map (fun k => Z.of_nat (List.length (group (r :: l) k))) ks
                = map (fun k => Z.of_nat (List.length (group l k))
                                + (if Qeq_bool (Year r) k then 1 else 0)) ks).
    { apply map_ext. intros k. unfold group. cbn [filter].
      destruct (Qeq_bool (Year r) k); cbn [List.length]; lia. }
    rewrite E, Zsum_map_add, Zsum_indicator, IH by (intros x Hx; apply Hc; now right).
    rewrite (one_key ks (Year r) Hs (Hc r (or_introl eq_refl))).
    cbn [List.length]. lia.
Qed.

Lemma group_isna (l : list LongRecord) (k : Q) :
  filter isna (group l k) = group (filter isna l) k.
Proof.
  unfold group. rewrite !filter_twice. apply filter_ext. intros r. apply andb_comm.
Qed.

Lemma clean_isna_length (l : list LongRecord) :
  (List.length (clean l) + List.length (filter isna l) = List.length l)%nat.
Proof.
  unfold clean, isna. induction l as [| r l IH]; cbn [filter]; [reflexivity |].
  destruct (has_Value r); cbn [negb List.length]; lia.
Qed.

Lemma points_clean_length (l : list LongRecord) :
  List.length (points (clean l)) = List.length (clean l).
Proof.
  unfold points, clean, has_Value. induction l as [| r l IH]; cbn [filter]; [reflexivity |].
  destruct (Value r) as [v |] eqn:E; [| exact IH].
  cbn [flat_map]. rewrite E. cbn [app List.length]. now rewrite IH.
Qed.

Lemma counts_sums (sub_long : list LongRecord) :
  Zsum (map total (counts sub_long)) = Z.of_nat (List.length sub_long)
  /\ Zsum (map missing (counts sub_long))
     = Z.of_nat (List.length (filter isna sub_long)).
Proof.
  destruct (group_keys_spec sub_long) as [_ [Hcover Hsorted]].
  split.
  - unfold counts. rewrite map_map. cbn [total]. now apply group_sizes.
  - unfold counts. rewrite map_map. cbn [missing].
    rewrite (map_ext _ (fun k => Z.of_nat (List.length (group (filter isna sub_long) k))))
      by (intros k; now rewrite group_isna).
    apply group_sizes; [exact Hsorted |].
    intros r Hr. apply filter_In in Hr. now apply Hcover.
Qed.

(** X21. The completeness table accounts for every record of the series exactly
    once: its totals add up to the number of records and its missing counts
    to the number of records without a Value (no record is left out of the
    grouping and none is counted under two Years); the values the histogram
    is drawn from are as many as the totals less the missing counts. *)
Theorem counts_account_for_every_record (sub_long : list LongRecord) :
  Zsum (map total (counts sub_long)) = Z.of_nat (List.length sub_long)
  /\ Zsum (map missing (counts sub_long))
     = Z.of_nat (List.length (filter isna sub_long))
  /\ Z.of_nat (List.length (distribution (analytics sub_long)))
     = Zsum (map total (counts sub_long)) - Zsum (map missing (counts sub_long)).
Proof.
  destruct (counts_sums sub_long) as [H1 H2].
  split; [exact H1 |]. split; [exact H2 |].
  rewrite H1, H2. cbn [analytics distribution].
  rewrite length_map, points_clean_length.
  pose proof (clean_isna_length sub_long). lia.
Qed.

Lemma length_le_Zsum {A : Type} (f : A -> Z) (l : list A) :
  Forall (fun a => 1 <= f a) l -> Z.of_nat (List.length l) <= Zsum (map f l).
Proof.
  induction 1 as [| a l Ha _ IH]; [reflexivity |].
  cbn [map List.length]. unfold Zsum in *. cbn [fold_right].
  rewrite Nat2Z.inj_succ. lia.
Qed.

(** X23. The completeness table has one row per distinct Year of the series
    and no other: its Years are in strictly ascending order (so none comes
    twice), and each is the Year of some record of the series. *)
Theorem counts_one_row_per_year (sub_long : list LongRecord) :
  StronglySorted Qlt (map g_Year (counts sub_long))
  /\ (forall g, In g (counts sub_long) ->
        exists r, In r sub_long /\ Year r = g_Year g)
  /\ List.length (counts sub_long) = List.length (group_keys sub_long)
  /\ (List.length (counts sub_long) <= List.length sub_long)%nat.
Proof.
  destruct (group_keys_spec sub_long) as [Hfrom [_ Hsorted]].
  assert (Hk : map g_Year (counts sub_long) = group_keys sub_long).
  { unfold counts. rewrite map_map. cbn [g_Year]. apply map_id. }
  split; [now rewrite Hk |]. split; [| split].
  - intros g Hg. apply Hfrom. rewrite <- Hk. now apply in_map.
  - unfold counts. apply length_map.
  - pose proof (counts_sums sub_long) as [Ht _].
    assert (Hpos : Forall (fun g => 1 <= total g) (counts sub_long)).
    { apply Forall_forall. intros g Hg. unfold counts in Hg.
      apply in_map_iff in Hg. destruct Hg as [k [<- Hin]]. cbn [total].
      destruct (Hfrom k Hin) as [r [Hr Ey]].
      assert (In r (group sub_long k)).
      { unfold group. apply filter_In. split; [exact Hr |].
        apply Qeq_bool_iff. rewrite Ey. reflexivity. }
      destruct (group sub_long k); [contradiction | cbn [List.length]; lia]. }
    pose proof (length_le_Zsum total (counts sub_long) Hpos). lia.
Qed.

(** * The run as a whole *)




(** X16. With the slider at its full extent no matching row of a Long table
    whose Year is a whole number is left out of the series: the bounds of
    lines 49-50 enclose every such Year. *)
Theorem full_range_keeps_whole_years (K : SortKind) (df_raw : DataFrame)
        (sel : Selection) :
  detectShape df_raw = Long ->
  validate df_raw = Done tt ->
  year_bounds df_raw = Done (yr sel) ->
  exists l,
    reshape df_raw sel = Done l
    /\ forall i row y z,
         nth_error (data df_raw) i = Some row ->
         matches (columns df_raw) sel row = true ->
         Year_of (columns df_raw) row = Some y ->
         (y == inject_Z z)%Q ->
         exists r, In r l /\ label r = i /\ Year r = y
                   /\ Value r = Value_of (columns df_raw) row.
Proof.
  intros Hs _ Hb. apply detectShape_Long in Hs.
  unfold reshape. rewrite (long_slice df_raw sel Hs). cbn [bind].
  eexists. split; [reflexivity |].
  intros i row y z Hrow Hm Hy Hz.
  destruct (year_bounds_long_spec df_raw Hs) as [_ Hsome].
  destruct (Hsome row y (nth_error_In _ _ Hrow) Hy) as [lo [hi [E [_ Hin]]]].
  rewrite E in Hb. injection Hb as Hb.
  destruct (Hin row y z (nth_error_In _ _ Hrow) Hy Hz) as [Hlo Hhi].
  assert (Hw : Year_within (yr sel) (Some y) = true).
  { rewrite <- Hb. cbn [Year_within fst snd]. apply andb_true_iff.
    split; apply Qle_bool_iff; rewrite Hz, <- Zle_Qle; assumption. }
  exists (mkLongRecord i (c_ids (coerce_long (columns df_raw) (i, row))) y
                       (Value_of (columns df_raw) row)).
  split; [| now repeat split].
  apply (Permutation_in _ (sort_values_perm _)).
  apply dropna_Year_In. exists (coerce_long (columns df_raw) (i, row)).
  split; [| split; reflexivity || exact Hy].
  apply long_slice_In. exists i, row.
  split; [exact Hrow |]. split; [exact Hm |]. split; [| reflexivity].
  now rewrite Hy.
Qed.

Lemma full_range_keeps_whole_years_witness :
  exists l,
    @reshape stable_kind two_series_table (pick "A" "I" 2000 2009) = Done l
    /\ exists r, In r l /\ label r = 17%nat /\ Year r = 2007 # 1.
Proof.
  destruct (full_range_keeps_whole_years stable_kind two_series_table
              (pick "A" "I" 2000 2009) eq_refl eq_refl eq_refl) as [l [E H]].
  exists l. split; [exact E |].
  destruct (H 17%nat (long_row "A" "I" (CNum (2007 # 1)) (CNum (17 # 1))) (2007 # 1) 2007)
    as [r [Hr [Hl [Hy _]]]]; try reflexivity.
  now exists r.
Defined.

(** * Session *)

(** X1. The memo of [load_raw]: once a path has been loaded, loading it again
    returns the same object without reading the file (whatever the file has
    become) and leaves the session as it is; a first load stores the table
    read; the objects that were there stay.  A file that cannot be read is
    not memoised: the run stops with IOError, the session is unchanged, and
    the next run reads again. *)
Theorem load_raw_memo (read1 read2 : string -> option DataFrame) (path : string)
        (s : Session) :
  cache_valid s ->
  match load_raw read1 path s with
  | (Done r, s1) =>
      load_raw read2 path s1 = (Done r, s1)
      /\ cache_valid s1
      /\ (r < List.length (store s1))%nat
      /\ (forall r', (r' < List.length (store s))%nat ->
                     deref (store s1) r' = deref (store s) r')
      /\ (lookup path (cache s) = None ->
          read1 path = Some (table_of (deref (store s1) r)))
  | (Stopped why, s1) =>
      why = IOError /\ s1 = s /\ read1 path = None /\ lookup path (cache s1) = None
  end.
Proof.
  intros Hv. unfold load_raw.
  destruct (lookup path (cache s)) as [r |] eqn:El.
  - rewrite El. split; [reflexivity |]. split; [exact Hv |].
    split; [exact (Hv path r El) |]. split; [reflexivity | discriminate].
  - destruct (read1 path) as [df |] eqn:Er.
    + cbn [cache store lookup]. rewrite String.eqb_refl.
      split; [reflexivity |]. split; [| split; [| split]].
      * intros p r. cbn [cache store lookup]. rewrite length_app. cbn [List.length].
        destruct (String.eqb p path).
        -- intros E. injection E as <-. lia.
        -- intros E. specialize (Hv p r E). lia.
      * rewrite length_app. cbn [List.length]. lia.
      * intros r' Hr'. now apply deref_old.
      * intros _. rewrite deref_new by reflexivity. now rewrite table_of_frame_of.
    + now repeat split.
Qed.

Lemma load_raw_memo_witness :
  cache_valid fresh
  /\ load_raw (fun _ => None) "EdStatsData.csv"
              (snd (load_raw (fun _ => Some wide_table) "EdStatsData.csv" fresh))
     = (Done 0%nat, snd (load_raw (fun _ => Some wide_table) "EdStatsData.csv" fresh)).
Proof.
  assert (Hv : cache_valid fresh) by (intros p r E; discriminate).
  split; [exact Hv |].
  exact (proj1 (load_raw_memo (fun _ => Some wide_table) (fun _ => None)
                              "EdStatsData.csv" fresh Hv)).
Defined.

(** * Selectors *)

Lemma ltb_trans (s t u : string) :
  String.ltb s t = true -> String.ltb t u = true -> String.ltb s u = true.
Proof.
  unfold String.ltb. intros H1 H2.
  destruct (String.compare s t) eqn:E1; try discriminate.
  destruct (String.compare t u) eqn:E2; try discriminate.
  change (OrderedTypeEx.String_as_OT.cmp s t = Lt) in E1.
  change (OrderedTypeEx.String_as_OT.cmp t u = Lt) in E2.
  apply OrderedTypeEx.String_as_OT.cmp_lt in E1, E2.
  pose proof (OrderedTypeEx.String_as_OT.lt_trans _ _ _ E1 E2) as H.
  apply OrderedTypeEx.String_as_OT.cmp_lt in H.
  unfold OrderedTypeEx.String_as_OT.cmp in H. now rewrite H.
Qed.

Lemma ltb_total (s t : string) :
  String.ltb s t = false -> String.eqb s t = false -> String.ltb t s = true.
Proof.
  unfold String.ltb. intros H1 H2.
  rewrite String.compare_antisym.
  destruct (String.compare s t) eqn:E; try discriminate; [| reflexivity].
  apply String.compare_eq_iff in E. subst. now rewrite String.eqb_refl in H2.
Qed.

Lemma cell_eqb_refl (a : cell) : a <> CNaN -> cell_eqb a a = true.
Proof.
  destruct a as [q | s |]; intros H; cbn [cell_eqb].
  - apply Qeq_bool_iff. reflexivity.
  - apply String.eqb_refl.
  - now elim H.
Qed.

Lemma cell_eqb_sym (a b : cell) : cell_eqb a b = cell_eqb b a.
Proof.
  destruct a as [p | s |], b as [q | t |]; cbn [cell_eqb]; try reflexivity.
  - destruct (Qeq_bool p q) eqn:E1, (Qeq_bool q p) eqn:E2; try reflexivity.
    + apply Qeq_bool_iff in E1. apply Qeq_bool_neq in E2. elim E2. now symmetry.
    + apply Qeq_bool_iff in E2. apply Qeq_bool_neq in E1. elim E1. now symmetry.
  - apply String.eqb_sym.
Qed.

Lemma cell_eqb_trans (a b c : cell) :
  cell_eqb a b = true -> cell_eqb b c = true -> cell_eqb a c = true.
Proof.
  destruct a as [p | s |], b as [q | t |], c as [r | u |]; cbn [cell_eqb];
    try discriminate.
  - intros H1 H2. apply Qeq_bool_iff in H1, H2. apply Qeq_bool_iff.
    now rewrite H1.
  - intros H1 H2. apply String.eqb_eq in H1, H2. subst. apply String.eqb_refl.
Qed.

Lemma cell_eqb_kind (a b : cell) :
  cell_eqb a b = true -> (is_text a <-> is_text b) /\ (is_number a <-> is_number b).
Proof.
  unfold is_text, is_number.
  destruct a as [p | s |], b as [q | t |]; cbn [cell_eqb]; try discriminate; intros _.
  - split; split; intros [x E]; try discriminate; eauto.
  - split; split; intros [x E]; try discriminate; eauto.
Qed.

Lemma dropna_cells_In (l : list cell) (x : cell) :
  In x (dropna_cells l) <-> In x l /\ x <> CNaN.
Proof.
  unfold dropna_cells. rewrite filter_In. destruct x; split; intros [H1 H2];
    (split; [exact H1 |]); try discriminate; try reflexivity. now elim H2.
Qed.

Lemma unique_In (l : list cell) (x : cell) : In x (unique l) -> In x l.
Proof.
  induction l as [| y l IH]; cbn [unique]; [tauto |].
  intros [<- | H]; [now left |]. apply filter_In in H. right. now apply IH.
Qed.

Lemma unique_covers (l : list cell) (y : cell) :
  In y l -> y <> CNaN -> exists x, In x (unique l) /\ cell_eqb x y = true.
Proof.
  induction l as [| z l IH]; intros Hin Hy; [destruct Hin |].
  cbn [unique]. destruct Hin as [-> | Hin].
  - exists y. split; [now left | now apply cell_eqb_refl].
  - destruct (IH Hin Hy) as [x [Hx Exy]].
    destruct (cell_eqb z x) eqn:Ezx.
    + exists z. split; [now left |]. now apply (cell_eqb_trans z x y).
    + exists x. split; [| exact Exy]. right. apply filter_In.
      split; [exact Hx | now rewrite Ezx].
Qed.

Lemma unique_distinct (l : list cell) :
  StronglySorted (fun a b => cell_eqb a b = false) (unique l).
Proof.
  induction l as [| x l IH]; cbn [unique]; constructor.
  - now apply StronglySorted_filter.
  - apply Forall_forall. intros y Hy. apply filter_In in Hy.
    destruct Hy as [_ Hy]. now apply negb_true_iff in Hy.
Qed.

Section Kind.

(** A kind of values that [<] orders: texts, or numbers. *)
Variable P : cell -> Prop.
Hypothesis P_total : forall a b, P a -> P b -> exists t, cell_lt a b = Some t.
Hypothesis P_tri :
  forall a b, P a -> P b ->
    cell_lt a b = Some false -> cell_eqb a b = false -> comes_before b a.
Hypothesis P_trans :
  forall a b c, P a -> P b -> P c -> comes_before a b -> comes_before b c -> comes_before a c.

Lemma insert_sorted_kind (x : cell) (done : list cell) :
  P x -> Forall P done ->
  exists res,
    insert_sorted x done = Some res
    /\ Permutation (x :: done) res
    /\ (StronglySorted comes_before done ->
        Forall (fun y => cell_eqb x y = false) done ->
        StronglySorted comes_before res).
Proof.
  intros Hx. induction done as [| y r IH]; intros Hall; cbn [insert_sorted].
  - exists [x]. split; [reflexivity |]. split; [apply Permutation_refl |].
    intros _ _. constructor; constructor.
  - inversion Hall as [| ? ? Hy Hr]; subst.
    destruct (P_total x y Hx Hy) as [[|] E]; rewrite E.
    + exists (x :: y :: r). split; [reflexivity |]. split; [apply Permutation_refl |].
      intros Hs _. constructor; [exact Hs |].
      inversion Hs as [| ? ? Hs' Hlt]; subst.
      constructor; [exact E |].
      rewrite Forall_forall in *. intros z Hz.
      apply (P_trans x y z Hx Hy (Hr z Hz) E (Hlt z Hz)).
    + destruct (IH Hr) as [res [E' [Hp Hs']]]. rewrite E'. cbn [option_map].
      exists (y :: res). split; [reflexivity |]. split.
      * eapply Permutation_trans; [apply perm_swap |]. now apply perm_skip.
      * intros Hs Hd.
        inversion Hs as [| ? ? Hsr Hlt]; subst.
        inversion Hd as [| ? ? Hxy Hdr]; subst.
        constructor; [now apply Hs' |].
        apply (Permutation_Forall Hp). constructor; [| exact Hlt].
        now apply P_tri.
Qed.

Lemma sort_into_kind (l done : list cell) :
  Forall P done -> Forall P l ->
  exists res,
    sort_into done l = Some res
    /\ Permutation (done ++ l)%list res
    /\ (StronglySorted comes_before done ->
        StronglySorted (fun a b => cell_eqb a b = false) l ->
        Forall (fun x => Forall (fun y => cell_eqb x y = false) done) l ->
        StronglySorted comes_before res).
Proof.
  revert done. induction l as [| x l IH]; intros done Hd Hl; cbn [sort_into].
  - exists done. split; [reflexivity |]. rewrite app_nil_r.
    split; [apply Permutation_refl | tauto].
  - inversion Hl as [| ? ? Hx Hl']; subst.
    destruct (insert_sorted_kind x done Hx Hd) as [d' [E [Hp Hs]]]. rewrite E.
    destruct (IH d') as [res [E' [Hp' Hs']]]; [| exact Hl' |].
    { apply (Permutation_Forall Hp). now constructor. }
    exists res. split; [exact E' |]. split.
    + eapply Permutation_trans; [| exact Hp'].
      eapply Permutation_trans; [apply Permutation_sym, Permutation_middle |].
      exact (Permutation_app_tail l Hp).
    + intros Hsd Hdl Hfr.
      inversion Hdl as [| ? ? Hdl' Hxl]; subst.
      inversion Hfr as [| ? ? Hxd Hfr']; subst.
      apply Hs'; [now apply Hs | exact Hdl' |].
      rewrite Forall_forall in *. intros z Hz.
      apply (Permutation_Forall Hp). constructor.
      * rewrite cell_eqb_sym. now apply Hxl.
      * now apply Hfr'.
Qed.

End Kind.

Lemma Qlt_bool_true (p q : Q) : negb (Qle_bool q p) = true <-> (p < q)%Q.
Proof.
  rewrite negb_true_iff. split.
  - intros H. apply Qnot_le_lt. intros L. apply Qle_bool_iff in L. congruence.
  - intros H. destruct (Qle_bool q p) eqn:E; [| reflexivity].
    apply Qle_bool_iff in E. exfalso. exact (Qlt_not_le _ _ H E).
Qed.

Lemma text_total (a b : cell) : is_text a -> is_text b -> exists t, cell_lt a b = Some t.
Proof. intros [s ->] [t ->]. now exists (String.ltb s t). Qed.

Lemma text_tri (a b : cell) :
  is_text a -> is_text b ->
  cell_lt a b = Some false -> cell_eqb a b = false -> comes_before b a.
Proof.
  intros [s ->] [t ->]. unfold comes_before. cbn [cell_lt cell_eqb].
  intros H1 H2. injection H1 as H1. f_equal. now apply ltb_total.
Qed.

Lemma text_trans (a b c : cell) :
  is_text a -> is_text b -> is_text c ->
  comes_before a b -> comes_before b c -> comes_before a c.
Proof.
  intros [s ->] [t ->] [u ->]. unfold comes_before. cbn [cell_lt].
  intros H1 H2. injection H1 as H1. injection H2 as H2. f_equal.
  now apply (ltb_trans s t u).
Qed.

Lemma number_total (a b : cell) :
  is_number a -> is_number b -> exists t, cell_lt a b = Some t.
Proof. intros [p ->] [q ->]. now exists (negb (Qle_bool q p)). Qed.

Lemma number_tri (a b : cell) :
  is_number a -> is_number b ->
  cell_lt a b = Some false -> cell_eqb a b = false -> comes_before b a.
Proof.
  intros [p ->] [q ->]. unfold comes_before. cbn [cell_lt cell_eqb].
  intros H1 H2. injection H1 as H1. f_equal. apply Qlt_bool_true.
  apply negb_false_iff, Qle_bool_iff in H1. apply Qeq_bool_neq in H2.
  apply Qle_lt_or_eq in H1. destruct H1 as [H1 | H1]; [exact H1 |].
  elim H2. now symmetry.
Qed.

Lemma number_trans (a b c : cell) :
  is_number a -> is_number b -> is_number c ->
  comes_before a b -> comes_before b c -> comes_before a c.
Proof.
  intros [p ->] [q ->] [r ->]. unfold comes_before. cbn [cell_lt].
  intros H1 H2. injection H1 as H1. injection H2 as H2. f_equal.
  apply Qlt_bool_true in H1, H2. apply Qlt_bool_true.
  now apply (Qlt_trans p q r).
Qed.

Lemma text_not_number (c : cell) : is_text c -> is_number c -> False.
Proof. intros [s ->] [q H]. discriminate. Qed.

Lemma kind_of (c : cell) : c <> CNaN -> is_text c \/ is_number c.
Proof.
  destruct c as [q | s |]; intros H; [right; now exists q | left; now exists s | now elim H].
Qed.

Lemma sort_into_mixed (l done : list cell) :
  Forall is_text done \/ Forall is_number done ->
  Forall (fun c => c <> CNaN) l ->
  (exists a b, In a (done ++ l)%list /\ In b (done ++ l)%list
               /\ is_text a /\ is_number b) ->
  sort_into done l = None.
Proof.
  revert done. induction l as [| x l IH]; intros done Hk Hn [a [b [Ha [Hb [Ta Nb]]]]].
  - exfalso. rewrite app_nil_r in Ha, Hb.
    destruct Hk as [Hk | Hk]; rewrite Forall_forall in Hk.
    + exact (text_not_number b (Hk b Hb) Nb).
    + exact (text_not_number a Ta (Hk a Ha)).
  - inversion Hn as [| ? ? Hx Hn']; subst. cbn [sort_into].
    assert (Hnext : forall d', Permutation (x :: done) d' ->
                     Forall is_text d' \/ Forall is_number d' ->
                     sort_into d' l = None).
    { intros d' Hp Hk'. apply IH; [exact Hk' | exact Hn' |].
      assert (Hperm : Permutation (done ++ x :: l)%list (d' ++ l)%list).
      { eapply Permutation_trans; [apply Permutation_sym, Permutation_middle |].
        exact (Permutation_app_tail l Hp). }
      exists a, b. split; [now apply (Permutation_in _ Hperm) |].
      split; [now apply (Permutation_in _ Hperm) | now split]. }
    destruct (kind_of x Hx) as [Tx | Nx].
    + (* a text arrives *)
      destruct done as [| y r].
      * cbn [insert_sorted]. apply Hnext; [apply Permutation_refl |].
        left. constructor; [exact Tx | constructor].
      * destruct Hk as [Hk | Hk].
        -- destruct (insert_sorted_kind is_text text_total text_tri text_trans
                                        x (y :: r) Tx Hk) as [d' [E [Hp _]]].
           rewrite E. apply Hnext; [exact Hp |]. left.
           apply (Permutation_Forall Hp). now constructor.
        -- inversion Hk as [| ? ? [q ->] _]; subst. destruct Tx as [s ->].
           reflexivity.
    + (* a number arrives *)
      destruct done as [| y r].
      * cbn [insert_sorted]. apply Hnext; [apply Permutation_refl |].
        right. constructor; [exact Nx | constructor].
      * destruct Hk as [Hk | Hk].
        -- inversion Hk as [| ? ? [s ->] _]; subst. destruct Nx as [q ->].
           reflexivity.
        -- destruct (insert_sorted_kind is_number number_total number_tri number_trans
                                        x (y :: r) Nx Hk) as [d' [E [Hp _]]].
           rewrite E. apply Hnext; [exact Hp |]. right.
           apply (Permutation_Forall Hp). now constructor.
Qed.

Lemma kind_cases (l : list cell) :
  Forall (fun c => c <> CNaN) l ->
  Forall is_text l \/ Forall is_number l
  \/ exists a b, In a l /\ In b l /\ is_text a /\ is_number b.
Proof.
  induction 1 as [| x l Hx _ IH]; [left; constructor |].
  destruct (kind_of x Hx) as [Tx | Nx]; destruct IH as [H | [H | [a [b [Ha [Hb Hab]]]]]].
  - left. now constructor.
  - destruct l as [| y l]; [left; constructor; [exact Tx | constructor] |].
    right. right. inversion H; subst. exists x, y.
    split; [now left |]. split; [right; now left | now split].
  - right. right. exists a, b. split; [now right |]. split; [now right | exact Hab].
  - destruct l as [| y l]; [right; left; constructor; [exact Nx | constructor] |].
    right. right. inversion H; subst. exists y, x.
    split; [right; now left |]. split; [now left | now split].
  - right. left. now constructor.
  - right. right. exists a, b. split; [now right |]. split; [now right | exact Hab].
Qed.

(** What [sorted] returns: on values of one kind the ascending arrangement,
    and nothing when texts and numbers are mixed. *)
Lemma sorted_spec (l : list cell) :
  Forall (fun c => c <> CNaN) l ->
  match sorted l with
  | Some res =>
      (Forall is_text l \/ Forall is_number l)
      /\ Permutation l res
      /\ (StronglySorted (fun a b => cell_eqb a b = false) l ->
          StronglySorted comes_before res)
  | None => exists a b, In a l /\ In b l /\ is_text a /\ is_number b
  end.
Proof.
  intros Hn. unfold sorted.
  destruct (kind_cases l Hn) as [H | [H | H]].
  - destruct (sort_into_kind is_text text_total text_tri text_trans l [])
      as [res [E [Hp Hs]]]; [constructor | exact H |].
    rewrite E. split; [now left |]. split; [exact Hp |].
    intros Hd. apply Hs; [constructor | exact Hd |].
    apply Forall_forall. intros x _. constructor.
  - destruct (sort_into_kind is_number number_total number_tri number_trans l [])
      as [res [E [Hp Hs]]]; [constructor | exact H |].
    rewrite E. split; [now right |]. split; [exact Hp |].
    intros Hd. apply Hs; [constructor | exact Hd |].
    apply Forall_forall. intros x _. constructor.
  - rewrite (sort_into_mixed l []); [exact H | left; constructor | exact Hn | exact H].
Qed.

Lemma column_values (df : DataFrame) (c : string) (x : cell) :
  In x (dropna_cells (map (fun row => cell_at (columns df) row c) (data df)))
  <-> x <> CNaN /\ exists row, In row (data df) /\ cell_at (columns df) row c = x.
Proof.
  rewrite dropna_cells_In, in_map_iff. split.
  - intros [[row [E Hr]] Hx]. split; [exact Hx |]. now exists row.
  - intros [Hx [row [Hr E]]]. split; [now exists row | exact Hx].
Qed.

Lemma unique_values_not_NaN (df : DataFrame) (c : string) :
  Forall (fun x => x <> CNaN)
         (unique (dropna_cells (map (fun row => cell_at (columns df) row c) (data df)))).
Proof.
  apply Forall_forall. intros x Hx. apply unique_In, column_values in Hx. tauto.
Qed.

(** X3. The options of a selector (lines 38 and 42), when the sort succeeds:
    every option is a value of some row of the column and is not missing;
    every value of the column that is not missing is among the options; and
    the options are in strictly ascending order, so none is offered twice. *)
Theorem options_listing (df_raw : DataFrame) (c : string) (opts : list cell) :
  In c (columns df_raw) ->
  options df_raw c = Some opts ->
  (forall x, In x opts ->
     x <> CNaN
     /\ exists row, In row (data df_raw) /\ cell_at (columns df_raw) row c = x)
  /\ (forall row, In row (data df_raw) ->
        cell_at (columns df_raw) row c <> CNaN ->
        exists x, In x opts /\ cell_eqb x (cell_at (columns df_raw) row c) = true)
  /\ StronglySorted comes_before opts.
Proof.
  unfold options. intros _ E.
  pose proof (sorted_spec _ (unique_values_not_NaN df_raw c)) as H.
  rewrite E in H. destruct H as [_ [Hp Hs]].
  split; [| split].
  - intros x Hx. apply (Permutation_in _ (Permutation_sym Hp)) in Hx.
    apply unique_In in Hx. now apply column_values.
  - intros row Hr Hx.
    destruct (unique_covers
                (dropna_cells (map (fun row => cell_at (columns df_raw) row c)
                                   (data df_raw)))
                (cell_at (columns df_raw) row c)) as [x [Hin Hxy]];
      [apply column_values; split; [exact Hx | now exists row] | exact Hx |].
    exists x. split; [now apply (Permutation_in _ Hp) | exact Hxy].
  - apply Hs, unique_distinct.
Qed.

Lemma options_listing_witness :
  exists opts,
    options half_year_table "Country Name" = Some opts
    /\ StronglySorted comes_before opts
    /\ opts = [CStr "A"; CStr "B"].
Proof.
  eexists. split; [reflexivity |].
  split; [| reflexivity].
  exact (proj2 (proj2 (options_listing half_year_table "Country Name" _
                                       (or_introl eq_refl) eq_refl))).
Defined.

(** X4. A selector fails (TypeError in [sorted]) exactly when its column holds
    both a text and a number; a column of texts only, or of numbers only,
    with or without missing cells, always gets its options. *)
Theorem options_type_error_iff (df_raw : DataFrame) (c : string) :
  In c (columns df_raw) ->
  options df_raw c = None <->
  exists row1 row2 s q,
    In row1 (data df_raw) /\ In row2 (data df_raw)
    /\ cell_at (columns df_raw) row1 c = CStr s
    /\ cell_at (columns df_raw) row2 c = CNum q.
Proof.
  unfold options. intros _.
  pose proof (sorted_spec _ (unique_values_not_NaN df_raw c)) as H.
  set (vals := dropna_cells (map (fun row => cell_at (columns df_raw) row c)
                                 (data df_raw))) in *.
  split.
  - intros E. rewrite E in H. destruct H as [a [b [Ha [Hb [[s ->] [q ->]]]]]].
    apply unique_In, column_values in Ha. apply unique_In, column_values in Hb.
    destruct Ha as [_ [row1 [H1 E1]]]. destruct Hb as [_ [row2 [H2 E2]]].
    now exists row1, row2, s, q.
  - intros [row1 [row2 [s [q [H1 [H2 [E1 E2]]]]]]].
    destruct (sorted (unique vals)) as [res |]; [| reflexivity].
    exfalso. destruct H as [Hk _].
    destruct (unique_covers vals (CStr s)) as [a [Ha Ea]];
      [apply column_values; split; [discriminate | now exists row1] | discriminate |].
    destruct (unique_covers vals (CNum q)) as [b [Hb Eb]];
      [apply column_values; split; [discriminate | now exists row2] | discriminate |].
    apply cell_eqb_kind in Ea, Eb.
    assert (Ta : is_text a) by (apply Ea; now exists s).
    assert (Nb : is_number b) by (apply Eb; now exists q).
    destruct Hk as [Hk | Hk]; rewrite Forall_forall in Hk.
    + exact (text_not_number b (Hk b Hb) Nb).
    + exact (text_not_number a Ta (Hk a Ha)).
Qed.

(** * The wide series, cell by cell *)

(** X14. In the wide branch every cell of a selected year column, in every
    matching row, is in the series: as a record of that year whose Value is
    the numeric reading of the cell (NaN when it has none) and which carries
    the row's cells of the columns that are not year columns.  (For a table
    that has passed the sanity checks and has no column called Year or
    Value, and a range of years that are not negative.) *)
Theorem wide_series_holds_every_cell (K : SortKind) (df_raw : DataFrame)
        (sel : Selection) (l : list LongRecord) :
  detectShape df_raw = Wide ->
  validate df_raw = Done tt ->
  no_clash df_raw = true ->
  0 <= fst (yr sel) ->
  reshape df_raw sel = Done l ->
  forall i row y,
    nth_error (data df_raw) i = Some row ->
    matches (columns df_raw) sel row = true ->
    fst (yr sel) <= y <= snd (yr sel) ->
    In (Text.str y) (columns df_raw) ->
    exists r,
      In r l
      /\ Year r = inject_Z y
      /\ Value r = Numeric.to_numeric (cell_at (columns df_raw) row (Text.str y))
      /\ id_vars r
         = keep_ids (columns df_raw)
                    (filter (fun c => negb (has_col (year_cols df_raw) c))
                            (columns df_raw))
                    row.
Proof.
  intros Hs _ _ _ Hl i row y Hrow Hm Hy Hc.
  apply detectShape_Wide in Hs.
  assert (Hv : In (Text.str y) (selected_year_cols (columns df_raw) (yr sel))).
  { apply selected_year_cols_In. now exists y. }
  assert (Hne : selected_year_cols (columns df_raw) (yr sel) <> []).
  { intros E. now rewrite E in Hv. }
  unfold reshape in Hl. rewrite (wide_slice df_raw sel Hs Hne) in Hl.
  cbn [bind] in Hl. injection Hl as <-.
  destruct (In_nth_error _ _ Hv) as [j Hj].
  assert (Hsub : In (i, row) (sub df_raw sel)) by (apply sub_In; now split).
  destruct (In_nth_error _ _ Hsub) as [k Hk].
  pose proof (melt_layout_at (columns df_raw) (year_cols df_raw)
                (selected_year_cols (columns df_raw) (yr sel)) (sub df_raw sel)
                j k (Text.str y) (i, row) Hj Hk) as Hm'.
  apply nth_error_In in Hm'. cbn [snd] in Hm'.
  eexists (mkLongRecord _ _ (inject_Z y) _).
  split; [| split; [reflexivity | split; reflexivity]].
  apply (Permutation_in _ (sort_values_perm _)).
  apply dropna_Year_In.
  eexists. split; [apply in_map; exact Hm' |].
  cbn [coerce_melted c_Year c_label c_ids c_Value m_label m_ids variable value
       Year Numeric.to_numeric].
  split; [apply parse_str | reflexivity].
Qed.

Lemma wide_series_holds_every_cell_witness :
  exists l,
    @reshape stable_kind wide_table (pick "A" "I" 2000 2002) = Done l
    /\ exists r, In r l /\ Year r = inject_Z 2002 /\ Value r = Some (30 # 1).
Proof.
  eexists. split; [reflexivity |].
  destruct (wide_series_holds_every_cell stable_kind wide_table (pick "A" "I" 2000 2002)
              _ eq_refl eq_refl eq_refl ltac:(cbn; lia) eq_refl 0%nat
              [CStr "A"; CStr "I"; CNum (10 # 1); CNaN; CNum (30 # 1)] 2002)
    as [r [Hr [Hy [Hv _]]]];
    [reflexivity | reflexivity | cbn [pick yr fst snd]; lia
     | right; right; right; right; now left |].
  now exists r.
Defined.

(** X10. When every year column is named in the plain decimal form of its year
    ([str(int(c)) == c]: no blanks around it, no leading zeros), moving the
    slider to its full extent selects the year columns, all of them and
    nothing else. *)
Theorem canonical_names_all_selected (df_raw : DataFrame) (bounds : Z * Z) :
  detectShape df_raw = Wide ->
  year_bounds df_raw = Done bounds ->
  (forall c, In c (year_cols df_raw) ->
     exists y, Text.int_of_str c = Some y /\ Text.str y = c) ->
  forall c,
    In c (selected_year_cols (columns df_raw) bounds) <-> In c (year_cols df_raw).
Proof.
  intros Hs Hb Hcan c. apply detectShape_Wide in Hs.
  destruct (year_bounds_wide_spec df_raw Hs (year_bounds_wide_read df_raw bounds Hs Hb))
    as [lo [hi [E [Hlo [_ [_ Hall]]]]]].
  rewrite E in Hb. injection Hb as <-.
  rewrite selected_year_cols_In, year_cols_In. cbn [fst snd]. split.
  - intros [y [-> [Hy Hin]]]. split; [exact Hin |]. apply str_is_year_col. lia.
  - intros [Hin Hyc].
    assert (Hc : In c (year_cols df_raw)) by (apply year_cols_In; now split).
    destruct (Hcan c Hc) as [y [Hy Ey]].
    destruct (Hall c Hc) as [y' [Hy' Hr]].
    assert (y' = y) by congruence. subst y'.
    exists y. now repeat split.
Qed.

Lemma canonical_names_all_selected_witness :
  In "2001" (selected_year_cols (columns wide_table) (2000, 2002)).
Proof.
  apply (canonical_names_all_selected wide_table (2000, 2002)); try reflexivity.
  - intros c [<- | [<- | [<- | []]]];
      [now exists 2000 | now exists 2001 | now exists 2002].
  - right. now left.
Defined.

Lemma options_type_error_iff_witness :
  options (mkDataFrame long_cols
             [long_row "A" "I" (CNum (2000 # 1)) (CNum (1 # 1));
              [CNum (7 # 1); CStr "I"; CNum (2001 # 1); CNum (2 # 1)]])
          "Country Name" = None.
Proof.
  apply (proj2 (options_type_error_iff
                  (mkDataFrame long_cols
                     [long_row "A" "I" (CNum (2000 # 1)) (CNum (1 # 1));
                      [CNum (7 # 1); CStr "I"; CNum (2001 # 1); CNum (2 # 1)]])
                  "Country Name" (or_introl eq_refl))).
  exists (long_row "A" "I" (CNum (2000 # 1)) (CNum (1 # 1))),
         [CNum (7 # 1); CStr "I"; CNum (2001 # 1); CNum (2 # 1)], "A", (7 # 1).
  split; [now left |]. split; [right; now left |]. split; reflexivity.
Defined.

Lemma sub_keeps_matching_rows_in_order_witness :
  StronglySorted lt (map fst (sub half_year_table (pick "A" "I" 1999 2005)))
  /\ map fst (sub half_year_table (pick "A" "I" 1999 2005)) = [0%nat; 1%nat].
Proof.
  split; [| reflexivity].
  exact (proj1 (proj2 (sub_keeps_matching_rows_in_order half_year_table
                         (pick "A" "I" 1999 2005) eq_refl))).
Defined.
